(** * foxpost-watcher: a shallow embedding of the collection cycle

    The development follows the Go program of the repository: the load
    table [loadMap], the start-up routine [loadConfig], the collection
    cycle [run] with its wrappers [invoke] and [safeInvoke], the ticker loop
    [daemon] and [main].

    Go error values are ordinary return values ([option error], [None]
    being [nil]); a Go panic is the one control effect of the monad [M].
    Every call that leaves the program (HTTP, clock, InfluxDB, logger,
    ticker) is recorded as an [event] of the history, and what the outside
    world answers is read from a [World] whose answers may depend on the
    whole history so far. *)

From Stdlib Require Import ZArith QArith Lia String Ascii List PrimFloat DecimalString.
From Stdlib Require Import DecimalPos DecimalN.
From stdpp Require Import base option list gmap strings.

Local Open Scope Z_scope.
Local Open Scope string_scope.
Local Open Scope list_scope.

(** ** Data model *)

(** [uint64], [uint8], [time.Time] and [time.Duration] are carried as
    integers; the program does no arithmetic on them. *)
Definition Time := Z.
Definition Duration := Z.

Definition time_Second : Duration := 1000000000.
Definition time_Minute : Duration := 60 * time_Second.
Definition time_Hour : Duration := 60 * time_Minute.

Definition http_StatusOK : Z := 200.

(** [type APMData struct] *)
Record APMData := mkAPMData {
  PlaceID : Z;
  OperatorID : string;
  Name : string;
  GeoLat : float;
  GeoLng : float;
  Load : string
}.

(** Go [error] values.  The two [fmt.Errorf] calls of [run] get a
    constructor each; errors handed back by library calls are opaque. *)
Inductive error :=
| Errorf_unexpected_HTTP_status (status : Z)
| Errorf_invalid_load_value (load : string)
| LibError (msg : string).

(** The argument of a Go [panic]. *)
Inductive panicval :=
| PanicStr (s : string)
| PanicErr (e : error).

(** A field value of a point, [interface{}] in the source. *)
Inductive fieldval :=
| FUint8 (v : Z)
| FFloat64 (v : float).

(** [write.Point] as built by [influxdb2.NewPoint(measurement, tags, fields, ts)] *)
Record Point := NewPoint {
  pt_measurement : string;
  pt_tags : gmap string string;
  pt_fields : gmap string fieldval;
  pt_time : Time
}.

(** Options of the InfluxDB client: the defaults, or the defaults with a
    TLS configuration whose root pool has the given PEM text appended. *)
Inductive ClientOpts :=
| DefaultOptions
| WithExtraCA (pem : string).

Record InfluxClient := NewClientWithOptions {
  cl_url : string;
  cl_token : string;
  cl_opts : ClientOpts
}.

(** [type InstanceConfig struct]; a nil [influxClient] is [None]. *)
Record InstanceConfig := mkInstanceConfig {
  timeout : Duration;
  placeIDs : list Z;
  influxClient : option InfluxClient;
  influxOrg : string;
  influxBucket : string;
  influxMeasurement : string;
  dryRun : bool
}.

(** ** The load table *)

(** [var loadMap = map[string]uint8{...}] *)
Definition loadMap : gmap string Z :=
  <[ "" := 10 ]> (<[ "normal loaded" := 10 ]> (<[ "medium loaded" := 70 ]>
    (<[ "overloaded" := 100 ]> ∅))).

(** The table of the earlier revision kept in [main.go]
    ([map[string]float32], three entries, no entry for the empty label).
    A [float32] holds the nearest binary32 number to the literal: for 0.3
    that is 0x1.333334p-2, for 0.7 it is 0x1.666666p-1, and 1 is exact.
    These numbers are carried as floats, in which they are exact. *)
Module MainGo.
Definition loadMap : gmap string float :=
  <[ "normal loaded" := 0x1.333334p-2%float ]>
    (<[ "medium loaded" := 0x1.666666p-1%float ]>
      (<[ "overloaded" := 0x1p0%float ]> ∅)).
End MainGo.

(** ** Library functions used by [loadConfig] *)

(** [strings.Split(s, sep)] for a one-byte separator: the pieces of [s]
    between the occurrences of [sep]. *)
Fixpoint strings_Split (s : string) (sep : ascii) : list string :=
  match s with
  | EmptyString => [EmptyString]
  | String c rest =>
      if Ascii.eqb c sep then EmptyString :: strings_Split rest sep
      else match strings_Split rest sep with
           | [] => [String c EmptyString]
           | piece :: pieces => String c piece :: pieces
           end
  end.

Inductive NumError := ErrSyntax | ErrRange.

Definition maxUint64 : Z := 2 ^ 64 - 1.

(** The digit loop of [strconv.ParseUint(s, 10, 64)]: bytes other than
    ['0'..'9'] are a syntax error, a value above [maxUint64] a range error. *)
Fixpoint parse_digits (s : string) (n : Z) : NumError + Z :=
  match s with
  | EmptyString => inr n
  | String c rest =>
      let b := Z.of_N (N_of_ascii c) in
      if ((48 <=? b) && (b <=? 57))%Z then
        let d := b - 48 in
        if (maxUint64 / 10 + 1 <=? n)%Z then inl ErrRange
        else
          let n1 := n * 10 + d in
          if (maxUint64 <? n1)%Z then inl ErrRange else parse_digits rest n1
      else inl ErrSyntax
  end.

Definition strconv_ParseUint (s : string) : NumError + Z :=
  match s with
  | EmptyString => inl ErrSyntax
  | _ => parse_digits s 0
  end.

(** [strconv.FormatUint(v, 10)] *)
Definition strconv_FormatUint (v : Z) : string :=
  NilZero.string_of_uint (N.to_uint (Z.to_N v)).

(** [slices.Contains(s, v)] *)
Definition slices_Contains (s : list Z) (v : Z) : bool :=
  existsb (Z.eqb v) s.

(** ** Events, the outside world and the monad *)

(** What [log.Println] and [log.Printf] are asked to print, kept structured. *)
Inductive logmsg :=
| LogParsingConfig
| LogSettingUpInflux
| LogLoadingExtraCA
| LogHealthResult (status : string)
| LogDryRunEnabled
| LogFoundPlace (placeID : Z)
| LogDryRunPoint (p : Point)
| LogCollectionError (e : error)
| LogPanicRecovered (r : panicval)
| LogStartingTicker
| LogTick
| LogOneShot
| LogDaemon.

(** The calls that leave the program, in the order they are made. *)
Inductive event :=
| EvLog (m : logmsg)
| EvNewInfluxClient (c : InfluxClient)
| EvHealth
| EvWithTimeout (d : Duration)
| EvCancel
| EvNewRequest (method url : string)
| EvDo
| EvBodyClose
| EvNow (t : Time)
| EvDecode
| EvWriteAPIBlocking (org bucket : string)
| EvWritePoint (p : Point)
| EvCtxErr
| EvNewTicker (d : Duration)
| EvTick.

(** A library call either returns or panics. *)
Inductive ext (A : Type) :=
| Returns (a : A)
| Panics (v : panicval).
Arguments Returns {A} a.
Arguments Panics {A} v.

(** [*http.Response]: the status code, and what [json.Decoder.Decode] into
    [[]APMData] makes of the body. *)
Record Response := mkResponse {
  StatusCode : Z;
  Body : ext (error + list APMData)
}.

(** The answers of the outside world, each a function of the history. *)
Record World := mkWorld {
  w_newRequest : list event -> ext (option error);
  w_do : list event -> ext (error + Response);
  w_now : list event -> Time;
  w_write : list event -> Point -> ext (option error);
  w_ctxErr : list event -> option error;
  w_health : list event -> ext (error + string);
  w_ticks : nat
}.

(** The package [gitlab.com/MikeTTh/env] over the process environment:
    the interface [loadConfig], [daemon] and [main] program against. *)
Class Env := mkEnv {
  env_StringOrPanic : string -> ext string;
  env_String : string -> string -> ext string;
  env_Bool : string -> bool -> ext bool;
  env_Duration : string -> Duration -> ext Duration;
  env_Exists : string -> ext bool
}.

(** The outcome of a computation: a value, an unrecovered panic, or blocked
    on the ticker channel with no further tick in the observed run. *)
Inductive result (A : Type) :=
| Val (a : A)
| Panic (v : panicval)
| Blocked.
Arguments Val {A} a.
Arguments Panic {A} v.
Arguments Blocked {A}.

Definition M (A : Type) : Type := list event -> result A * list event.

Definition ret {A} (a : A) : M A := fun h => (Val a, h).

Definition bind {A B} (m : M A) (k : A -> M B) : M B :=
  fun h =>
    match m h with
    | (Val a, h') => k a h'
    | (Panic v, h') => (Panic v, h')
    | (Blocked, h') => (Blocked, h')
    end.

Declare Scope go_scope.
Delimit Scope go_scope with go.
Notation "x <- m ;; k" := (bind m (fun x => k))
  (at level 100, m at next level, right associativity) : go_scope.
Notation "m ;; k" := (bind m (fun _ => k))
  (at level 100, right associativity) : go_scope.
Local Open Scope go_scope.

Definition panic {A} (v : panicval) : M A := fun h => (Panic v, h).

Definition blocked {A} : M A := fun h => (Blocked, h).

Definition emit (e : event) : M unit := fun h => (Val tt, h ++ [e]).

Definition log_Println (m : logmsg) : M unit := emit (EvLog m).

(** A library call that consults nothing outside the program. *)
Definition pure_call {A} (x : ext A) : M A :=
  fun h => match x with Returns a => (Val a, h) | Panics v => (Panic v, h) end.

(** A call into the outside world: the event is recorded and the world
    answers from the history before the call. *)
Definition ext_call {A} (e : event) (answer : list event -> ext A) : M A :=
  fun h =>
    match answer h with
    | Returns a => (Val a, h ++ [e])
    | Panics v => (Panic v, h ++ [e])
    end.

(** [defer f()] for a deferred call that only leaves an event: it runs when
    the body returns and when the body panics. *)
Definition defer {A} (e : event) (body : M A) : M A :=
  fun h =>
    match body h with
    | (Val a, h') => (Val a, h' ++ [e])
    | (Panic v, h') => (Panic v, h' ++ [e])
    | (Blocked, h') => (Blocked, h')
    end.

(** [defer func() { if r := recover(); r != nil { handler r } }()] *)
Definition defer_recover (handler : panicval -> M unit) (body : M unit) : M unit :=
  fun h =>
    match body h with
    | (Val a, h') => (Val a, h')
    | (Panic r, h') => handler r h'
    | (Blocked, h') => (Blocked, h')
    end.

(** ** The program *)

Section Program.

Context {E : Env} (w : World).

(** [func (ic *InstanceConfig) GetWriter() func(context.Context, *write.Point) error] *)
Definition GetWriter (ic : InstanceConfig) : M (Point -> M (option error)) :=
  if dryRun ic then
    ret (fun point =>
      log_Println (LogDryRunPoint point);;
      ret None)
  else
    match influxClient ic with
    | None =>
        (* a method call on the nil interface value *)
        panic (PanicStr "runtime error: invalid memory address or nil pointer dereference")
    | Some _ =>
        emit (EvWriteAPIBlocking (influxOrg ic) (influxBucket ic));;
        ret (fun point => ext_call (EvWritePoint point) (fun h => w_write w h point))
    end.

(** The loop of [loadConfig] that fills [placeIDs] slot by slot; the slots
    are filled in order, so the slice is built here front to back. *)
Fixpoint parsePlaceIDs (placeIDsStrs : list string) : M (list Z) :=
  match placeIDsStrs with
  | [] => ret []
  | v :: rest =>
      match strconv_ParseUint v with
      | inl _ => panic (PanicStr "invalid place id")
      | inr placeID =>
          ids <- parsePlaceIDs rest;;
          ret (placeID :: ids)
      end
  end.

Definition extraCAEnvvarName : string := "INFLUX_SERVER_EXTRA_CA".

(** The [if !dryRun { ... } else { ... }] block of [loadConfig], giving
    [(influxOrg, influxBucket, influxClient)]. *)
Definition setupInflux (dryRun : bool) : M (string * string * option InfluxClient) :=
  if negb dryRun then
    log_Println LogSettingUpInflux;;
    influxOrg <- pure_call (env_StringOrPanic "INFLUX_SERVER_ORG");;
    influxBucket <- pure_call (env_StringOrPanic "INFLUX_SERVER_BUCKET");;
    hasCA <- pure_call (env_Exists extraCAEnvvarName);;
    clientOpts <-
      (if hasCA : bool then
         log_Println LogLoadingExtraCA;;
         pem <- pure_call (env_StringOrPanic extraCAEnvvarName);;
         ret (WithExtraCA pem)
       else ret DefaultOptions);;
    url <- pure_call (env_StringOrPanic "INFLUX_SERVER_URL");;
    token <- pure_call (env_StringOrPanic "INFLUX_SERVER_TOKEN");;
    let influxClient := NewClientWithOptions url token clientOpts in
    emit (EvNewInfluxClient influxClient);;
    hc <- ext_call EvHealth (w_health w);;
    match hc with
    | inl _ => panic (PanicStr "influxdb health check failed")
    | inr status =>
        log_Println (LogHealthResult status);;
        ret (influxOrg, influxBucket, Some influxClient)
    end
  else
    log_Println LogDryRunEnabled;;
    ret ("", "", None).

(** [func loadConfig() *InstanceConfig] *)
Definition loadConfig : M InstanceConfig :=
  placeIDsStr <- pure_call (env_StringOrPanic "FOXPOST_PLACE_IDS");;
  let placeIDsStrs := strings_Split placeIDsStr ","%char in
  if Nat.eqb (length placeIDsStrs) 0 then panic (PanicStr "no place ids?")
  else
    placeIDs <- parsePlaceIDs placeIDsStrs;;
    dryRun <- pure_call (env_Bool "DRY_RUN" false);;
    influx <- setupInflux dryRun;;
    let '(influxOrg, influxBucket, influxClient) := influx in
    timeout <- pure_call (env_Duration "INVOCATION_TIMEOUT" time_Minute);;
    influxMeasurement <- pure_call (env_String "INFLUX_MEASUREMENT" "foxpost");;
    ret {| timeout := timeout;
           placeIDs := placeIDs;
           influxClient := influxClient;
           influxOrg := influxOrg;
           influxBucket := influxBucket;
           influxMeasurement := influxMeasurement;
           dryRun := dryRun |}.

(** The point [run] builds for a record of interest. *)
Definition mkPoint (ic : InstanceConfig) (apmData : APMData) (loadVal : Z) (ts : Time) : Point :=
  let tags : gmap string string :=
    <[ "place_id" := strconv_FormatUint (PlaceID apmData) ]>
      (<[ "operator_id" := OperatorID apmData ]>
        (<[ "name" := Name apmData ]> ∅)) in
  let fields : gmap string fieldval :=
    <[ "load" := FUint8 loadVal ]>
      (<[ "geoLat" := FFloat64 (GeoLat apmData) ]>
        (<[ "geoLng" := FFloat64 (GeoLng apmData) ]> ∅)) in
  NewPoint (influxMeasurement ic) tags fields ts.

(** [ctx.Err()]; once it is non-nil it stays the same error, so the two
    reads of one iteration are one answer of the world. *)
Definition ctx_Err : M (option error) :=
  fun h => (Val (w_ctxErr w h), h ++ [EvCtxErr]).

(** [time.Now()] *)
Definition time_Now : M Time :=
  fun h => (Val (w_now w h), h ++ [EvNow (w_now w h)]).

(** The body of one iteration of [for _, apmData := range apmsData] up to
    the context check: [Some err] is [return err]. *)
Definition processRecord (ic : InstanceConfig) (writer : Point -> M (option error))
    (ts : Time) (apmData : APMData) : M (option error) :=
  if slices_Contains (placeIDs ic) (PlaceID apmData) then
    log_Println (LogFoundPlace (PlaceID apmData));;
    match loadMap !! Load apmData with
    | None => ret (Some (Errorf_invalid_load_value (Load apmData)))
    | Some loadVal => writer (mkPoint ic apmData loadVal ts)
    end
  else ret None.

(** [for _, apmData := range apmsData { ... }] followed by [return nil] *)
Fixpoint processRecords (ic : InstanceConfig) (writer : Point -> M (option error))
    (ts : Time) (apmsData : list APMData) : M (option error) :=
  match apmsData with
  | [] => ret None
  | apmData :: rest =>
      err <- processRecord ic writer ts apmData;;
      match err with
      | Some e => ret (Some e)
      | None =>
          cerr <- ctx_Err;;
          match cerr with
          | Some e => ret (Some e)
          | None => processRecords ic writer ts rest
          end
      end
  end.

(** [func run(ctx context.Context, ic *InstanceConfig) error] *)
Definition run (ic : InstanceConfig) : M (option error) :=
  err <- ext_call (EvNewRequest "GET" "https://cdn.foxpost.hu/apms.json") (w_newRequest w);;
  match err with
  | Some e => ret (Some e)
  | None =>
      r <- ext_call EvDo (w_do w);;
      match r with
      | inl e => ret (Some e)
      | inr resp =>
          defer EvBodyClose (
            ts <- time_Now;;
            if negb (StatusCode resp =? http_StatusOK)%Z then
              ret (Some (Errorf_unexpected_HTTP_status (StatusCode resp)))
            else
              d <- ext_call EvDecode (fun _ => Body resp);;
              match d with
              | inl e => ret (Some e)
              | inr apmsData =>
                  writer <- GetWriter ic;;
                  processRecords ic writer ts apmsData
              end)
      end
  end.

(** [func invoke(ic *InstanceConfig) error] *)
Definition invoke (ic : InstanceConfig) : M (option error) :=
  emit (EvWithTimeout (timeout ic));;
  defer EvCancel (run ic).

(** [func safeInvoke(ic *InstanceConfig)] *)
Definition safeInvoke (ic : InstanceConfig) : M unit :=
  defer_recover
    (fun r => log_Println (LogPanicRecovered r))
    (err <- invoke ic;;
     match err with
     | Some e => log_Println (LogCollectionError e)
     | None => ret tt
     end).

(** [for range ticker.C { ... }] over the ticks still to come in the
    observed run; with none left the loop is blocked on the channel. *)
Fixpoint tickerLoop (ic : InstanceConfig) (ticks : nat) : M unit :=
  match ticks with
  | O => blocked
  | S ticks' =>
      emit EvTick;;
      log_Println LogTick;;
      safeInvoke ic;;
      tickerLoop ic ticks'
  end.

(** [time.NewTicker(d)], which panics on an interval that is not positive. *)
Definition time_NewTicker (d : Duration) : M unit :=
  if (d <=? 0)%Z then panic (PanicStr "non-positive interval for NewTicker")
  else emit (EvNewTicker d).

(** [func daemon(ic *InstanceConfig)] *)
Definition daemon (ic : InstanceConfig) : M unit :=
  log_Println LogStartingTicker;;
  d <- pure_call (env_Duration "POLL_INTERVAL" time_Hour);;
  time_NewTicker d;;
  tickerLoop ic (w_ticks w).

(** [func main()]: a returned value is a normal exit, an unrecovered panic
    the abnormal termination of the process. *)
Definition main : M unit :=
  log_Println LogParsingConfig;;
  ic <- loadConfig;;
  oneShot <- pure_call (env_Bool "ONESHOT" false);;
  if oneShot : bool then
    log_Println LogOneShot;;
    err <- invoke ic;;
    match err with
    | Some e => panic (PanicErr e)
    | None => ret tt
    end
  else
    log_Println LogDaemon;;
    safeInvoke ic;;
    daemon ic.

End Program.

(** ** Observations on a history *)

(** The point a call of the writer was given, in either mode. *)
Definition event_point (e : event) : option Point :=
  match e with
  | EvWritePoint p => Some p
  | EvLog (LogDryRunPoint p) => Some p
  | _ => None
  end.

(** The points handed to the writer, in order. *)
Definition emitted (h : list event) : list Point := omap event_point h.

(** The calls that reach the metrics backend. *)
Definition is_backend (e : event) : bool :=
  match e with
  | EvNewInfluxClient _ | EvHealth | EvWriteAPIBlocking _ _ | EvWritePoint _ => true
  | _ => false
  end.

Definition backend_calls (h : list event) : list event := List.filter is_backend h.

Definition is_now (e : event) : bool :=
  match e with EvNow _ => true | _ => false end.

(** The readings of the clock. *)
Definition clock_reads (h : list event) : list event := List.filter is_now h.

Definition is_cycle_start (e : event) : bool :=
  match e with EvWithTimeout _ => true | _ => false end.

(** The number of collection cycles started: one per call of [invoke]. *)
Definition count_cycles (h : list event) : nat := length (List.filter is_cycle_start h).

(** Is some reading of the clock made directly after the body was decoded? *)
Fixpoint now_follows_decode (h : list event) : bool :=
  match h with
  | [] => false
  | EvDecode :: rest =>
      match rest with
      | EvNow _ :: _ => true
      | _ => now_follows_decode rest
      end
  | _ :: rest => now_follows_decode rest
  end.

(** Is the record one the cycle acts on? *)
Definition of_interest (ic : InstanceConfig) (apmData : APMData) : bool :=
  slices_Contains (placeIDs ic) (PlaceID apmData).

(** ** Concrete worlds and environments *)

(** A process environment given by the values the package [env] reads from
    it: string variables, flags and durations that are set. *)
Definition mapEnv (strs : gmap string string) (flags : gmap string bool)
    (durs : gmap string Duration) : Env :=
  {| env_StringOrPanic k :=
       match strs !! k with
       | Some v => Returns v
       | None => Panics (PanicStr k)
       end;
     env_String k def := Returns (default def (strs !! k));
     env_Bool k def := Returns (default def (flags !! k));
     env_Duration k def := Returns (default def (durs !! k));
     env_Exists k := Returns (bool_decide (is_Some (strs !! k))) |}.

(** A world that serves [resp] to every request, reads the clock as the
    length of the history, accepts every write, never expires the context
    and delivers [ticks] ticks. *)
Definition quietWorld (resp : Response) (ticks : nat) : World :=
  {| w_newRequest _ := Returns None;
     w_do _ := Returns (inr resp);
     w_now h := Z.of_nat (length h);
     w_write _ _ := Returns None;
     w_ctxErr _ := None;
     w_health _ := Returns (inr "pass");
     w_ticks := ticks |}.

Definition feedOf (records : list APMData) : Response :=
  {| StatusCode := 200; Body := Returns (inr records) |}.

Definition apmX : APMData := mkAPMData 1 "A" "X" 47.5%float 19.0%float "overloaded".
Definition apmY : APMData := mkAPMData 2 "B" "Y" 46.25%float 20.5%float "normal loaded".
Definition apmOdd : APMData := mkAPMData 2 "B" "Y" 46.25%float 20.5%float "half loaded".
Definition apmOddX : APMData := mkAPMData 1 "A" "X" 47.5%float 19.0%float "half loaded".

Definition dryConfig (ids : list Z) : InstanceConfig :=
  mkInstanceConfig time_Minute ids None "" "" "foxpost" true.

Definition liveConfig (ids : list Z) : InstanceConfig :=
  mkInstanceConfig time_Minute ids
    (Some (NewClientWithOptions "http://influx:8086" "token" DefaultOptions))
    "org" "bucket" "foxpost" false.

(** ** Shapes of histories *)

Definition theRequest : event := EvNewRequest "GET" "https://cdn.foxpost.hu/apms.json".

(** The two writers [GetWriter] hands out. *)
Definition dry_writer : Point -> M (option error) :=
  fun point => (log_Println (LogDryRunPoint point);; ret None).

Definition live_writer (w : World) : Point -> M (option error) :=
  fun point => ext_call (EvWritePoint point) (fun h => w_write w h point).

Definition writer_shape (w : World) (writer : Point -> M (option error)) : Prop :=
  writer = dry_writer \/ writer = live_writer w.

(** Events of the record loop of a cycle whose timestamp is [ts]. *)
Definition loop_event (ts : Time) (e : event) : Prop :=
  match e with
  | EvLog (LogFoundPlace _) | EvCtxErr => True
  | EvLog (LogDryRunPoint p) | EvWritePoint p => pt_time p = ts
  | _ => False
  end.

(** Events of a cycle after its clock reading. *)
Definition after_now_event (ts : Time) (e : event) : Prop :=
  match e with
  | EvDecode | EvWriteAPIBlocking _ _ | EvBodyClose => True
  | _ => loop_event ts e
  end.

(** Events a cycle can leave behind. *)
Definition run_event (e : event) : bool :=
  match e with
  | EvNewRequest _ _ | EvDo | EvNow _ | EvDecode | EvWriteAPIBlocking _ _
  | EvBodyClose | EvCtxErr | EvWritePoint _
  | EvLog (LogFoundPlace _) | EvLog (LogDryRunPoint _) => true
  | _ => false
  end.

(** The history of one call of [safeInvoke]: the context is made, the
    cycle runs, the context is cancelled, and an error or a recovered panic
    is logged. *)
Definition one_cycle (ic : InstanceConfig) (c : list event) : Prop :=
  exists t l,
    c = [EvWithTimeout (timeout ic)] ++ t ++ [EvCancel] ++ l
    /\ Forall (fun e => run_event e = true) t
    /\ (l = []
        \/ (exists e, l = [EvLog (LogCollectionError e)])
        \/ (exists v, l = [EvLog (LogPanicRecovered v)])).

(** The history of the ticker loop over [n] ticks: after each tick, one cycle. *)
Inductive tick_blocks (ic : InstanceConfig) : nat -> list event -> Prop :=
| tick_blocks_done : tick_blocks ic 0 []
| tick_blocks_tick n c rest :
    one_cycle ic c ->
    tick_blocks ic n rest ->
    tick_blocks ic (S n) ([EvTick; EvLog LogTick] ++ c ++ rest).

(** What [safeInvoke] logs after a cycle that ended with [r]. *)
Definition outcome_log (r : result (option error)) : list event :=
  match r with
  | Val (Some e) => [EvLog (LogCollectionError e)]
  | Panic v => [EvLog (LogPanicRecovered v)]
  | _ => []
  end.

(** The history [c] of one call of [safeInvoke] made at history [h]: the
    context is made, [run] is executed from there with result [r] and
    events [t], the context is cancelled, and the outcome is logged. *)
Definition ran_cycle (w : World) (ic : InstanceConfig) (h c : list event) : Prop :=
  exists r t,
    run w ic (h ++ [EvWithTimeout (timeout ic)]) = (r, (h ++ [EvWithTimeout (timeout ic)]) ++ t)
    /\ c = [EvWithTimeout (timeout ic)] ++ t ++ [EvCancel] ++ outcome_log r.

(** The history of the ticker loop entered at history [h], over [n] ticks:
    after each tick, one executed cycle. *)
Inductive tick_runs (w : World) (ic : InstanceConfig) :
    list event -> nat -> list event -> Prop :=
| tick_runs_done h : tick_runs w ic h 0 []
| tick_runs_tick h n c rest :
    ran_cycle w ic (h ++ [EvTick; EvLog LogTick]) c ->
    tick_runs w ic (h ++ [EvTick; EvLog LogTick] ++ c) n rest ->
    tick_runs w ic h (S n) ([EvTick; EvLog LogTick] ++ c ++ rest).

Definition is_fetch (e : event) : bool :=
  match e with EvDo => true | _ => false end.

Definition is_error_log (e : event) : bool :=
  match e with EvLog (LogCollectionError _) => true | _ => false end.

(** Events the start-up can leave behind. *)
Definition startup_event (e : event) : bool :=
  match e with
  | EvLog LogSettingUpInflux | EvLog LogLoadingExtraCA | EvLog (LogHealthResult _)
  | EvLog LogDryRunEnabled | EvNewInfluxClient _ | EvHealth => true
  | _ => false
  end.

(** ** The filter and the place IDs *)

Definition with_placeIDs (ic : InstanceConfig) (ids : list Z) : InstanceConfig :=
  mkInstanceConfig (timeout ic) ids (influxClient ic) (influxOrg ic) (influxBucket ic)
    (influxMeasurement ic) (dryRun ic).


(** White space as Go's [unicode.IsSpace] has it on single bytes. *)
Definition is_space (c : ascii) : bool :=
  let b := Z.of_N (N_of_ascii c) in
  (b =? 32)%Z || ((9 <=? b) && (b <=? 13))%Z.

(** The empty string, or white space only. *)
Fixpoint blank (s : string) : bool :=
  match s with
  | EmptyString => true
  | String c rest => is_space c && blank rest
  end.

(** ** Two sentences of the specification, as worded *)

(** The claim as the specification words it: in a successful cycle the
    clock is read directly after the body has been decoded. *)
Definition timestamp_after_decode_claim : Prop :=
  forall (w : World) (ic : InstanceConfig) (h' : list event),
    run w ic [] = (Val None, h') -> now_follows_decode h' = true.

(** The claim as the specification words it: a record with a label outside
    the table, anywhere in the feed, keeps the cycle from succeeding. *)
Definition unknown_label_anywhere_claim : Prop :=
  forall (w : World) (ic : InstanceConfig) (h : list event) (resp : Response)
         (apmsData : list APMData) (apmData : APMData),
    w_newRequest w h = Returns None ->
    w_do w (h ++ [theRequest]) = Returns (inr resp) ->
    Body resp = Returns (inr apmsData) ->
    In apmData apmsData ->
    loadMap !! Load apmData = None ->
    fst (run w ic h) <> Val None.

(** ** The start-up of the earlier revision *)

(** The start-up as [main.go] has it: there is no dry run, the client is
    always built and checked, and the organisation and the bucket are read
    last, in the struct literal. *)
Module MainGoConfig.

(** [type InstanceConfig struct] of [main.go] *)
Record InstanceConfig := mkInstanceConfig {
  timeout : Duration;
  placeIDs : list Z;
  influxClient : InfluxClient;
  influxOrg : string;
  influxBucket : string;
  influxMeasurement : string
}.

Section Program.

Context {E : Env} (w : World).

(** The [if env.Exists("INFLUX_SERVER_EXTRA_CA") { ... }] block, giving
    [clientOpts]. *)
Definition extraCA : M ClientOpts :=
  hasCA <- pure_call (env_Exists "INFLUX_SERVER_EXTRA_CA");;
  if hasCA : bool then
    log_Println LogLoadingExtraCA;;
    pem <- pure_call (env_StringOrPanic "INFLUX_SERVER_CA");;
    ret (WithExtraCA pem)
  else ret DefaultOptions.

(** [func loadConfig() *InstanceConfig] of [main.go] *)
Definition loadConfig : M InstanceConfig :=
  placeIDsStr <- pure_call (env_StringOrPanic "FOXPOST_PLACE_IDS");;
  let placeIDsStrs := strings_Split placeIDsStr ","%char in
  if Nat.eqb (length placeIDsStrs) 0 then panic (PanicStr "no place ids?")
  else
    placeIDs <- parsePlaceIDs placeIDsStrs;;
    clientOpts <- extraCA;;
    url <- pure_call (env_StringOrPanic "INFLUX_SERVER_URL");;
    token <- pure_call (env_StringOrPanic "INFLUX_SERVER_TOKEN");;
    let influxClient := NewClientWithOptions url token clientOpts in
    emit (EvNewInfluxClient influxClient);;
    hc <- ext_call EvHealth (w_health w);;
    match hc with
    | inl _ => panic (PanicStr "influxdb health check failed")
    | inr status =>
        log_Println (LogHealthResult status);;
        timeout <- pure_call (env_Duration "INVOCATION_TIMEOUT" time_Minute);;
        influxOrg <- pure_call (env_StringOrPanic "INFLUX_SERVER_ORG");;
        influxBucket <- pure_call (env_StringOrPanic "INFLUX_SERVER_BUCKET");;
        influxMeasurement <- pure_call (env_String "INFLUX_MEASUREMENT" "foxpost");;
        ret {| timeout := timeout;
               placeIDs := placeIDs;
               influxClient := influxClient;
               influxOrg := influxOrg;
               influxBucket := influxBucket;
               influxMeasurement := influxMeasurement |}
    end.

End Program.

End MainGoConfig.

(** ** Further observations *)

Definition is_ctx_check (e : event) : bool :=
  match e with EvCtxErr => true | _ => false end.

Definition is_body_close (e : event) : bool :=
  match e with EvBodyClose => true | _ => false end.

Definition is_cancel (e : event) : bool :=
  match e with EvCancel => true | _ => false end.

Definition is_found_place (e : event) : bool :=
  match e with EvLog (LogFoundPlace _) => true | _ => false end.

Definition is_ticker (e : event) : bool :=
  match e with EvNewTicker _ | EvTick => true | _ => false end.

(** How often events of one kind occur in a history. *)
Definition count_events (kind : event -> bool) (h : list event) : nat :=
  length (List.filter kind h).

(** The point [run] hands to the writer for a record, when the record's
    label is in the table. *)
Definition point_of (ic : InstanceConfig) (ts : Time) (apmData : APMData) : option Point :=
  match loadMap !! Load apmData with
  | Some loadVal => Some (mkPoint ic apmData loadVal ts)
  | None => None
  end.

(** Is the record free of an unknown label, as far as the cycle looks? *)
Definition label_known (ic : InstanceConfig) (apmData : APMData) : Prop :=
  of_interest ic apmData = true -> is_Some (loadMap !! Load apmData).

(** What every point of this program looks like: the configured
    measurement, the three tags with the ID of a configured place, the
    three fields, and a load value of the table. *)
Definition point_shape (ic : InstanceConfig) (p : Point) : Prop :=
  pt_measurement p = influxMeasurement ic
  /\ dom (pt_tags p) = ({[ "place_id"; "operator_id"; "name" ]} : gset string)
  /\ dom (pt_fields p) = ({[ "load"; "geoLat"; "geoLng" ]} : gset string)
  /\ (exists placeID, In placeID (placeIDs ic)
                      /\ pt_tags p !! "place_id" = Some (strconv_FormatUint placeID))
  /\ (exists loadVal, In loadVal [10; 70; 100]
                      /\ pt_fields p !! "load" = Some (FUint8 loadVal)).

(** The number a string of decimal digits denotes, most significant digit
    first, on top of the digits [n] already read. *)
Fixpoint digits_val (d : Decimal.uint) (n : Z) : Z :=
  match d with
  | Decimal.Nil => n
  | Decimal.D0 d => digits_val d (n * 10 + 0)
  | Decimal.D1 d => digits_val d (n * 10 + 1)
  | Decimal.D2 d => digits_val d (n * 10 + 2)
  | Decimal.D3 d => digits_val d (n * 10 + 3)
  | Decimal.D4 d => digits_val d (n * 10 + 4)
  | Decimal.D5 d => digits_val d (n * 10 + 5)
  | Decimal.D6 d => digits_val d (n * 10 + 6)
  | Decimal.D7 d => digits_val d (n * 10 + 7)
  | Decimal.D8 d => digits_val d (n * 10 + 8)
  | Decimal.D9 d => digits_val d (n * 10 + 9)
  end.

(** [strings.Join(elems, sep)] for a one-byte separator. *)
Fixpoint strings_Join (elems : list string) (sep : ascii) : string :=
  match elems with
  | [] => EmptyString
  | [e] => e
  | e :: rest => String.append e (String sep (strings_Join rest sep))
  end.

(** Does the byte occur in the string? *)
Fixpoint contains_byte (s : string) (c : ascii) : bool :=
  match s with
  | EmptyString => false
  | String a rest => Ascii.eqb a c || contains_byte rest c
  end.

(** [strings.Count(s, sep)] for a one-byte separator. *)
Fixpoint strings_Count (s : string) (sep : ascii) : nat :=
  match s with
  | EmptyString => 0
  | String a rest => (if Ascii.eqb a sep then 1 else 0) + strings_Count rest sep
  end.

(** ** Properties of the load table *)

Lemma loadMap_lookup (s : string) :
  loadMap !! s =
    if decide (s = "") then Some 10
    else if decide (s = "normal loaded") then Some 10
    else if decide (s = "medium loaded") then Some 70
    else if decide (s = "overloaded") then Some 100
    else None.
Proof.
  unfold loadMap.
  rewrite !lookup_insert, lookup_empty.
  repeat case_decide; congruence.
Qed.

Lemma loadMap_None (s : string) :
  loadMap !! s = None <->
  s <> "" /\ s <> "normal loaded" /\ s <> "medium loaded" /\ s <> "overloaded".
Proof.
  rewrite loadMap_lookup.
  repeat case_decide; split; intros; try discriminate; intuition congruence.
Qed.

(** The table of the earlier revision has no entry for the empty label. *)
Example MainGo_loadMap_empty_label : MainGo.loadMap !! "" = None.
Proof. reflexivity. Qed.

(** C1. The load table holds exactly the labels [""], ["normal loaded"],
    ["medium loaded"] and ["overloaded"], with the values 10, 10, 70 and
    100, compared byte for byte; for a record of interest with any other
    label the cycle step returns the invalid-load error and hands nothing
    to the writer. *)
Theorem loadMap_exact (s : string) :
  loadMap !! s =
    (if decide (s = "") then Some 10
     else if decide (s = "normal loaded") then Some 10
     else if decide (s = "medium loaded") then Some 70
     else if decide (s = "overloaded") then Some 100
     else None)
  /\ (forall ic writer ts apmData h,
        of_interest ic apmData = true ->
        Load apmData = s ->
        s <> "" -> s <> "normal loaded" -> s <> "medium loaded" -> s <> "overloaded" ->
        processRecord ic writer ts apmData h =
          (Val (Some (Errorf_invalid_load_value s)),
           h ++ [EvLog (LogFoundPlace (PlaceID apmData))]))
  /\ (forall ic writer ts apmData h v,
        of_interest ic apmData = true ->
        Load apmData = s ->
        loadMap !! s = Some v ->
        processRecord ic writer ts apmData h =
          writer (mkPoint ic apmData v ts) (h ++ [EvLog (LogFoundPlace (PlaceID apmData))])).
Proof.
  split; [apply loadMap_lookup |].
  split.
  - intros ic writer ts apmData h Hin Hs H1 H2 H3 H4.
    unfold processRecord. unfold of_interest in Hin. rewrite Hin.
    assert (Hnone : loadMap !! Load apmData = None)
      by (apply loadMap_None; subst s; auto).
    unfold bind, log_Println, emit. rewrite Hnone. subst s. reflexivity.
  - intros ic writer ts apmData h v Hin Hs Hv.
    unfold processRecord. unfold of_interest in Hin. rewrite Hin.
    unfold bind, log_Println, emit. rewrite Hs, Hv. reflexivity.
Qed.

Lemma loadMap_exact_witness :
  loadMap !! "Overloaded" = None
  /\ processRecord (dryConfig [2]) (fun _ => ret None) 0 apmOdd [] =
       (Val (Some (Errorf_invalid_load_value "half loaded")), [EvLog (LogFoundPlace 2)])
  /\ processRecord (dryConfig [1]) (fun _ => ret None) 5 apmX [] =
       (Val None, [EvLog (LogFoundPlace 1)]).
Proof.
  split; [reflexivity |].
  split.
  - apply (proj1 (proj2 (loadMap_exact "half loaded"))); try reflexivity; discriminate.
  - apply (proj2 (proj2 (loadMap_exact "overloaded")) (dryConfig [1]) (fun _ => ret None) 5 apmX [] 100);
      reflexivity.
Defined.

(** ** The shape of a cycle's history *)

Section Traces.

Context (w : World).

Lemma loop_event_after_now ts e : loop_event ts e -> after_now_event ts e.
Proof. destruct e as [[]| | | | | | | | | | | | | |]; simpl; tauto. Qed.

Lemma writer_step writer p h :
  writer_shape w writer ->
  exists r e, writer p h = (r, h ++ [e])
    /\ r <> Blocked
    /\ (e = EvLog (LogDryRunPoint p) \/ e = EvWritePoint p).
Proof.
  intros [-> | ->].
  - exists (Val None), (EvLog (LogDryRunPoint p)). repeat split; [discriminate | auto].
  - unfold live_writer, ext_call.
    destruct (w_write w h p) as [a | v];
      eexists _, (EvWritePoint p); (repeat split; [discriminate | auto]).
Qed.

Lemma processRecord_trace ic writer ts apmData h :
  writer_shape w writer ->
  exists r t, processRecord ic writer ts apmData h = (r, h ++ t)
    /\ r <> Blocked /\ Forall (loop_event ts) t.
Proof.
  intros Hw. unfold processRecord.
  destruct (slices_Contains (placeIDs ic) (PlaceID apmData)).
  - unfold bind, log_Println, emit.
    destruct (loadMap !! Load apmData) as [loadVal |].
    + destruct (writer_step writer (mkPoint ic apmData loadVal ts)
                  (h ++ [EvLog (LogFoundPlace (PlaceID apmData))]) Hw)
        as (r & e & Heq & Hr & He).
      exists r, [EvLog (LogFoundPlace (PlaceID apmData)); e].
      rewrite Heq, <- app_assoc. repeat split; auto.
      repeat constructor. destruct He as [-> | ->]; reflexivity.
    + eexists _, [_]. repeat split; [discriminate |]. repeat constructor.
  - exists (Val None), []. rewrite app_nil_r. repeat split; [discriminate | constructor].
Qed.

Lemma processRecords_trace ic writer ts apmsData :
  writer_shape w writer ->
  forall h, exists r t, processRecords w ic writer ts apmsData h = (r, h ++ t)
    /\ r <> Blocked /\ Forall (loop_event ts) t.
Proof.
  intros Hw. induction apmsData as [| apmData rest IH]; intros h.
  - exists (Val None), []. rewrite app_nil_r. repeat split; [discriminate | constructor].
  - cbn [processRecords]. unfold bind at 1.
    destruct (processRecord_trace ic writer ts apmData h Hw) as (r & t & Heq & Hr & Ht).
    rewrite Heq.
    destruct r as [[e |] | v |]; [| | | congruence].
    + exists (Val (Some e)), t. repeat split; [discriminate | auto].
    + unfold bind, ctx_Err.
      destruct (w_ctxErr w (h ++ t)) as [e |].
      * exists (Val (Some e)), (t ++ [EvCtxErr]). rewrite app_assoc.
        repeat split; [discriminate |].
        apply Forall_app; split; [auto | repeat constructor].
      * destruct (IH ((h ++ t) ++ [EvCtxErr])) as (r' & t' & Heq' & Hr' & Ht').
        exists r', (t ++ [EvCtxErr] ++ t'). rewrite Heq'.
        rewrite <- !app_assoc. repeat split; auto.
        apply Forall_app; split; [auto |].
        apply Forall_app; split; [repeat constructor | auto].
    + exists (Panic v), t. repeat split; [discriminate | auto].
Qed.

End Traces.

Section Cycle.

Context (w : World).

Lemma emitted_app h1 h2 : emitted (h1 ++ h2) = emitted h1 ++ emitted h2.
Proof. unfold emitted. apply omap_app. Qed.

Lemma GetWriter_dry ic h :
  dryRun ic = true -> GetWriter w ic h = (Val dry_writer, h).
Proof. intros Hd. unfold GetWriter. rewrite Hd. reflexivity. Qed.

Lemma GetWriter_live ic c h :
  dryRun ic = false -> influxClient ic = Some c ->
  GetWriter w ic h =
    (Val (live_writer w), h ++ [EvWriteAPIBlocking (influxOrg ic) (influxBucket ic)]).
Proof. intros Hd Hc. unfold GetWriter. rewrite Hd, Hc. reflexivity. Qed.

Lemma GetWriter_cases ic h :
  (exists writer t, GetWriter w ic h = (Val writer, h ++ t)
     /\ writer_shape w writer
     /\ (t = [] \/ t = [EvWriteAPIBlocking (influxOrg ic) (influxBucket ic)]))
  \/ (exists v, GetWriter w ic h = (Panic v, h)).
Proof.
  unfold GetWriter. destruct (dryRun ic).
  - left. exists dry_writer, []. rewrite app_nil_r.
    repeat split; [left; reflexivity | auto].
  - destruct (influxClient ic).
    + left. eexists (live_writer w), [_].
      repeat split; [right; reflexivity | auto].
    + right. eexists. reflexivity.
Qed.

(** A record that passes, in a loop that goes on to succeed. *)
Lemma processRecord_success ic writer ts apmData h h' :
  writer_shape w writer ->
  processRecord ic writer ts apmData h = (Val None, h') ->
  exists t, h' = h ++ t
    /\ (if of_interest ic apmData
        then exists v, loadMap !! Load apmData = Some v
                       /\ emitted t = [mkPoint ic apmData v ts]
        else emitted t = []).
Proof.
  intros Hw. unfold processRecord, of_interest.
  destruct (slices_Contains (placeIDs ic) (PlaceID apmData)).
  - unfold bind, log_Println, emit.
    destruct (loadMap !! Load apmData) as [loadVal |]; [| discriminate].
    destruct (writer_step w writer (mkPoint ic apmData loadVal ts)
                (h ++ [EvLog (LogFoundPlace (PlaceID apmData))]) Hw)
      as (r & e & Heq & _ & He).
    rewrite Heq. intros [= -> <-].
    exists [EvLog (LogFoundPlace (PlaceID apmData)); e].
    rewrite <- app_assoc. split; [reflexivity |].
    exists loadVal. split; [reflexivity |].
    destruct He as [-> | ->]; reflexivity.
  - intros [= <-]. exists []. rewrite app_nil_r. auto.
Qed.

Lemma processRecords_success ic writer ts apmsData :
  writer_shape w writer ->
  forall h h',
    processRecords w ic writer ts apmsData h = (Val None, h') ->
    exists t, h' = h ++ t
      /\ Forall2 (fun apmData p =>
                    exists v, loadMap !! Load apmData = Some v
                              /\ p = mkPoint ic apmData v ts)
           (List.filter (of_interest ic) apmsData) (emitted t).
Proof.
  intros Hw. induction apmsData as [| apmData rest IH]; intros h h'.
  - intros [= <-]. exists []. rewrite app_nil_r. split; [reflexivity | constructor].
  - cbn [processRecords List.filter]. unfold bind at 1.
    destruct (processRecord ic writer ts apmData h) as [[[e |] | v |] h1] eqn:Hrec;
      try discriminate.
    destruct (processRecord_success _ _ _ _ _ _ Hw Hrec) as (t1 & -> & Ht1).
    unfold bind, ctx_Err.
    destruct (w_ctxErr w (h ++ t1)) as [e |]; [discriminate |].
    intros Hrest. destruct (IH _ _ Hrest) as (t2 & -> & Ht2).
    exists (t1 ++ [EvCtxErr] ++ t2). rewrite <- !app_assoc.
    split; [reflexivity |].
    rewrite !emitted_app. cbn [emitted omap event_point app].
    change (omap event_point t2) with (emitted t2).
    destruct (of_interest ic apmData).
    + destruct Ht1 as (v & Hv & ->). constructor; eauto.
    + rewrite Ht1. exact Ht2.
Qed.

Lemma after_now_run_event ts e : after_now_event ts e -> run_event e = true.
Proof. destruct e as [[]| | | | | | | | | | | | | |]; simpl; tauto. Qed.

(** The cycle once the client has returned a response: the clock is read
    next, and everything after carries that reading. *)
Lemma run_after_response ic h resp :
  w_newRequest w h = Returns None ->
  w_do w (h ++ [EvNewRequest "GET" "https://cdn.foxpost.hu/apms.json"]) = Returns (inr resp) ->
  let h2 := h ++ [EvNewRequest "GET" "https://cdn.foxpost.hu/apms.json"; EvDo] in
  let ts := w_now w h2 in
  exists r t, run w ic h = (r, h2 ++ [EvNow ts] ++ t)
    /\ r <> Blocked /\ Forall (after_now_event ts) t.
Proof.
  intros Hreq Hdo h2 ts. unfold run, bind at 1, ext_call at 1. rewrite Hreq.
  unfold bind at 1, ext_call at 1. rewrite Hdo.
  unfold defer, bind at 1, time_Now.
  replace ((h ++ [EvNewRequest "GET" "https://cdn.foxpost.hu/apms.json"]) ++ [EvDo])
    with h2 by (unfold h2; rewrite <- app_assoc; reflexivity).
  fold ts.
  destruct (negb (StatusCode resp =? http_StatusOK)%Z).
  { exists (Val (Some (Errorf_unexpected_HTTP_status (StatusCode resp)))), [EvBodyClose].
    unfold ret. rewrite <- !app_assoc.
    repeat split; [discriminate | repeat constructor]. }
  unfold bind at 1, ext_call at 1.
  destruct (Body resp) as [[e | apmsData] | v].
  - exists (Val (Some e)), [EvDecode; EvBodyClose]. unfold ret. rewrite <- !app_assoc.
    repeat split; [discriminate | repeat constructor].
  - unfold bind at 1.
    destruct (GetWriter_cases ic ((h2 ++ [EvNow ts]) ++ [EvDecode]))
      as [(writer & tw & Hgw & Hshape & Htw) | (v & Hgw)]; rewrite Hgw.
    + destruct (processRecords_trace w ic writer ts apmsData Hshape
                  (((h2 ++ [EvNow ts]) ++ [EvDecode]) ++ tw))
        as (r & t & Heq & Hr & Ht).
      rewrite Heq.
      exists r, ([EvDecode] ++ tw ++ t ++ [EvBodyClose]).
      split; [destruct r; [| | congruence]; rewrite <- !app_assoc; reflexivity |].
      split; [exact Hr |].
      apply Forall_app; split; [repeat constructor |].
      apply Forall_app; split;
        [destruct Htw as [-> | ->]; repeat constructor |].
      apply Forall_app; split; [| repeat constructor].
      eapply Forall_impl; [exact Ht | apply loop_event_after_now].
    + exists (Panic v), [EvDecode; EvBodyClose]. rewrite <- !app_assoc.
      repeat split; [discriminate | repeat constructor].
  - exists (Panic v), [EvDecode; EvBodyClose]. rewrite <- !app_assoc.
    repeat split; [discriminate | repeat constructor].
Qed.

End Cycle.

Section CycleResults.

Context (w : World).

(** What a successful cycle has been through. *)
Lemma run_success_inv ic h h' :
  run w ic h = (Val None, h') ->
  exists resp apmsData tw t,
    w_newRequest w h = Returns None
    /\ w_do w (h ++ [theRequest]) = Returns (inr resp)
    /\ StatusCode resp = 200
    /\ Body resp = Returns (inr apmsData)
    /\ h' = h ++ [theRequest; EvDo; EvNow (w_now w (h ++ [theRequest; EvDo])); EvDecode]
              ++ tw ++ t ++ [EvBodyClose]
    /\ emitted tw = []
    /\ Forall2 (fun apmData p =>
                  exists v, loadMap !! Load apmData = Some v
                            /\ p = mkPoint ic apmData v (w_now w (h ++ [theRequest; EvDo])))
         (List.filter (of_interest ic) apmsData) (emitted t).
Proof.
  unfold run, theRequest, bind at 1, ext_call at 1.
  destruct (w_newRequest w h) as [[e |] | v] eqn:Hreq; try discriminate.
  unfold bind at 1, ext_call at 1.
  destruct (w_do w _) as [[e | resp] | v] eqn:Hdo; try discriminate.
  unfold defer, bind at 1, time_Now.
  replace ((h ++ [EvNewRequest "GET" "https://cdn.foxpost.hu/apms.json"]) ++ [EvDo])
    with (h ++ [EvNewRequest "GET" "https://cdn.foxpost.hu/apms.json"; EvDo])
    by (rewrite <- app_assoc; reflexivity).
  set (h2 := h ++ [_; EvDo]). set (ts := w_now w h2).
  destruct (StatusCode resp =? http_StatusOK)%Z eqn:Hst; [| discriminate].
  apply Z.eqb_eq in Hst. cbn [negb].
  unfold bind at 1, ext_call at 1.
  destruct (Body resp) as [[e | apmsData] | v] eqn:Hbody; try discriminate.
  unfold bind at 1.
  destruct (GetWriter_cases w ic ((h2 ++ [EvNow ts]) ++ [EvDecode]))
    as [(writer & tw & Hgw & Hshape & Htw) | (v & Hgw)]; rewrite Hgw; [| discriminate].
  destruct (processRecords w ic writer ts apmsData _) as [[[e |] | v |] h3] eqn:Hloop;
    try discriminate.
  destruct (processRecords_success w ic writer ts apmsData Hshape _ _ Hloop)
    as (t & -> & Ht).
  intros [= <-].
  exists resp, apmsData, tw, t.
  repeat split; auto.
  - unfold h2. rewrite <- !app_assoc. reflexivity.
  - destruct Htw as [-> | ->]; reflexivity.
Qed.

(** The loop succeeds when every write is accepted, the context stays
    alive and every record of interest has a label of the table. *)
Lemma processRecords_succeeds ic writer ts apmsData :
  writer_shape w writer ->
  (forall h p, w_write w h p = Returns None) ->
  (forall h, w_ctxErr w h = None) ->
  Forall (fun apmData => of_interest ic apmData = true -> is_Some (loadMap !! Load apmData))
    apmsData ->
  forall h, exists h', processRecords w ic writer ts apmsData h = (Val None, h').
Proof.
  intros Hshape Hwrite Hctx Hall.
  induction Hall as [| apmData rest Hone _ IH]; intros h.
  - eexists. reflexivity.
  - cbn [processRecords]. unfold bind at 1, processRecord.
    fold (of_interest ic apmData).
    destruct (of_interest ic apmData).
    + destruct (Hone eq_refl) as [v Hv]. rewrite Hv.
      unfold bind at 1, log_Println, emit.
      assert (Hwr : forall p h0, writer p h0 = (Val None, snd (writer p h0))).
      { intros p h0. destruct Hshape as [-> | ->].
        - reflexivity.
        - unfold live_writer, ext_call. rewrite Hwrite. reflexivity. }
      rewrite Hwr. unfold bind, ctx_Err. rewrite Hctx. apply IH.
    + unfold ret at 1. unfold bind, ctx_Err. rewrite Hctx. apply IH.
Qed.

Lemma run_succeeds ic h resp apmsData :
  w_newRequest w h = Returns None ->
  w_do w (h ++ [theRequest]) = Returns (inr resp) ->
  StatusCode resp = 200 ->
  Body resp = Returns (inr apmsData) ->
  (dryRun ic = true \/ is_Some (influxClient ic)) ->
  (forall h p, w_write w h p = Returns None) ->
  (forall h, w_ctxErr w h = None) ->
  Forall (fun apmData => of_interest ic apmData = true -> is_Some (loadMap !! Load apmData))
    apmsData ->
  exists h', run w ic h = (Val None, h').
Proof.
  intros Hreq Hdo Hst Hbody Hwriter Hwrite Hctx Hall.
  unfold run, bind at 1, ext_call at 1. rewrite Hreq.
  unfold bind at 1, ext_call at 1. unfold theRequest in Hdo. rewrite Hdo.
  unfold defer, bind at 1, time_Now. rewrite Hst. cbn [Z.eqb http_StatusOK negb Pos.eqb].
  unfold bind at 1, ext_call at 1. rewrite Hbody.
  unfold bind at 1.
  match goal with |- context [GetWriter w ic ?h0] =>
    destruct (GetWriter_cases w ic h0) as [(writer & tw & Hgw & Hshape & _) | (v & Hgw)]
  end.
  - rewrite Hgw.
    match goal with |- context [processRecords w ic writer ?ts apmsData ?h0] =>
      destruct (processRecords_succeeds ic writer ts apmsData Hshape Hwrite Hctx Hall h0)
        as (h' & Hloop)
    end.
    rewrite Hloop. eexists. reflexivity.
  - exfalso. revert Hgw. unfold GetWriter.
    destruct Hwriter as [-> | [c ->]]; [discriminate |].
    destruct (dryRun ic); discriminate.
Qed.

(** A cycle never blocks, extends the history, and leaves only events of
    its own. *)
Lemma run_trace ic h :
  exists r t, run w ic h = (r, h ++ t)
    /\ r <> Blocked /\ Forall (fun e => run_event e = true) t.
Proof.
  destruct (w_newRequest w h) as [[e |] | v] eqn:Hreq.
  - exists (Val (Some e)), [theRequest].
    unfold run, bind, ext_call. rewrite Hreq.
    repeat split; [discriminate | repeat constructor].
  - destruct (w_do w (h ++ [theRequest])) as [[e | resp] | v] eqn:Hdo.
    + exists (Val (Some e)), [theRequest; EvDo].
      unfold run, bind at 1, ext_call at 1. rewrite Hreq.
      unfold bind, ext_call. unfold theRequest in Hdo. rewrite Hdo.
      rewrite <- app_assoc. repeat split; [discriminate | repeat constructor].
    + destruct (run_after_response w ic h resp Hreq Hdo) as (r & t & Heq & Hr & Ht).
      exists r, ([theRequest; EvDo] ++ [EvNow (w_now w (h ++ [theRequest; EvDo]))] ++ t).
      rewrite Heq, <- !app_assoc. repeat split; auto.
      repeat constructor.
      eapply Forall_impl; [exact Ht | apply after_now_run_event].
    + exists (Panic v), [theRequest; EvDo].
      unfold run, bind at 1, ext_call at 1. rewrite Hreq.
      unfold bind, ext_call. unfold theRequest in Hdo. rewrite Hdo.
      rewrite <- app_assoc. repeat split; [discriminate | repeat constructor].
  - exists (Panic v), [theRequest].
    unfold run, bind, ext_call. rewrite Hreq.
    repeat split; [discriminate | repeat constructor].
Qed.

End CycleResults.

(** ** The timestamp of a cycle *)

Lemma after_now_no_clock ts t :
  Forall (after_now_event ts) t -> clock_reads t = [].
Proof.
  induction 1 as [| e t He _ IH]; [reflexivity |].
  unfold clock_reads in *. cbn [List.filter].
  destruct e as [[]| | | | | | | | | | | | | |]; simpl in *; tauto.
Qed.

Lemma after_now_points ts t :
  Forall (after_now_event ts) t -> Forall (fun p => pt_time p = ts) (emitted t).
Proof.
  induction 1 as [| e t He _ IH]; [constructor |].
  unfold emitted in *. cbn [omap list_omap].
  destruct e as [[]| | | | | | | | | | | | | |]; simpl in *;
    try exact IH; try tauto; constructor; auto.
Qed.

Lemma no_clock_no_now_after_decode t :
  clock_reads t = [] -> now_follows_decode t = false.
Proof.
  induction t as [| e t IH]; [reflexivity |].
  unfold clock_reads in *. cbn [List.filter].
  destruct (is_now e) eqn:He; [discriminate |].
  intros Ht. specialize (IH Ht).
  destruct e; try discriminate; simpl; try exact IH.
  destruct t as [| e' t']; [reflexivity |].
  destruct e'; try exact IH.
  cbn [List.filter is_now] in Ht. discriminate.
Qed.

(** C2, as stated, fails: in a cycle that succeeds on a feed of two records
    the clock is read before the body is decoded, and not after. *)
Lemma timestamp_after_decode_counterexample : ~ timestamp_after_decode_claim.
Proof.
  intros Hclaim.
  specialize (Hclaim (quietWorld (feedOf [apmX; apmY]) 0) (liveConfig [1]) _ eq_refl).
  vm_compute in Hclaim. discriminate.
Qed.

(** C2, amended. Once the retrying client has returned a response, the
    clock is read exactly once in the cycle, directly after the client's
    return and so before the status check and the decoding of the body;
    every point handed to the writer in the cycle carries that reading. *)
Theorem timestamp_after_response (w : World) (ic : InstanceConfig) (h : list event)
    (resp : Response) :
  w_newRequest w h = Returns None ->
  w_do w (h ++ [theRequest]) = Returns (inr resp) ->
  let ts := w_now w (h ++ [theRequest; EvDo]) in
  exists r t,
    run w ic h = (r, h ++ [theRequest; EvDo; EvNow ts] ++ t)
    /\ clock_reads ([theRequest; EvDo; EvNow ts] ++ t) = [EvNow ts]
    /\ now_follows_decode ([theRequest; EvDo; EvNow ts] ++ t) = false
    /\ Forall (fun p => pt_time p = ts) (emitted t).
Proof.
  intros Hreq Hdo ts.
  destruct (run_after_response w ic h resp Hreq Hdo) as (r & t & Heq & _ & Ht).
  exists r, t. fold ts in Heq.
  split; [rewrite Heq, <- !app_assoc; reflexivity |].
  pose proof (after_now_no_clock _ _ Ht) as Hclock.
  split; [| split].
  - unfold clock_reads in *. cbn [app List.filter is_now theRequest]. rewrite Hclock.
    reflexivity.
  - cbn [app now_follows_decode theRequest]. apply no_clock_no_now_after_decode, Hclock.
  - apply after_now_points, Ht.
Qed.

Lemma timestamp_after_response_witness :
  exists r t,
    run (quietWorld (mkResponse 500 (Returns (inr []))) 0) (liveConfig [1]) [] =
      (r, [] ++ [theRequest; EvDo; EvNow 2] ++ t)
    /\ clock_reads ([theRequest; EvDo; EvNow 2] ++ t) = [EvNow 2]
    /\ now_follows_decode ([theRequest; EvDo; EvNow 2] ++ t) = false
    /\ Forall (fun p => pt_time p = 2) (emitted t).
Proof.
  exact (timestamp_after_response (quietWorld (mkResponse 500 (Returns (inr []))) 0)
           (liveConfig [1]) [] (mkResponse 500 (Returns (inr []))) eq_refl eq_refl).
Defined.

(** ** Labels outside the table *)

Lemma Forall2_elem_l {A B} (P : A -> B -> Prop) (l : list A) (k : list B) (x : A) :
  Forall2 P l k -> In x l -> exists y, P x y.
Proof.
  induction 1 as [| a b l k Hab _ IH]; intros Hin; [destruct Hin |].
  destruct Hin as [-> | Hin]; eauto.
Qed.

(** C3, as stated, fails: a record with an unknown label whose place is not
    configured is skipped, and the cycle succeeds. *)
Lemma unknown_label_anywhere_counterexample : ~ unknown_label_anywhere_claim.
Proof.
  intros Hclaim.
  apply (Hclaim (quietWorld (feedOf [apmX; apmOdd]) 0) (dryConfig [1]) []
           (feedOf [apmX; apmOdd]) [apmX; apmOdd] apmOdd);
    try reflexivity.
  right; left; reflexivity.
Qed.

Example unknown_label_keeps_earlier_write :
  let out := run (quietWorld (feedOf [apmX; apmOddX]) 0) (liveConfig [1]) [] in
  fst out = Val (Some (Errorf_invalid_load_value "half loaded"))
  /\ emitted (snd out) = [mkPoint (liveConfig [1]) apmX 100 2]
  /\ backend_calls (snd out) =
       [EvWriteAPIBlocking "org" "bucket"; EvWritePoint (mkPoint (liveConfig [1]) apmX 100 2)].
Proof. vm_compute. auto. Qed.

(** ** Points of a successful cycle *)

(** C4. When the fetch returns the records [apmsData], a cycle that
    succeeds has handed the writer exactly one point per record whose place
    is configured, in feed order and none for the others, each built from
    its record with the table's value for the label and each carrying the
    one timestamp of the cycle.  Such a cycle exists: with a writer at
    hand, every write accepted, the context alive and every record of
    interest labelled from the table, the cycle succeeds. *)
Theorem successful_cycle_points (w : World) (ic : InstanceConfig) (h : list event)
    (resp : Response) (apmsData : list APMData) :
  w_newRequest w h = Returns None ->
  w_do w (h ++ [theRequest]) = Returns (inr resp) ->
  Body resp = Returns (inr apmsData) ->
  let ts := w_now w (h ++ [theRequest; EvDo]) in
  let K := length (List.filter (of_interest ic) apmsData) in
  (forall h', run w ic h = (Val None, h') ->
     exists t, h' = h ++ t
       /\ length (emitted t) = K
       /\ Forall (fun p => pt_time p = ts) (emitted t)
       /\ Forall2 (fun apmData p =>
                     exists v, loadMap !! Load apmData = Some v
                               /\ p = mkPoint ic apmData v ts)
            (List.filter (of_interest ic) apmsData) (emitted t))
  /\ (StatusCode resp = 200 ->
      dryRun ic = true \/ is_Some (influxClient ic) ->
      (forall h0 p, w_write w h0 p = Returns None) ->
      (forall h0, w_ctxErr w h0 = None) ->
      Forall (fun apmData => of_interest ic apmData = true ->
                             is_Some (loadMap !! Load apmData)) apmsData ->
      exists h', run w ic h = (Val None, h')).
Proof.
  intros Hreq Hdo Hbody ts K. split.
  - intros h' Hrun.
    destruct (run_success_inv w ic h h' Hrun)
      as (resp' & feed' & tw & t & _ & Hdo' & _ & Hbody' & -> & Htw & Hall).
    rewrite Hdo in Hdo'. injection Hdo' as <-.
    rewrite Hbody in Hbody'. injection Hbody' as <-.
    fold ts in Hall |- *.
    exists ([theRequest; EvDo; EvNow ts; EvDecode] ++ tw ++ t ++ [EvBodyClose]).
    split; [reflexivity |].
    assert (Hem : emitted ([theRequest; EvDo; EvNow ts; EvDecode] ++ tw ++ t ++ [EvBodyClose])
                  = emitted t).
    { rewrite !emitted_app, Htw. cbn. apply app_nil_r. }
    rewrite Hem. split; [| split; [| exact Hall]].
    + symmetry. apply (Forall2_length _ _ _ Hall).
    + clear Hem. induction Hall as [| a p l k (v & _ & ->) _ IH]; constructor; auto.
  - intros Hst Hwriter Hwrite Hctx Hlabels.
    eapply run_succeeds; eauto.
Qed.

(** Two records, one of them configured: the cycle succeeds with the one
    point of the end-to-end scenario. *)
Lemma successful_cycle_points_witness :
  (exists t,
     snd (run (quietWorld (feedOf [apmX; apmY]) 0) (liveConfig [1]) []) = [] ++ t
     /\ length (emitted t) = 1%nat
     /\ Forall (fun p => pt_time p = 2) (emitted t)
     /\ Forall2 (fun apmData p =>
                   exists v, loadMap !! Load apmData = Some v
                             /\ p = mkPoint (liveConfig [1]) apmData v 2)
          [apmX] (emitted t))
  /\ (exists h', run (quietWorld (feedOf [apmX; apmY]) 0) (liveConfig [1]) [] = (Val None, h')).
Proof.
  pose proof (successful_cycle_points (quietWorld (feedOf [apmX; apmY]) 0)
                (liveConfig [1]) [] (feedOf [apmX; apmY]) [apmX; apmY]
                eq_refl eq_refl eq_refl) as [Hpoints Hsucceeds].
  split.
  - exact (Hpoints _ eq_refl).
  - apply Hsucceeds; try reflexivity.
    + right. eexists. reflexivity.
    + repeat constructor; intros _; eexists; reflexivity.
Defined.

Example end_to_end_scenario :
  let out := run (quietWorld (feedOf [apmX; apmY]) 0) (liveConfig [1]) [] in
  fst out = Val None
  /\ emitted (snd out) =
       [NewPoint "foxpost"
          (<[ "place_id" := "1" ]> (<[ "operator_id" := "A" ]> (<[ "name" := "X" ]> ∅)))
          (<[ "load" := FUint8 100 ]>
             (<[ "geoLat" := FFloat64 47.5%float ]> (<[ "geoLng" := FFloat64 19.0%float ]> ∅)))
          2].
Proof. vm_compute. auto. Qed.

(** ** The status check and the decoding *)

(** C6. The response the retrying client returns is final for the cycle:
    the client is called once.  With a status other than 200 the cycle
    returns the unexpected-status error without decoding the body and
    without handing anything to the writer; with status 200 an error of the
    decoder is returned as the cycle's error; and a cycle that succeeds
    has had status 200 and a body decoded into records. *)
Theorem fetch_status_and_decode (w : World) (ic : InstanceConfig) (h : list event)
    (resp : Response) :
  w_newRequest w h = Returns None ->
  w_do w (h ++ [theRequest]) = Returns (inr resp) ->
  let ts := w_now w (h ++ [theRequest; EvDo]) in
  (StatusCode resp <> 200 ->
     run w ic h = (Val (Some (Errorf_unexpected_HTTP_status (StatusCode resp))),
                   h ++ [theRequest; EvDo; EvNow ts; EvBodyClose]))
  /\ (forall e, StatusCode resp = 200 -> Body resp = Returns (inl e) ->
        run w ic h = (Val (Some e),
                      h ++ [theRequest; EvDo; EvNow ts; EvDecode; EvBodyClose]))
  /\ (forall h', run w ic h = (Val None, h') ->
        StatusCode resp = 200 /\ exists apmsData, Body resp = Returns (inr apmsData)).
Proof.
  intros Hreq Hdo ts. unfold theRequest in *.
  assert (Hstep : run w ic h =
    defer EvBodyClose
      (ts <- time_Now w;;
       if negb (StatusCode resp =? http_StatusOK)%Z
       then ret (Some (Errorf_unexpected_HTTP_status (StatusCode resp)))
       else d <- ext_call EvDecode (fun _ => Body resp);;
            match d with
            | inl e => ret (Some e)
            | inr apmsData =>
                writer <- GetWriter w ic;; processRecords w ic writer ts apmsData
            end)
      ((h ++ [EvNewRequest "GET" "https://cdn.foxpost.hu/apms.json"]) ++ [EvDo])).
  { unfold run, bind at 1, ext_call at 1. rewrite Hreq.
    unfold bind at 1, ext_call at 1. rewrite Hdo. reflexivity. }
  rewrite <- app_assoc in Hstep. cbn [app] in Hstep.
  split; [| split].
  - intros Hst. rewrite Hstep. unfold defer, bind, time_Now.
    apply Z.eqb_neq in Hst. unfold http_StatusOK. rewrite Hst. cbn [negb].
    unfold ret. fold ts. rewrite <- !app_assoc. reflexivity.
  - intros e Hst Hbody. rewrite Hstep. unfold defer, bind, time_Now, ext_call.
    rewrite Hst, Hbody. cbn. fold ts. rewrite <- !app_assoc. reflexivity.
  - intros h' Hrun.
    destruct (run_success_inv w ic h h' Hrun)
      as (resp' & feed & _ & _ & _ & Hdo' & Hst & Hbody & _).
    unfold theRequest in Hdo'. rewrite Hdo in Hdo'. injection Hdo' as <-. eauto.
Qed.

Lemma fetch_status_and_decode_witness :
  run (quietWorld (mkResponse 500 (Returns (inr []))) 0) (liveConfig [1]) [] =
    (Val (Some (Errorf_unexpected_HTTP_status 500)),
     [theRequest; EvDo; EvNow 2; EvBodyClose])
  /\ run (quietWorld (mkResponse 200 (Returns (inl (LibError "unexpected EOF")))) 0)
       (liveConfig [1]) [] =
    (Val (Some (LibError "unexpected EOF")),
     [theRequest; EvDo; EvNow 2; EvDecode; EvBodyClose]).
Proof.
  split.
  - apply (proj1 (fetch_status_and_decode
                    (quietWorld (mkResponse 500 (Returns (inr []))) 0) (liveConfig [1]) []
                    (mkResponse 500 (Returns (inr []))) eq_refl eq_refl)).
    discriminate.
  - apply (proj1 (proj2 (fetch_status_and_decode
                    (quietWorld (mkResponse 200 (Returns (inl (LibError "unexpected EOF")))) 0)
                    (liveConfig [1]) []
                    (mkResponse 200 (Returns (inl (LibError "unexpected EOF"))))
                    eq_refl eq_refl)));
      reflexivity.
Defined.

(** ** The filter *)

Lemma slices_Contains_In (S : list Z) (p : Z) :
  slices_Contains S p = true <-> In p S.
Proof.
  unfold slices_Contains. rewrite existsb_exists. split.
  - intros (x & Hx & Heq). apply Z.eqb_eq in Heq. congruence.
  - intros Hin. exists p. split; [exact Hin | apply Z.eqb_refl].
Qed.

Lemma slices_Contains_ext (S S' : list Z) :
  (forall x, In x S <-> In x S') ->
  forall p, slices_Contains S' p = slices_Contains S p.
Proof.
  intros Hset p.
  destruct (slices_Contains S p) eqn:HS.
  - apply slices_Contains_In, Hset, slices_Contains_In, HS.
  - destruct (slices_Contains S' p) eqn:HS'; [| reflexivity].
    apply slices_Contains_In, Hset, slices_Contains_In in HS'. congruence.
Qed.

Section FilterInRun.

Context (w : World) (ic : InstanceConfig) (S S' : list Z).
Hypothesis Hset : forall x, In x S <-> In x S'.

Lemma processRecord_ext writer ts apmData h :
  processRecord (with_placeIDs ic S') writer ts apmData h =
  processRecord (with_placeIDs ic S) writer ts apmData h.
Proof.
  unfold processRecord. cbn [placeIDs with_placeIDs].
  rewrite (slices_Contains_ext S S' Hset). reflexivity.
Qed.

Lemma processRecords_ext writer ts apmsData :
  forall h,
    processRecords w (with_placeIDs ic S') writer ts apmsData h =
    processRecords w (with_placeIDs ic S) writer ts apmsData h.
Proof.
  induction apmsData as [| apmData rest IH]; intros h; [reflexivity |].
  cbn [processRecords]. unfold bind at 1 3. rewrite processRecord_ext.
  destruct (processRecord _ writer ts apmData h) as [[[e |] | v |] h1]; try reflexivity.
  unfold bind. destruct (ctx_Err w h1) as [[[e |] | v |] h2]; try reflexivity.
  apply IH.
Qed.

Lemma run_placeIDs_ext h :
  run w (with_placeIDs ic S') h = run w (with_placeIDs ic S) h.
Proof.
  unfold run, bind at 1 6.
  destruct (ext_call _ (w_newRequest w) h) as [[[e |] | v |] h1]; try reflexivity.
  unfold bind at 1 5.
  destruct (ext_call EvDo (w_do w) h1) as [[[e | resp] | v |] h2]; try reflexivity.
  unfold defer, bind at 1 4.
  destruct (time_Now w h2) as [[ts | v |] h3]; try reflexivity.
  destruct (negb (StatusCode resp =? http_StatusOK)%Z); [reflexivity |].
  unfold bind at 1 3.
  destruct (ext_call EvDecode _ h3) as [[[e | apmsData] | v |] h4]; try reflexivity.
  unfold bind.
  change (GetWriter w (with_placeIDs ic S') h4) with (GetWriter w (with_placeIDs ic S) h4).
  destruct (GetWriter w (with_placeIDs ic S) h4) as [[writer | v |] h5]; try reflexivity.
  rewrite processRecords_ext. reflexivity.
Qed.

End FilterInRun.

(** ** Parsing the place IDs *)

Lemma strings_Split_cons (s : string) (sep : ascii) :
  exists piece pieces, strings_Split s sep = piece :: pieces.
Proof.
  induction s as [| c rest (piece & pieces & IH)]; cbn [strings_Split].
  - eauto.
  - destruct (Ascii.eqb c sep); [eauto |]. rewrite IH. eauto.
Qed.

Lemma strings_Split_length (s : string) (sep : ascii) :
  (1 <= length (strings_Split s sep))%nat.
Proof.
  destruct (strings_Split_cons s sep) as (piece & pieces & ->). cbn [length]. lia.
Qed.

Lemma strings_Split_blank_head (s : string) :
  blank s = true ->
  exists piece pieces,
    strings_Split s ","%char = piece :: pieces
    /\ strconv_ParseUint piece = inl ErrSyntax.
Proof.
  destruct s as [| c rest]; intros Hblank.
  - exists EmptyString, []. split; reflexivity.
  - cbn [blank] in Hblank. apply andb_prop in Hblank as [Hc _].
    destruct (strings_Split_cons rest ","%char) as (piece & pieces & Hrest).
    exists (String c piece), pieces.
    cbn [strings_Split]. rewrite Hrest.
    destruct c as [[] [] [] [] [] [] [] []]; try discriminate Hc; split; reflexivity.
Qed.

(** The loop over the pieces leaves no event; it panics on the first piece
    that is not an unsigned decimal number. *)
Lemma parsePlaceIDs_head_invalid (v : string) (rest : list string) (e : NumError)
    (h : list event) :
  strconv_ParseUint v = inl e ->
  parsePlaceIDs (v :: rest) h = (Panic (PanicStr "invalid place id"), h).
Proof. intros Hv. cbn [parsePlaceIDs]. rewrite Hv. reflexivity. Qed.

Lemma parsePlaceIDs_valid (strs : list string) (ids : list Z) (h : list event) :
  Forall2 (fun v id => strconv_ParseUint v = inr id) strs ids ->
  parsePlaceIDs strs h = (Val ids, h).
Proof.
  intros Hall. revert h.
  induction Hall as [| v id strs ids Hv _ IH]; intros h; [reflexivity |].
  cbn [parsePlaceIDs]. rewrite Hv. unfold bind. rewrite IH. reflexivity.
Qed.

Lemma parsePlaceIDs_pure (strs : list string) (h : list event) :
  exists r, parsePlaceIDs strs h = (r, h) /\ r <> Blocked.
Proof.
  revert h. induction strs as [| v rest IH]; intros h.
  - exists (Val []). split; [reflexivity | discriminate].
  - cbn [parsePlaceIDs]. destruct (strconv_ParseUint v) as [e | id].
    + eexists. split; [reflexivity | discriminate].
    + unfold bind. destruct (IH h) as (r & -> & Hr).
      destruct r; [| | congruence]; eexists; (split; [reflexivity | discriminate]).
Qed.

(** C10. Whatever string is read from [FOXPOST_PLACE_IDS], splitting it on
    commas gives at least one piece, so the test that guards the
    ["no place ids?"] panic is false; when the string is empty or blank the
    start-up stops with the ["invalid place id"] panic, before anything
    else is read or set up. *)
Theorem place_ids_guard_unreachable (s : string) :
  (1 <= length (strings_Split s ","%char))%nat
  /\ Nat.eqb (length (strings_Split s ","%char)) 0 = false
  /\ (forall (E : Env) (w : World) (h : list event),
        env_StringOrPanic "FOXPOST_PLACE_IDS" = Returns s ->
        blank s = true ->
        loadConfig w h = (Panic (PanicStr "invalid place id"), h)).
Proof.
  pose proof (strings_Split_length s ","%char) as Hlen.
  split; [exact Hlen |].
  split; [apply Nat.eqb_neq; lia |].
  intros E w h Hs Hblank.
  destruct (strings_Split_blank_head s Hblank) as (piece & pieces & Hsplit & Hpiece).
  unfold loadConfig, bind at 1, pure_call at 1. rewrite Hs, Hsplit.
  cbn [length Nat.eqb]. unfold bind at 1.
  rewrite (parsePlaceIDs_head_invalid piece pieces ErrSyntax h Hpiece). reflexivity.
Qed.

Lemma place_ids_guard_unreachable_witness :
  @loadConfig (mapEnv {[ "FOXPOST_PLACE_IDS" := "" ]} ∅ ∅)
     (quietWorld (feedOf []) 0) [] = (Panic (PanicStr "invalid place id"), [])
  /\ @loadConfig (mapEnv {[ "FOXPOST_PLACE_IDS" := "  " ]} ∅ ∅)
     (quietWorld (feedOf []) 0) [] = (Panic (PanicStr "invalid place id"), []).
Proof.
  split.
  - apply (proj2 (proj2 (place_ids_guard_unreachable ""))
             (mapEnv {[ "FOXPOST_PLACE_IDS" := "" ]} ∅ ∅)); reflexivity.
  - apply (proj2 (proj2 (place_ids_guard_unreachable "  "))
             (mapEnv {[ "FOXPOST_PLACE_IDS" := "  " ]} ∅ ∅)); reflexivity.
Defined.

Example no_place_ids_split : strings_Split "" ","%char = [""].
Proof. reflexivity. Qed.

(** ** Dry run *)

Section DryRun.

Context {E : Env} (w : World).

Lemma split_guard_false (s : string) :
  Nat.eqb (length (strings_Split s ","%char)) 0 = false.
Proof. pose proof (strings_Split_length s ","%char). apply Nat.eqb_neq. lia. Qed.

Lemma setupInflux_dry h :
  setupInflux w true h = (Val ("", "", None), h ++ [EvLog LogDryRunEnabled]).
Proof. reflexivity. Qed.

Lemma loadConfig_dry_trace h :
  env_Bool "DRY_RUN" false = Returns true ->
  exists r t, loadConfig w h = (r, h ++ t)
    /\ (t = [] \/ t = [EvLog LogDryRunEnabled])
    /\ forall ic, r = Val ic -> dryRun ic = true /\ influxClient ic = None.
Proof.
  intros Hdry. unfold loadConfig, bind at 1, pure_call at 1.
  destruct (env_StringOrPanic "FOXPOST_PLACE_IDS") as [s | v].
  2: { exists (Panic v), []. rewrite app_nil_r. repeat split; auto; discriminate. }
  rewrite split_guard_false. unfold bind at 1.
  destruct (parsePlaceIDs_pure (strings_Split s ","%char) h) as (r & -> & Hr).
  destruct r as [ids | v |]; [| | congruence].
  2: { exists (Panic v), []. rewrite app_nil_r. repeat split; auto; discriminate. }
  unfold bind at 1, pure_call at 1. rewrite Hdry.
  unfold bind at 1. rewrite setupInflux_dry.
  unfold bind at 1, pure_call at 1.
  destruct (env_Duration "INVOCATION_TIMEOUT" time_Minute) as [d | v].
  2: { exists (Panic v), [EvLog LogDryRunEnabled]. repeat split; auto; discriminate. }
  unfold bind, pure_call.
  destruct (env_String "INFLUX_MEASUREMENT" "foxpost") as [m | v].
  2: { exists (Panic v), [EvLog LogDryRunEnabled]. repeat split; auto; discriminate. }
  eexists _, [EvLog LogDryRunEnabled]. split; [reflexivity |].
  split; [auto |]. intros ic [= <-]. split; reflexivity.
Qed.

Lemma loadConfig_dry_succeeds h s ids d m :
  env_Bool "DRY_RUN" false = Returns true ->
  env_StringOrPanic "FOXPOST_PLACE_IDS" = Returns s ->
  Forall2 (fun v id => strconv_ParseUint v = inr id) (strings_Split s ","%char) ids ->
  env_Duration "INVOCATION_TIMEOUT" time_Minute = Returns d ->
  env_String "INFLUX_MEASUREMENT" "foxpost" = Returns m ->
  loadConfig w h =
    (Val (mkInstanceConfig d ids None "" "" m true), h ++ [EvLog LogDryRunEnabled]).
Proof.
  intros Hdry Hs Hids Hd Hm.
  unfold loadConfig, bind at 1, pure_call at 1. rewrite Hs, split_guard_false.
  unfold bind at 1. rewrite (parsePlaceIDs_valid _ ids h Hids).
  unfold bind at 1, pure_call at 1. rewrite Hdry.
  unfold bind at 1. rewrite setupInflux_dry.
  unfold bind, pure_call. rewrite Hd, Hm. reflexivity.
Qed.

Lemma processRecords_dry ic ts apmsData :
  forall h, exists r t,
    processRecords w ic dry_writer ts apmsData h = (r, h ++ t)
    /\ r <> Blocked /\ backend_calls t = [].
Proof.
  induction apmsData as [| apmData rest IH]; intros h.
  - exists (Val None), []. rewrite app_nil_r. repeat split. discriminate.
  - cbn [processRecords]. unfold bind at 1, processRecord.
    assert (Hgo : forall t0, backend_calls t0 = [] ->
              exists r t, (cerr <- ctx_Err w;;
                           match cerr with
                           | Some e => ret (Some e)
                           | None => processRecords w ic dry_writer ts rest
                           end) (h ++ t0) = (r, h ++ t)
                          /\ r <> Blocked /\ backend_calls t = []).
    { intros t0 Ht0. unfold bind, ctx_Err.
      destruct (w_ctxErr w (h ++ t0)) as [e |].
      - exists (Val (Some e)), (t0 ++ [EvCtxErr]). rewrite app_assoc.
        split; [reflexivity |]. split; [discriminate |]. unfold backend_calls in *.
        rewrite List.filter_app, Ht0. reflexivity.
      - destruct (IH ((h ++ t0) ++ [EvCtxErr])) as (r & t & -> & Hr & Ht).
        exists r, (t0 ++ [EvCtxErr] ++ t). rewrite <- !app_assoc.
        split; [reflexivity |]. split; [exact Hr |]. unfold backend_calls in *.
        rewrite !List.filter_app, Ht0, Ht. reflexivity. }
    destruct (slices_Contains (placeIDs ic) (PlaceID apmData)).
    + unfold bind at 1, log_Println, emit.
      destruct (loadMap !! Load apmData) as [loadVal |].
      * unfold dry_writer at 1, bind at 1, log_Println, emit, ret at 1.
        rewrite <- app_assoc. apply Hgo. reflexivity.
      * unfold ret at 1. eexists _, [_]. repeat split. discriminate.
    + unfold ret at 1. specialize (Hgo [] eq_refl). rewrite app_nil_r in Hgo. exact Hgo.
Qed.

Lemma run_dry ic h :
  dryRun ic = true ->
  exists r t, run w ic h = (r, h ++ t) /\ backend_calls t = [].
Proof.
  intros Hdry. unfold run, bind at 1, ext_call at 1.
  destruct (w_newRequest w h) as [[e |] | v];
    [eexists _, [_]; split; reflexivity | | eexists _, [_]; split; reflexivity].
  unfold bind at 1, ext_call at 1.
  destruct (w_do w _) as [[e | resp] | v];
    [eexists _, [_; _]; rewrite <- app_assoc; split; reflexivity |
     | eexists _, [_; _]; rewrite <- app_assoc; split; reflexivity].
  unfold defer, bind at 1, time_Now.
  destruct (negb (StatusCode resp =? http_StatusOK)%Z).
  { eexists _, [_; _; _; _]. unfold ret. rewrite <- !app_assoc. split; reflexivity. }
  unfold bind at 1, ext_call at 1.
  destruct (Body resp) as [[e | apmsData] | v];
    [eexists _, [_; _; _; _; _]; unfold ret; rewrite <- !app_assoc; split; reflexivity |
     | eexists _, [_; _; _; _; _]; rewrite <- !app_assoc; split; reflexivity].
  unfold bind at 1. rewrite (GetWriter_dry w ic _ Hdry).
  match goal with |- context [processRecords w ic dry_writer ?ts apmsData ?h0] =>
    destruct (processRecords_dry ic ts apmsData h0) as (r & t & -> & Hr & Ht)
  end.
  exists r, ([theRequest; EvDo; EvNow (w_now w ((h ++ [theRequest]) ++ [EvDo])); EvDecode]
             ++ t ++ [EvBodyClose]).
  split.
  - destruct r; [| | congruence]; rewrite <- ?app_assoc; cbn [app];
      rewrite <- ?app_assoc; reflexivity.
  - unfold backend_calls in *. rewrite !List.filter_app, Ht. reflexivity.
Qed.

End DryRun.

(** C8. With the dry-run flag read as set, the start-up makes no call to
    the backend (no client is built, no health check is made) and reads
    none of the backend settings, so it succeeds without them; the
    configuration it returns has no client.  For such a configuration the
    writer only logs the point it is given and returns no error, and a
    whole cycle makes no call to the backend. *)
Theorem dry_run_no_backend (E : Env) (w : World) :
  env_Bool "DRY_RUN" false = Returns true ->
  (forall h, exists r t,
      loadConfig w h = (r, h ++ t)
      /\ backend_calls t = []
      /\ forall ic, r = Val ic -> dryRun ic = true /\ influxClient ic = None)
  /\ (forall h s ids d m,
        env_StringOrPanic "FOXPOST_PLACE_IDS" = Returns s ->
        Forall2 (fun v id => strconv_ParseUint v = inr id) (strings_Split s ","%char) ids ->
        env_Duration "INVOCATION_TIMEOUT" time_Minute = Returns d ->
        env_String "INFLUX_MEASUREMENT" "foxpost" = Returns m ->
        loadConfig w h =
          (Val (mkInstanceConfig d ids None "" "" m true), h ++ [EvLog LogDryRunEnabled]))
  /\ (forall ic, dryRun ic = true ->
        exists writer,
          (forall h, GetWriter w ic h = (Val writer, h))
          /\ (forall p h, writer p h = (Val None, h ++ [EvLog (LogDryRunPoint p)]))
          /\ (forall h, exists r t, run w ic h = (r, h ++ t) /\ backend_calls t = [])).
Proof.
  intros Hdry. split; [| split].
  - intros h. destruct (loadConfig_dry_trace w h Hdry) as (r & t & Heq & Ht & Hic).
    exists r, t. repeat split; try apply Hic; auto.
    destruct Ht as [-> | ->]; reflexivity.
  - intros h s ids d m Hs Hids Hd Hm. apply (loadConfig_dry_succeeds w h s); assumption.
  - intros ic Hic. exists dry_writer. split; [| split].
    + intros h. apply GetWriter_dry, Hic.
    + reflexivity.
    + intros h. apply run_dry, Hic.
Qed.

(** The start-up and a cycle with only the place IDs and the flag set. *)
Lemma dry_run_no_backend_witness :
  let E := mapEnv {[ "FOXPOST_PLACE_IDS" := "1,2" ]} {[ "DRY_RUN" := true ]} ∅ in
  let w := quietWorld (feedOf [apmX; apmY]) 0 in
  @loadConfig E w [] =
    (Val (mkInstanceConfig time_Minute [1; 2] None "" "" "foxpost" true),
     [EvLog LogDryRunEnabled])
  /\ exists r t, run w (dryConfig [1; 2]) [] = (r, [] ++ t) /\ backend_calls t = [].
Proof.
  intros E w.
  destruct (dry_run_no_backend E w eq_refl) as (_ & Hstart & Hcycle).
  split.
  - apply (Hstart [] "1,2" [1; 2] time_Minute "foxpost"); try reflexivity.
    repeat constructor.
  - destruct (Hcycle (dryConfig [1; 2]) eq_refl) as (writer & _ & _ & Hrun).
    apply Hrun.
Defined.

Example dry_run_cycle :
  let out := run (quietWorld (feedOf [apmX; apmY]) 0) (dryConfig [1; 2]) [] in
  fst out = Val None
  /\ backend_calls (snd out) = []
  /\ emitted (snd out) = [mkPoint (dryConfig [1; 2]) apmX 100 2;
                          mkPoint (dryConfig [1; 2]) apmY 10 2].
Proof. vm_compute. auto. Qed.

(** ** The scheduler *)

Lemma count_cycles_app h1 h2 : count_cycles (h1 ++ h2) = (count_cycles h1 + count_cycles h2)%nat.
Proof. unfold count_cycles. rewrite List.filter_app. apply length_app. Qed.

Lemma run_events_no_cycle t :
  Forall (fun e => run_event e = true) t -> count_cycles t = 0%nat.
Proof.
  induction 1 as [| e t He _ IH]; [reflexivity |].
  change (e :: t) with ([e] ++ t). rewrite count_cycles_app, IH.
  destruct e as [[]| | | | | | | | | | | | | |]; try discriminate He; reflexivity.
Qed.

Lemma startup_events_no_cycle t :
  Forall (fun e => startup_event e = true) t -> count_cycles t = 0%nat.
Proof.
  induction 1 as [| e t He _ IH]; [reflexivity |].
  change (e :: t) with ([e] ++ t). rewrite count_cycles_app, IH.
  destruct e as [[]| | | | | | | | | | | | | |]; try discriminate He; reflexivity.
Qed.

Lemma one_cycle_count ic c : one_cycle ic c -> count_cycles c = 1%nat.
Proof.
  intros (t & l & -> & Ht & Hl).
  rewrite !count_cycles_app, (run_events_no_cycle t Ht).
  destruct Hl as [-> | [(e & ->) | (v & ->)]]; reflexivity.
Qed.

Lemma tick_blocks_count ic n tl : tick_blocks ic n tl -> count_cycles tl = n.
Proof.
  induction 1 as [| n c rest Hc _ IH]; [reflexivity |].
  rewrite !count_cycles_app, (one_cycle_count ic c Hc), IH. reflexivity.
Qed.

Section Scheduler.

Context {E : Env} (w : World).

Lemma invoke_trace ic h :
  exists r t,
    run w ic (h ++ [EvWithTimeout (timeout ic)]) = (r, (h ++ [EvWithTimeout (timeout ic)]) ++ t)
    /\ invoke w ic h = (r, h ++ [EvWithTimeout (timeout ic)] ++ t ++ [EvCancel])
    /\ r <> Blocked
    /\ Forall (fun e => run_event e = true) t.
Proof.
  destruct (run_trace w ic (h ++ [EvWithTimeout (timeout ic)])) as (r & t & Heq & Hr & Ht).
  exists r, t. split; [exact Heq |]. split; [| auto].
  unfold invoke, bind, emit, defer. rewrite Heq.
  destruct r; [| | congruence]; rewrite <- !app_assoc; reflexivity.
Qed.

(** [safeInvoke] always returns: an error of the cycle and a panic inside
    it both end as one line of the log. *)
Lemma safeInvoke_trace ic h :
  exists r t,
    invoke w ic h = (r, h ++ [EvWithTimeout (timeout ic)] ++ t ++ [EvCancel])
    /\ Forall (fun e => run_event e = true) t
    /\ safeInvoke w ic h =
         (Val tt,
          h ++ [EvWithTimeout (timeout ic)] ++ t ++ [EvCancel] ++
            match r with
            | Val (Some e) => [EvLog (LogCollectionError e)]
            | Panic v => [EvLog (LogPanicRecovered v)]
            | _ => []
            end).
Proof.
  destruct (invoke_trace ic h) as (r & t & _ & Hinv & Hr & Ht).
  exists r, t. split; [exact Hinv |]. split; [exact Ht |].
  unfold safeInvoke, defer_recover, bind. rewrite Hinv.
  destruct r as [[e |] | v |]; [| | | congruence];
    unfold log_Println, emit, ret; rewrite <- ?app_assoc; cbn [app];
    rewrite <- ?app_assoc; cbn [app]; rewrite ?app_nil_r; reflexivity.
Qed.

Lemma safeInvoke_one_cycle ic h :
  exists c, safeInvoke w ic h = (Val tt, h ++ c) /\ one_cycle ic c.
Proof.
  destruct (safeInvoke_trace ic h) as (r & t & _ & Ht & Heq).
  eexists. split; [exact Heq |].
  exists t. eexists. split; [reflexivity |]. split; [exact Ht |].
  destruct r as [[e |] | v |]; eauto.
Qed.

Lemma tickerLoop_trace ic n :
  forall h, exists tl, tickerLoop w ic n h = (Blocked, h ++ tl) /\ tick_blocks ic n tl.
Proof.
  induction n as [| n IH]; intros h.
  - exists []. rewrite app_nil_r. split; [reflexivity | constructor].
  - cbn [tickerLoop]. unfold bind at 1, emit at 1.
    unfold bind at 1, log_Println at 1, emit at 1. unfold bind at 1.
    destruct (safeInvoke_one_cycle ic ((h ++ [EvTick]) ++ [EvLog LogTick]))
      as (c & -> & Hc).
    destruct (IH (((h ++ [EvTick]) ++ [EvLog LogTick]) ++ c)) as (tl & -> & Htl).
    exists ([EvTick; EvLog LogTick] ++ c ++ tl).
    split; [rewrite <- !app_assoc; reflexivity | constructor; assumption].
Qed.

End Scheduler.

Section Startup.

Context {E : Env} (w : World).

Ltac close_startup :=
  rewrite <- ?app_assoc; cbn [app];
  first
    [ eexists _, []; rewrite app_nil_r; split; [reflexivity |];
      split; [discriminate | constructor]
    | eexists _, _; split; [reflexivity |];
      split; [discriminate | repeat constructor] ].

Lemma setupInflux_trace dry h :
  exists r t, setupInflux w dry h = (r, h ++ t)
    /\ r <> Blocked /\ Forall (fun e => startup_event e = true) t.
Proof.
  unfold setupInflux. destruct dry; cbn [negb].
  { unfold bind, log_Println, emit, ret. close_startup. }
  unfold bind at 1, log_Println at 1, emit at 1.
  unfold bind at 1, pure_call at 1.
  destruct (env_StringOrPanic "INFLUX_SERVER_ORG") as [org | v]; [| close_startup].
  unfold bind at 1, pure_call at 1.
  destruct (env_StringOrPanic "INFLUX_SERVER_BUCKET") as [bucket | v]; [| close_startup].
  unfold bind at 1, pure_call at 1.
  destruct (env_Exists extraCAEnvvarName) as [[|] | v]; [| | close_startup].
  - unfold bind at 1. unfold bind at 1, log_Println at 1, emit at 1.
    unfold bind at 1, pure_call at 1.
    destruct (env_StringOrPanic extraCAEnvvarName) as [pem | v]; [| close_startup].
    unfold ret at 1.
    unfold bind at 1, pure_call at 1.
    destruct (env_StringOrPanic "INFLUX_SERVER_URL") as [url | v]; [| close_startup].
    unfold bind at 1, pure_call at 1.
    destruct (env_StringOrPanic "INFLUX_SERVER_TOKEN") as [token | v]; [| close_startup].
    unfold bind at 1, emit at 1. unfold bind at 1, ext_call at 1.
    destruct (w_health w _) as [[e | status] | v]; [| | close_startup].
    + unfold panic. close_startup.
    + unfold bind, log_Println, emit, ret. close_startup.
  - unfold bind at 1, ret at 1.
    unfold bind at 1, pure_call at 1.
    destruct (env_StringOrPanic "INFLUX_SERVER_URL") as [url | v]; [| close_startup].
    unfold bind at 1, pure_call at 1.
    destruct (env_StringOrPanic "INFLUX_SERVER_TOKEN") as [token | v]; [| close_startup].
    unfold bind at 1, emit at 1. unfold bind at 1, ext_call at 1.
    destruct (w_health w _) as [[e | status] | v]; [| | close_startup].
    + unfold panic. close_startup.
    + unfold bind, log_Println, emit, ret. close_startup.
Qed.

Lemma loadConfig_trace h :
  exists r t, loadConfig w h = (r, h ++ t)
    /\ r <> Blocked /\ Forall (fun e => startup_event e = true) t.
Proof.
  unfold loadConfig, bind at 1, pure_call at 1.
  destruct (env_StringOrPanic "FOXPOST_PLACE_IDS") as [s | v]; [| close_startup].
  rewrite split_guard_false. unfold bind at 1.
  destruct (parsePlaceIDs_pure (strings_Split s ","%char) h) as (r & -> & Hr).
  destruct r as [ids | v |]; [| close_startup | congruence].
  unfold bind at 1, pure_call at 1.
  destruct (env_Bool "DRY_RUN" false) as [dry | v]; [| close_startup].
  unfold bind at 1.
  destruct (setupInflux_trace dry h) as (r & t & -> & Hr' & Ht).
  destruct r as [[[org bucket] client] | v |]; [| | congruence].
  2: { exists (Panic v), t. repeat split; [discriminate | exact Ht]. }
  unfold bind at 1, pure_call at 1.
  destruct (env_Duration "INVOCATION_TIMEOUT" time_Minute) as [d | v].
  2: { exists (Panic v), t. repeat split; [discriminate | exact Ht]. }
  unfold bind, pure_call.
  destruct (env_String "INFLUX_MEASUREMENT" "foxpost") as [m | v].
  2: { exists (Panic v), t. repeat split; [discriminate | exact Ht]. }
  eexists _, t. repeat split; [discriminate | exact Ht].
Qed.

End Startup.

Section SchedulerRuns.

Context {E : Env} (w : World).

(** [safeInvoke] executes the cycle and logs what came of it. *)
Lemma safeInvoke_ran_cycle ic h :
  exists c, safeInvoke w ic h = (Val tt, h ++ c) /\ ran_cycle w ic h c.
Proof.
  destruct (invoke_trace w ic h) as (r & t & Hrun & Hinv & Hr & _).
  exists ([EvWithTimeout (timeout ic)] ++ t ++ [EvCancel] ++ outcome_log r).
  split; [| exists r, t; split; [exact Hrun | reflexivity]].
  unfold safeInvoke, defer_recover, bind. rewrite Hinv.
  destruct r as [[e |] | v |]; [| | | congruence];
    unfold log_Println, emit, ret, outcome_log; rewrite <- ?app_assoc; cbn [app];
    rewrite <- ?app_assoc; cbn [app]; rewrite ?app_nil_r; reflexivity.
Qed.

Lemma ran_cycle_one_cycle ic h c : ran_cycle w ic h c -> one_cycle ic c.
Proof.
  intros (r & t & Hrun & ->).
  destruct (run_trace w ic (h ++ [EvWithTimeout (timeout ic)])) as (r' & t' & Heq & _ & Ht').
  rewrite Hrun in Heq. injection Heq as <- Heq. apply app_inv_head in Heq. subst t'.
  exists t, (outcome_log r). split; [reflexivity |]. split; [exact Ht' |].
  destruct r as [[e |] | v |]; cbn [outcome_log]; eauto.
Qed.

Lemma tickerLoop_runs ic n :
  forall h, exists tl, tickerLoop w ic n h = (Blocked, h ++ tl) /\ tick_runs w ic h n tl.
Proof.
  induction n as [| n IH]; intros h.
  - exists []. rewrite app_nil_r. split; [reflexivity | constructor].
  - cbn [tickerLoop]. unfold bind at 1, emit at 1.
    unfold bind at 1, log_Println at 1, emit at 1. unfold bind at 1.
    destruct (safeInvoke_ran_cycle ic ((h ++ [EvTick]) ++ [EvLog LogTick]))
      as (c & -> & Hc).
    destruct (IH (((h ++ [EvTick]) ++ [EvLog LogTick]) ++ c)) as (tl & -> & Htl).
    exists ([EvTick; EvLog LogTick] ++ c ++ tl).
    split; [rewrite <- !app_assoc; reflexivity |].
    replace ((h ++ [EvTick]) ++ [EvLog LogTick]) with (h ++ [EvTick; EvLog LogTick])
      in Hc, Htl by (rewrite <- app_assoc; reflexivity).
    rewrite <- app_assoc in Htl.
    constructor; assumption.
Qed.

Lemma tick_runs_count ic h n tl : tick_runs w ic h n tl -> count_cycles tl = n.
Proof.
  induction 1 as [| h n c rest Hc _ IH]; [reflexivity |].
  rewrite !count_cycles_app, (one_cycle_count ic c (ran_cycle_one_cycle ic _ c Hc)), IH.
  reflexivity.
Qed.

End SchedulerRuns.

Lemma loadConfig_no_cycle {E : Env} (w : World) (ic : InstanceConfig) (h h1 : list event) :
  loadConfig w h = (Val ic, h1) -> count_cycles h1 = count_cycles h.
Proof.
  intros Hcfg. destruct (loadConfig_trace w h) as (r & t & Heq & _ & Ht).
  rewrite Hcfg in Heq. injection Heq as _ ->.
  rewrite count_cycles_app, (startup_events_no_cycle t Ht). lia.
Qed.

(** C7. In one-shot mode, once the configuration is loaded, [main] runs the
    cycle once, under one context that is cancelled afterwards.  When the
    cycle returns an error [main] panics with that error and the process
    ends abnormally; a panic inside the cycle ends it the same way; when
    the cycle succeeds [main] returns. *)
Theorem one_shot_runs_once (E : Env) (w : World) (ic : InstanceConfig) (h1 : list event) :
  loadConfig w [EvLog LogParsingConfig] = (Val ic, h1) ->
  env_Bool "ONESHOT" false = Returns true ->
  let h2 := h1 ++ [EvLog LogOneShot; EvWithTimeout (timeout ic)] in
  exists r t,
    run w ic h2 = (r, h2 ++ t)
    /\ main w [] =
         (match r with
          | Val None => Val tt
          | Val (Some e) => Panic (PanicErr e)
          | Panic v => Panic v
          | Blocked => Blocked
          end,
          h2 ++ t ++ [EvCancel])
    /\ r <> Blocked
    /\ count_cycles (h2 ++ t ++ [EvCancel]) = 1%nat.
Proof.
  intros Hcfg Hone h2.
  destruct (invoke_trace w ic (h1 ++ [EvLog LogOneShot])) as (r & t & Hrun & Hinv & Hr & Ht).
  rewrite <- app_assoc in Hrun. cbn [app] in Hrun. fold h2 in Hrun.
  exists r, t. split; [exact Hrun |].
  split; [| split; [exact Hr |]].
  - unfold main, bind at 1, log_Println at 1, emit at 1. cbn [app].
    unfold bind at 1. rewrite Hcfg.
    unfold bind at 1, pure_call at 1. rewrite Hone.
    unfold bind at 1, log_Println at 1, emit at 1.
    unfold bind. rewrite Hinv. unfold h2.
    destruct r as [[e |] | v |]; rewrite <- !app_assoc; reflexivity.
  - unfold h2. rewrite !count_cycles_app.
    rewrite (loadConfig_no_cycle w ic _ _ Hcfg), (run_events_no_cycle t Ht). reflexivity.
Qed.

(** One-shot against a feed answered with status 500: the process ends
    with the panic carrying the status error. *)
Lemma one_shot_runs_once_witness :
  let E := mapEnv {[ "FOXPOST_PLACE_IDS" := "1" ]} {[ "DRY_RUN" := true; "ONESHOT" := true ]} ∅ in
  let w := quietWorld (mkResponse 500 (Returns (inr []))) 3 in
  fst (@main E w []) = Panic (PanicErr (Errorf_unexpected_HTTP_status 500))
  /\ count_cycles (snd (@main E w [])) = 1%nat.
Proof.
  intros E w.
  destruct (one_shot_runs_once E w (dryConfig [1])
              [EvLog LogParsingConfig; EvLog LogDryRunEnabled] eq_refl eq_refl)
    as (r & t & Hrun & Hmain & _ & Hcount).
  rewrite Hmain. cbn [fst snd]. split; [| exact Hcount].
  vm_compute in Hrun. injection Hrun as <- _. reflexivity.
Defined.

Example one_shot_success :
  let E := mapEnv {[ "FOXPOST_PLACE_IDS" := "1" ]} {[ "DRY_RUN" := true; "ONESHOT" := true ]} ∅ in
  fst (@main E (quietWorld (feedOf [apmX; apmY]) 3) []) = Val tt.
Proof. vm_compute. reflexivity. Qed.

(** C5. In daemon mode, once the configuration is loaded and the poll
    interval read, [main] executes the collection cycle [run] once at once,
    then creates the ticker (its interval being positive) and executes
    [run] once after every tick, each time under a fresh context that is
    cancelled afterwards; it never returns and never panics: after the
    ticks of the observed run it waits for the next one.  After each cycle
    the error [run] returned, or the panic raised inside it, is logged, and
    nothing is logged for a cycle that succeeded.  Every call of
    [safeInvoke] returns, whatever [run] did. *)
Theorem daemon_survives (E : Env) (w : World) (ic : InstanceConfig) (h1 : list event)
    (d : Duration) :
  loadConfig w [EvLog LogParsingConfig] = (Val ic, h1) ->
  env_Bool "ONESHOT" false = Returns false ->
  env_Duration "POLL_INTERVAL" time_Hour = Returns d ->
  (0 < d)%Z ->
  (exists c0 tl,
     main w [] =
       (Blocked,
        h1 ++ [EvLog LogDaemon] ++ c0 ++ [EvLog LogStartingTicker; EvNewTicker d] ++ tl)
     /\ ran_cycle w ic (h1 ++ [EvLog LogDaemon]) c0
     /\ tick_runs w ic
          (h1 ++ [EvLog LogDaemon] ++ c0 ++ [EvLog LogStartingTicker; EvNewTicker d])
          (w_ticks w) tl
     /\ count_cycles
          (h1 ++ [EvLog LogDaemon] ++ c0 ++ [EvLog LogStartingTicker; EvNewTicker d] ++ tl)
        = S (w_ticks w))
  /\ (forall h, exists r t,
        run w ic (h ++ [EvWithTimeout (timeout ic)])
          = (r, (h ++ [EvWithTimeout (timeout ic)]) ++ t)
        /\ r <> Blocked
        /\ invoke w ic h = (r, h ++ [EvWithTimeout (timeout ic)] ++ t ++ [EvCancel])
        /\ safeInvoke w ic h =
             (Val tt,
              h ++ [EvWithTimeout (timeout ic)] ++ t ++ [EvCancel] ++
                match r with
                | Val (Some e) => [EvLog (LogCollectionError e)]
                | Panic v => [EvLog (LogPanicRecovered v)]
                | _ => []
                end)).
Proof.
  intros Hcfg Hone Hpoll Hpos. split.
  - destruct (safeInvoke_ran_cycle w ic (h1 ++ [EvLog LogDaemon])) as (c0 & Hsafe & Hc0).
    destruct (tickerLoop_runs w ic (w_ticks w)
                ((((h1 ++ [EvLog LogDaemon]) ++ c0) ++ [EvLog LogStartingTicker])
                   ++ [EvNewTicker d]))
      as (tl & Hloop & Htl).
    replace ((((h1 ++ [EvLog LogDaemon]) ++ c0) ++ [EvLog LogStartingTicker])
               ++ [EvNewTicker d])
      with (h1 ++ [EvLog LogDaemon] ++ c0 ++ [EvLog LogStartingTicker; EvNewTicker d])
      in Htl by (rewrite <- !app_assoc; reflexivity).
    exists c0, tl. split; [| split; [exact Hc0 | split; [exact Htl |]]].
    + unfold main, bind at 1, log_Println at 1, emit at 1. cbn [app].
      unfold bind at 1. rewrite Hcfg.
      unfold bind at 1, pure_call at 1. rewrite Hone.
      unfold bind at 1, log_Println at 1, emit at 1.
      unfold bind at 1. rewrite Hsafe.
      unfold daemon, bind at 1, log_Println at 1, emit at 1.
      unfold bind at 1, pure_call at 1. rewrite Hpoll.
      unfold bind at 1, time_NewTicker.
      destruct (d <=? 0)%Z eqn:Hd; [apply Z.leb_le in Hd; lia |].
      unfold emit. rewrite Hloop. rewrite <- !app_assoc. reflexivity.
    + rewrite !count_cycles_app.
      rewrite (loadConfig_no_cycle w ic _ _ Hcfg),
        (one_cycle_count ic c0 (ran_cycle_one_cycle w ic _ c0 Hc0)),
        (tick_runs_count w ic _ _ tl Htl).
      reflexivity.
  - intros h. destruct (invoke_trace w ic h) as (r & t & Hrun & Hinv & Hr & _).
    destruct (safeInvoke_trace w ic h) as (r' & t' & Hinv' & _ & Hsafe).
    rewrite Hinv in Hinv'. injection Hinv' as <- Heq.
    apply app_inv_head in Heq. injection Heq as Heq. apply app_inv_tail in Heq. subst t'.
    exists r, t. repeat split; assumption.
Qed.

(** A daemon whose feed is answered with status 500 at every fetch, over
    three ticks: four cycles, four fetches, four logged errors, and the
    process still waiting. *)
Lemma daemon_survives_witness :
  let E := mapEnv {[ "FOXPOST_PLACE_IDS" := "1" ]} {[ "DRY_RUN" := true ]} ∅ in
  let w := quietWorld (mkResponse 500 (Returns (inr []))) 3 in
  fst (@main E w []) = Blocked
  /\ count_cycles (snd (@main E w [])) = 4%nat
  /\ count_events is_fetch (snd (@main E w [])) = 4%nat
  /\ count_events is_error_log (snd (@main E w [])) = 4%nat
  /\ exists c0,
       ran_cycle w (dryConfig [1])
         [EvLog LogParsingConfig; EvLog LogDryRunEnabled; EvLog LogDaemon] c0
       /\ c0 = [EvWithTimeout time_Minute; theRequest; EvDo; EvNow 6; EvBodyClose; EvCancel;
                EvLog (LogCollectionError (Errorf_unexpected_HTTP_status 500))].
Proof.
  intros E w.
  destruct (daemon_survives E w (dryConfig [1])
              [EvLog LogParsingConfig; EvLog LogDryRunEnabled] time_Hour
              eq_refl eq_refl eq_refl eq_refl)
    as ((c0 & tl & Hmain & Hc0 & _ & Hcount) & _).
  split; [rewrite Hmain; reflexivity |].
  split; [rewrite Hmain; exact Hcount |].
  split; [vm_compute; reflexivity |]. split; [vm_compute; reflexivity |].
  exists c0. split; [exact Hc0 |].
  destruct Hc0 as (r & t & Hrun & ->).
  vm_compute in Hrun. injection Hrun as <- <-. reflexivity.
Defined.

Example daemon_logs_panic :
  let w := mkWorld (fun _ => Returns None) (fun _ => Panics (PanicStr "transport fault"))
             (fun _ => 0) (fun _ _ => Returns None) (fun _ => None)
             (fun _ => Returns (inr "pass")) 0 in
  safeInvoke w (dryConfig [1]) [] =
    (Val tt, [EvWithTimeout time_Minute; theRequest; EvDo; EvCancel;
              EvLog (LogPanicRecovered (PanicStr "transport fault"))]).
Proof. reflexivity. Qed.

(** ** The record loop, step by step *)

Section Loop.

Context (w : World).

(** A feed in two parts: the second part is processed from where the first
    one ended, and only if the first one ended without error. *)
Lemma processRecords_app ic writer ts pre post h :
  processRecords w ic writer ts (pre ++ post) h =
    match processRecords w ic writer ts pre h with
    | (Val None, h') => processRecords w ic writer ts post h'
    | other => other
    end.
Proof.
  revert h. induction pre as [| apmData pre IH]; intros h; [reflexivity |].
  cbn [app processRecords]. unfold bind at 1 3.
  destruct (processRecord ic writer ts apmData h) as [[[e |] | v |] h1]; try reflexivity.
  unfold bind. destruct (ctx_Err w h1) as [[[e |] | v |] h2]; try reflexivity.
  apply IH.
Qed.

(** The cycle, once the fetch has given a decoded feed and a writer. *)
Lemma run_loop_eq ic h resp apmsData writer tw :
  w_newRequest w h = Returns None ->
  w_do w (h ++ [theRequest]) = Returns (inr resp) ->
  StatusCode resp = 200 ->
  Body resp = Returns (inr apmsData) ->
  let ts := w_now w (h ++ [theRequest; EvDo]) in
  let h4 := h ++ [theRequest; EvDo; EvNow ts; EvDecode] in
  GetWriter w ic h4 = (Val writer, h4 ++ tw) ->
  run w ic h = defer EvBodyClose (processRecords w ic writer ts apmsData) (h4 ++ tw).
Proof.
  intros Hreq Hdo Hst Hbody ts h4 Hgw.
  unfold run, bind at 1, ext_call at 1. rewrite Hreq.
  unfold bind at 1, ext_call at 1. unfold theRequest in Hdo. rewrite Hdo.
  unfold defer at 1, bind at 1, time_Now. rewrite Hst.
  cbn [Z.eqb http_StatusOK negb Pos.eqb].
  unfold bind at 1, ext_call at 1. rewrite Hbody. unfold bind at 1.
  replace ((((h ++ [EvNewRequest "GET" "https://cdn.foxpost.hu/apms.json"]) ++ [EvDo]) ++
            [EvNow (w_now w ((h ++ [EvNewRequest "GET" "https://cdn.foxpost.hu/apms.json"])
                               ++ [EvDo]))]) ++ [EvDecode])
    with h4 by (unfold h4, ts, theRequest; rewrite <- !app_assoc; reflexivity).
  rewrite Hgw.
  replace (w_now w ((h ++ [EvNewRequest "GET" "https://cdn.foxpost.hu/apms.json"]) ++ [EvDo]))
    with ts by (unfold ts, theRequest; rewrite <- !app_assoc; reflexivity).
  reflexivity.
Qed.

(** A writer is at hand when the configuration is a dry run or has a client. *)
Lemma GetWriter_available ic h :
  dryRun ic = true \/ is_Some (influxClient ic) ->
  exists writer tw,
    GetWriter w ic h = (Val writer, h ++ tw)
    /\ writer_shape w writer /\ emitted tw = []
    /\ count_events is_ctx_check tw = 0%nat.
Proof.
  intros Hav. unfold GetWriter. destruct (dryRun ic).
  - exists dry_writer, []. rewrite app_nil_r. repeat split. left; reflexivity.
  - destruct Hav as [Hd | [c Hc]]; [discriminate |]. rewrite Hc.
    eexists (live_writer w), [_]. repeat split. right; reflexivity.
Qed.

(** A record of interest with an unknown label ends the loop there. *)
Lemma processRecords_unknown_label ic writer ts bad post h :
  of_interest ic bad = true ->
  loadMap !! Load bad = None ->
  processRecords w ic writer ts (bad :: post) h =
    (Val (Some (Errorf_invalid_load_value (Load bad))),
     h ++ [EvLog (LogFoundPlace (PlaceID bad))]).
Proof.
  intros Hint Hnone. cbn [processRecords]. unfold bind at 1, processRecord.
  unfold of_interest in Hint. rewrite Hint, Hnone. reflexivity.
Qed.

End Loop.

Section LoopResults.

Context (w : World).

Lemma emitted_fetch_prefix ts tw t tail :
  emitted tw = [] -> emitted tail = [] ->
  emitted ([theRequest; EvDo; EvNow ts; EvDecode] ++ tw ++ t ++ tail) = emitted t.
Proof.
  intros Htw Htail. rewrite !emitted_app, Htw, Htail. cbn. apply app_nil_r.
Qed.

(** Records that are not of interest only cost a context check each. *)
Lemma processRecords_skip ic writer ts pre h :
  (forall h0, w_ctxErr w h0 = None) ->
  Forall (fun apmData => of_interest ic apmData = false) pre ->
  processRecords w ic writer ts pre h = (Val None, h ++ repeat EvCtxErr (length pre)).
Proof.
  intros Hctx Hpre. revert h.
  induction Hpre as [| apmData pre Hone _ IH]; intros h.
  - cbn. rewrite app_nil_r. reflexivity.
  - cbn [processRecords]. unfold bind at 1, processRecord.
    unfold of_interest in Hone. rewrite Hone. unfold ret at 1.
    unfold bind, ctx_Err. rewrite Hctx, IH, <- app_assoc. reflexivity.
Qed.

Lemma emitted_ctx_checks n : emitted (repeat EvCtxErr n) = [].
Proof. induction n as [| n IH]; [reflexivity | exact IH]. Qed.

End LoopResults.

(** X1. Processing a feed of two parts is processing the first part and
    then, from the history it left, the second: when the first part ends
    with an error or a panic the second part is not touched, and the result
    and the history are those of the first part. *)
Theorem record_loop_composes (w : World) (ic : InstanceConfig)
    (writer : Point -> M (option error)) (ts : Time) (pre post : list APMData)
    (h : list event) :
  (forall h', processRecords w ic writer ts pre h = (Val None, h') ->
     processRecords w ic writer ts (pre ++ post) h = processRecords w ic writer ts post h')
  /\ (forall e h', processRecords w ic writer ts pre h = (Val (Some e), h') ->
        processRecords w ic writer ts (pre ++ post) h = (Val (Some e), h'))
  /\ (forall v h', processRecords w ic writer ts pre h = (Panic v, h') ->
        processRecords w ic writer ts (pre ++ post) h = (Panic v, h')).
Proof.
  repeat split; intros; rewrite processRecords_app; rewrite H; reflexivity.
Qed.

Lemma record_loop_composes_witness :
  processRecords (quietWorld (feedOf []) 0) (dryConfig [1]) dry_writer 7
    ([apmOddX] ++ [apmX]) [] =
  (Val (Some (Errorf_invalid_load_value "half loaded")), [EvLog (LogFoundPlace 1)]).
Proof.
  apply (proj1 (proj2 (record_loop_composes (quietWorld (feedOf []) 0) (dryConfig [1])
                         dry_writer 7 [apmOddX] [apmX] []))).
  reflexivity.
Defined.

(** X2. With the fetch answered, a writer at hand, every write accepted and
    the context alive: when the feed reads [pre], then a record of interest
    with an unknown label, then [post], and the records of interest in [pre]
    all have known labels, the cycle returns the invalid-load error naming
    that label, after having handed the writer the points of the records of
    interest in [pre] and nothing of [post]. *)
Theorem first_unknown_label_stops (w : World) (ic : InstanceConfig) (h : list event)
    (resp : Response) (pre post : list APMData) (bad : APMData) :
  w_newRequest w h = Returns None ->
  w_do w (h ++ [theRequest]) = Returns (inr resp) ->
  StatusCode resp = 200 ->
  Body resp = Returns (inr (pre ++ bad :: post)) ->
  dryRun ic = true \/ is_Some (influxClient ic) ->
  (forall h0 p, w_write w h0 p = Returns None) ->
  (forall h0, w_ctxErr w h0 = None) ->
  Forall (label_known ic) pre ->
  of_interest ic bad = true ->
  loadMap !! Load bad = None ->
  let ts := w_now w (h ++ [theRequest; EvDo]) in
  exists t,
    run w ic h = (Val (Some (Errorf_invalid_load_value (Load bad))), h ++ t)
    /\ Forall2 (fun apmData p => point_of ic ts apmData = Some p)
         (List.filter (of_interest ic) pre) (emitted t).
Proof.
  intros Hreq Hdo Hst Hbody Hav Hwrite Hctx Hpre Hint Hnone ts.
  destruct (GetWriter_available w ic (h ++ [theRequest; EvDo; EvNow ts; EvDecode]) Hav)
    as (writer & tw & Hgw & Hshape & Htw & _).
  rewrite (run_loop_eq w ic h resp _ writer tw Hreq Hdo Hst Hbody Hgw).
  fold ts. unfold defer. rewrite processRecords_app.
  destruct (processRecords_succeeds w ic writer ts pre Hshape Hwrite Hctx Hpre
              ((h ++ [theRequest; EvDo; EvNow ts; EvDecode]) ++ tw)) as (h' & Hloop).
  rewrite Hloop.
  destruct (processRecords_success w ic writer ts pre Hshape _ _ Hloop) as (t1 & -> & Hall).
  rewrite (processRecords_unknown_label w ic writer ts bad post _ Hint Hnone).
  exists ([theRequest; EvDo; EvNow ts; EvDecode] ++ tw ++ t1
          ++ [EvLog (LogFoundPlace (PlaceID bad)); EvBodyClose]).
  split; [rewrite <- !app_assoc; reflexivity |].
  rewrite (emitted_fetch_prefix ts tw t1
             [EvLog (LogFoundPlace (PlaceID bad)); EvBodyClose] Htw eq_refl).
  eapply Forall2_impl; [exact Hall |].
  intros apmData p (v & Hv & ->). unfold point_of. rewrite Hv. reflexivity.
Qed.

Lemma first_unknown_label_stops_witness :
  exists t,
    run (quietWorld (feedOf ([apmX; apmY] ++ apmOddX :: [apmX])) 0) (liveConfig [1]) [] =
      (Val (Some (Errorf_invalid_load_value "half loaded")), [] ++ t)
    /\ Forall2 (fun apmData p => point_of (liveConfig [1]) 2 apmData = Some p)
         [apmX] (emitted t).
Proof.
  apply (first_unknown_label_stops
           (quietWorld (feedOf ([apmX; apmY] ++ apmOddX :: [apmX])) 0) (liveConfig [1]) []
           (feedOf ([apmX; apmY] ++ apmOddX :: [apmX])) [apmX; apmY] [apmX] apmOddX);
    try reflexivity.
  - right. eexists. reflexivity.
  - repeat constructor; intros _; eexists; reflexivity.
Defined.

Section LoopEdges.

Context (w : World).

Lemma writer_accepts writer p h :
  writer_shape w writer ->
  (forall h0 p0, w_write w h0 p0 = Returns None) ->
  exists e0, writer p h = (Val None, h ++ [e0])
    /\ event_point e0 = Some p /\ is_ctx_check e0 = false.
Proof.
  intros [-> | ->] Hwrite.
  - eexists. repeat split.
  - unfold live_writer, ext_call. rewrite Hwrite. eexists. repeat split.
Qed.

Lemma count_events_app kind h1 h2 :
  count_events kind (h1 ++ h2) = (count_events kind h1 + count_events kind h2)%nat.
Proof. unfold count_events. rewrite List.filter_app. apply length_app. Qed.

Lemma loop_events_no_close ts t :
  Forall (loop_event ts) t -> count_events is_body_close t = 0%nat.
Proof.
  induction 1 as [| e t He _ IH]; [reflexivity |].
  change (e :: t) with ([e] ++ t). rewrite count_events_app, IH.
  destruct e as [[]| | | | | | | | | | | | | |]; simpl in He; try tauto; reflexivity.
Qed.

Lemma run_events_no_cancel t :
  Forall (fun e => run_event e = true) t -> count_events is_cancel t = 0%nat.
Proof.
  induction 1 as [| e t He _ IH]; [reflexivity |].
  change (e :: t) with ([e] ++ t). rewrite count_events_app, IH.
  destruct e as [[]| | | | | | | | | | | | | |]; try discriminate He; reflexivity.
Qed.

End LoopEdges.

(** X3. With the backend refusing every write, a live configuration, the
    fetch answered and the context alive: the records before the first
    record of interest cost one context check each, the first record of
    interest (its label known) is written once, and the cycle returns the
    backend's error at once, with no context check after the failed write
    and nothing of the rest of the feed touched. *)
Theorem backend_error_stops_cycle (w : World) (ic : InstanceConfig) (h : list event)
    (resp : Response) (pre post : list APMData) (apmData : APMData)
    (c : InfluxClient) (e : error) (v : Z) :
  w_newRequest w h = Returns None ->
  w_do w (h ++ [theRequest]) = Returns (inr resp) ->
  StatusCode resp = 200 ->
  Body resp = Returns (inr (pre ++ apmData :: post)) ->
  dryRun ic = false ->
  influxClient ic = Some c ->
  (forall h0 p, w_write w h0 p = Returns (Some e)) ->
  (forall h0, w_ctxErr w h0 = None) ->
  Forall (fun skipped => of_interest ic skipped = false) pre ->
  of_interest ic apmData = true ->
  loadMap !! Load apmData = Some v ->
  let ts := w_now w (h ++ [theRequest; EvDo]) in
  run w ic h =
    (Val (Some e),
     h ++ [theRequest; EvDo; EvNow ts; EvDecode;
           EvWriteAPIBlocking (influxOrg ic) (influxBucket ic)]
       ++ repeat EvCtxErr (length pre)
       ++ [EvLog (LogFoundPlace (PlaceID apmData));
           EvWritePoint (mkPoint ic apmData v ts);
           EvBodyClose]).
Proof.
  intros Hreq Hdo Hst Hbody Hdry Hclient Hwrite Hctx Hpre Hint Hv ts.
  pose proof (GetWriter_live w ic c (h ++ [theRequest; EvDo; EvNow ts; EvDecode])
                Hdry Hclient) as Hgw.
  rewrite (run_loop_eq w ic h resp _ _ _ Hreq Hdo Hst Hbody Hgw).
  fold ts. unfold defer. rewrite processRecords_app.
  rewrite (processRecords_skip w ic _ ts pre _ Hctx Hpre).
  cbn [processRecords]. unfold bind at 1, processRecord.
  unfold of_interest in Hint. rewrite Hint, Hv.
  unfold bind at 1, log_Println, emit, live_writer, ext_call. rewrite Hwrite.
  unfold ret. rewrite <- !app_assoc. reflexivity.
Qed.

Lemma backend_error_stops_cycle_witness :
  let w := mkWorld (fun _ => Returns None) (fun _ => Returns (inr (feedOf [apmY; apmX; apmX])))
             (fun _ => 5) (fun _ _ => Returns (Some (LibError "unavailable")))
             (fun _ => None) (fun _ => Returns (inr "pass")) 0 in
  run w (liveConfig [1]) [] =
    (Val (Some (LibError "unavailable")),
     [] ++ [theRequest; EvDo; EvNow 5; EvDecode; EvWriteAPIBlocking "org" "bucket"]
        ++ repeat EvCtxErr 1
        ++ [EvLog (LogFoundPlace 1); EvWritePoint (mkPoint (liveConfig [1]) apmX 100 5);
            EvBodyClose]).
Proof.
  intros w.
  apply (backend_error_stops_cycle w (liveConfig [1]) [] (feedOf [apmY; apmX; apmX])
           [apmY] [apmX] apmX
           (NewClientWithOptions "http://influx:8086" "token" DefaultOptions)
           (LibError "unavailable") 100);
    try reflexivity.
  repeat constructor.
Defined.

(** X4. The context is looked at only after a record has been handled.
    With the context already expired: an empty feed still makes the cycle
    succeed, without any context check; a feed whose first record is not of
    interest makes the cycle return the context's error with nothing handed
    to the writer; and a feed whose first record is of interest is written
    for that one record before the context's error is returned. *)
Theorem expired_context_after_first_record (w : World) (ic : InstanceConfig)
    (h : list event) (resp : Response) (e : error) :
  w_newRequest w h = Returns None ->
  w_do w (h ++ [theRequest]) = Returns (inr resp) ->
  StatusCode resp = 200 ->
  dryRun ic = true \/ is_Some (influxClient ic) ->
  (forall h0, w_ctxErr w h0 = Some e) ->
  let ts := w_now w (h ++ [theRequest; EvDo]) in
  (Body resp = Returns (inr []) ->
     exists t, run w ic h = (Val None, h ++ t)
       /\ emitted t = [] /\ count_events is_ctx_check t = 0%nat)
  /\ (forall apmData rest,
        Body resp = Returns (inr (apmData :: rest)) ->
        of_interest ic apmData = false ->
        exists t, run w ic h = (Val (Some e), h ++ t)
          /\ emitted t = [] /\ count_events is_ctx_check t = 1%nat)
  /\ (forall apmData rest v,
        Body resp = Returns (inr (apmData :: rest)) ->
        of_interest ic apmData = true ->
        loadMap !! Load apmData = Some v ->
        (forall h0 p, w_write w h0 p = Returns None) ->
        exists t, run w ic h = (Val (Some e), h ++ t)
          /\ emitted t = [mkPoint ic apmData v ts]
          /\ count_events is_ctx_check t = 1%nat).
Proof.
  intros Hreq Hdo Hst Hav Hctx ts.
  destruct (GetWriter_available w ic (h ++ [theRequest; EvDo; EvNow ts; EvDecode]) Hav)
    as (writer & tw & Hgw & Hshape & Htw & Htwc).
  split; [| split].
  - intros Hbody.
    rewrite (run_loop_eq w ic h resp _ writer tw Hreq Hdo Hst Hbody Hgw).
    exists ([theRequest; EvDo; EvNow ts; EvDecode] ++ tw ++ [EvBodyClose]).
    split; [unfold defer; cbn [processRecords]; unfold ret;
            rewrite <- !app_assoc; reflexivity |].
    split.
    + rewrite !emitted_app, Htw. reflexivity.
    + rewrite !count_events_app, Htwc. reflexivity.
  - intros apmData rest Hbody Hint.
    rewrite (run_loop_eq w ic h resp _ writer tw Hreq Hdo Hst Hbody Hgw).
    fold ts. unfold defer. cbn [processRecords]. unfold bind at 1, processRecord.
    unfold of_interest in Hint. rewrite Hint. unfold ret at 1.
    unfold bind, ctx_Err. rewrite Hctx. unfold ret.
    exists ([theRequest; EvDo; EvNow ts; EvDecode] ++ tw ++ [EvCtxErr; EvBodyClose]).
    split; [rewrite <- !app_assoc; reflexivity |].
    split.
    + rewrite !emitted_app, Htw. reflexivity.
    + rewrite !count_events_app, Htwc. reflexivity.
  - intros apmData rest v Hbody Hint Hv Hwrite.
    rewrite (run_loop_eq w ic h resp _ writer tw Hreq Hdo Hst Hbody Hgw).
    fold ts. unfold defer. cbn [processRecords]. unfold bind at 1, processRecord.
    unfold of_interest in Hint. rewrite Hint, Hv.
    unfold bind at 1, log_Println, emit.
    destruct (writer_accepts w writer (mkPoint ic apmData v ts)
                (((h ++ [theRequest; EvDo; EvNow ts; EvDecode]) ++ tw)
                   ++ [EvLog (LogFoundPlace (PlaceID apmData))]) Hshape Hwrite)
      as (e0 & -> & He0 & Hc0).
    unfold bind, ctx_Err. rewrite Hctx. unfold ret.
    exists ([theRequest; EvDo; EvNow ts; EvDecode] ++ tw
            ++ [EvLog (LogFoundPlace (PlaceID apmData)); e0; EvCtxErr; EvBodyClose]).
    split; [rewrite <- !app_assoc; reflexivity |].
    split.
    + rewrite !emitted_app, Htw. cbn. unfold emitted. cbn. rewrite He0. reflexivity.
    + rewrite !count_events_app, Htwc. unfold count_events. cbn. rewrite Hc0. reflexivity.
Qed.

Lemma expired_context_after_first_record_witness :
  let w := mkWorld (fun _ => Returns None) (fun _ => Returns (inr (feedOf [apmX; apmX])))
             (fun _ => 5) (fun _ _ => Returns None)
             (fun _ => Some (LibError "context deadline exceeded"))
             (fun _ => Returns (inr "pass")) 0 in
  exists t, run w (liveConfig [1]) [] =
              (Val (Some (LibError "context deadline exceeded")), [] ++ t)
    /\ emitted t = [mkPoint (liveConfig [1]) apmX 100 5]
    /\ count_events is_ctx_check t = 1%nat.
Proof.
  intros w.
  apply (proj2 (proj2 (expired_context_after_first_record w (liveConfig [1]) []
                         (feedOf [apmX; apmX]) (LibError "context deadline exceeded")
                         eq_refl eq_refl eq_refl
                         (or_intror (ex_intro _ _ eq_refl)) (fun _ => eq_refl)))
           apmX [apmX] 100);
    try reflexivity.
Defined.

(** X5. The response body is closed exactly when the client has returned a
    response, and then exactly once, as the last action of the cycle,
    whatever the cycle's outcome (success, error or panic).  When the client
    returns an error or panics there is no body to close: the cycle ends
    right after the call, without reading the clock. *)
Theorem body_closed_exactly_once (w : World) (ic : InstanceConfig) (h : list event) :
  w_newRequest w h = Returns None ->
  (forall resp, w_do w (h ++ [theRequest]) = Returns (inr resp) ->
     exists r t,
       run w ic h =
         (r, h ++ [theRequest; EvDo; EvNow (w_now w (h ++ [theRequest; EvDo]))]
               ++ t ++ [EvBodyClose])
       /\ r <> Blocked
       /\ count_events is_body_close t = 0%nat)
  /\ (forall e, w_do w (h ++ [theRequest]) = Returns (inl e) ->
        run w ic h = (Val (Some e), h ++ [theRequest; EvDo]))
  /\ (forall v, w_do w (h ++ [theRequest]) = Panics v ->
        run w ic h = (Panic v, h ++ [theRequest; EvDo])).
Proof.
  intros Hreq.
  split; [| split].
  2: { intros e Hdo. unfold run, bind at 1, ext_call at 1. rewrite Hreq.
       unfold bind, ext_call. unfold theRequest in *. rewrite Hdo.
       unfold ret. rewrite <- app_assoc. reflexivity. }
  2: { intros v Hdo. unfold run, bind at 1, ext_call at 1. rewrite Hreq.
       unfold bind, ext_call. unfold theRequest in *. rewrite Hdo.
       rewrite <- app_assoc. reflexivity. }
  intros resp Hdo.
  set (ts := w_now w (h ++ [theRequest; EvDo])).
  unfold run, bind at 1, ext_call at 1. rewrite Hreq.
  unfold bind at 1, ext_call at 1. unfold theRequest in *. rewrite Hdo.
  unfold defer, bind at 1, time_Now.
  replace ((h ++ [EvNewRequest "GET" "https://cdn.foxpost.hu/apms.json"]) ++ [EvDo])
    with (h ++ [EvNewRequest "GET" "https://cdn.foxpost.hu/apms.json"; EvDo])
    by (rewrite <- app_assoc; reflexivity).
  fold ts.
  destruct (negb (StatusCode resp =? http_StatusOK)%Z).
  { eexists _, []. unfold ret. rewrite <- !app_assoc.
    repeat split. discriminate. }
  unfold bind at 1, ext_call at 1.
  destruct (Body resp) as [[e | apmsData] | v].
  - eexists _, [EvDecode]. unfold ret. rewrite <- !app_assoc.
    repeat split. discriminate.
  - unfold bind at 1.
    match goal with |- context [GetWriter w ic ?h0] =>
      destruct (GetWriter_cases w ic h0) as [(writer & tw & Hgw & Hshape & Htw) | (v & Hgw)]
    end; rewrite Hgw.
    + match goal with |- context [processRecords w ic writer ts apmsData ?h0] =>
        destruct (processRecords_trace w ic writer ts apmsData Hshape h0)
          as (r & t & Heq & Hr & Ht)
      end.
      rewrite Heq. exists r, ([EvDecode] ++ tw ++ t).
      split; [destruct r; [| | congruence]; rewrite <- !app_assoc; reflexivity |].
      split; [exact Hr |].
      rewrite !count_events_app, (loop_events_no_close ts t Ht).
      destruct Htw as [-> | ->]; reflexivity.
    + eexists _, [EvDecode]. rewrite <- !app_assoc. repeat split. discriminate.
  - eexists _, [EvDecode]. rewrite <- !app_assoc. repeat split. discriminate.
Qed.

Lemma body_closed_exactly_once_witness :
  (exists r t,
     run (quietWorld (feedOf [apmX; apmOddX]) 0) (liveConfig [1]) [] =
       (r, [] ++ [theRequest; EvDo; EvNow 2] ++ t ++ [EvBodyClose])
     /\ r <> Blocked
     /\ count_events is_body_close t = 0%nat)
  /\ run (mkWorld (fun _ => Returns None) (fun _ => Returns (inl (LibError "giving up")))
            (fun _ => 0) (fun _ _ => Returns None) (fun _ => None)
            (fun _ => Returns (inr "pass")) 0) (liveConfig [1]) [] =
       (Val (Some (LibError "giving up")), [theRequest; EvDo]).
Proof.
  split.
  - apply (proj1 (body_closed_exactly_once (quietWorld (feedOf [apmX; apmOddX]) 0)
                    (liveConfig [1]) [] eq_refl) (feedOf [apmX; apmOddX]) eq_refl).
  - apply (proj1 (proj2 (body_closed_exactly_once
                           (mkWorld (fun _ => Returns None)
                              (fun _ => Returns (inl (LibError "giving up")))
                              (fun _ => 0) (fun _ _ => Returns None) (fun _ => None)
                              (fun _ => Returns (inr "pass")) 0)
                           (liveConfig [1]) [] eq_refl)) (LibError "giving up") eq_refl).
Defined.

(** X6. [invoke] returns what the cycle returns.  It makes one context,
    with the configured timeout, before the cycle starts, and cancels it
    once, as its last action, also when the cycle panics; the cycle itself
    neither makes nor cancels a context, and never blocks. *)
Theorem invoke_cancels_context (w : World) (ic : InstanceConfig) (h : list event) :
  exists r t,
    run w ic (h ++ [EvWithTimeout (timeout ic)]) = (r, (h ++ [EvWithTimeout (timeout ic)]) ++ t)
    /\ invoke w ic h = (r, h ++ [EvWithTimeout (timeout ic)] ++ t ++ [EvCancel])
    /\ r <> Blocked
    /\ count_cycles t = 0%nat
    /\ count_events is_cancel t = 0%nat.
Proof.
  destruct (invoke_trace w ic h) as (r & t & Hrun & Hinv & Hr & Ht).
  exists r, t. repeat split; auto.
  - apply run_events_no_cycle, Ht.
  - apply run_events_no_cancel, Ht.
Qed.

Section CycleInversion.

Context (w : World).

(** A cycle either ends before the loop, with an error or a panic and no
    point handed out, or it is the loop over the decoded feed, followed by
    the closing of the body. *)
Lemma run_inv ic h :
  let ts := w_now w (h ++ [theRequest; EvDo]) in
  let h4 := h ++ [theRequest; EvDo; EvNow ts; EvDecode] in
  (exists r t, run w ic h = (r, h ++ t) /\ r <> Val None /\ emitted t = [])
  \/ (exists resp apmsData writer tw r t,
        w_newRequest w h = Returns None
        /\ w_do w (h ++ [theRequest]) = Returns (inr resp)
        /\ StatusCode resp = 200
        /\ Body resp = Returns (inr apmsData)
        /\ writer_shape w writer
        /\ (tw = [] \/ tw = [EvWriteAPIBlocking (influxOrg ic) (influxBucket ic)])
        /\ processRecords w ic writer ts apmsData (h4 ++ tw) = (r, (h4 ++ tw) ++ t)
        /\ r <> Blocked
        /\ run w ic h = (r, h4 ++ tw ++ t ++ [EvBodyClose])).
Proof.
  intros ts h4.
  destruct (w_newRequest w h) as [[e |] | v] eqn:Hreq.
  { left. eexists _, [_]. unfold run, bind, ext_call. rewrite Hreq.
    repeat split. discriminate. }
  2: { left. eexists _, [_]. unfold run, bind, ext_call. rewrite Hreq.
       repeat split. discriminate. }
  destruct (w_do w (h ++ [theRequest])) as [[e | resp] | v] eqn:Hdo.
  { left. eexists _, [_; _]. unfold run, bind at 1, ext_call at 1. rewrite Hreq.
    unfold bind, ext_call. unfold theRequest in Hdo. rewrite Hdo.
    unfold ret. rewrite <- app_assoc. repeat split. discriminate. }
  2: { left. eexists _, [_; _]. unfold run, bind at 1, ext_call at 1. rewrite Hreq.
       unfold bind, ext_call. unfold theRequest in Hdo. rewrite Hdo.
       rewrite <- app_assoc. repeat split. discriminate. }
  destruct (Z.eq_dec (StatusCode resp) 200) as [Hst | Hst].
  2: { left. eexists _, [_; _; _; _].
       unfold run, bind at 1, ext_call at 1. rewrite Hreq.
       unfold bind at 1, ext_call at 1. unfold theRequest in Hdo. rewrite Hdo.
       unfold defer, bind, time_Now. apply Z.eqb_neq in Hst.
       unfold http_StatusOK. rewrite Hst. cbn [negb]. unfold ret.
       rewrite <- !app_assoc. repeat split. discriminate. }
  destruct (Body resp) as [[e | apmsData] | v] eqn:Hbody.
  { left. eexists _, [_; _; _; _; _].
    unfold run, bind at 1, ext_call at 1. rewrite Hreq.
    unfold bind at 1, ext_call at 1. unfold theRequest in Hdo. rewrite Hdo.
    unfold defer, bind, time_Now, ext_call. rewrite Hst, Hbody. cbn.
    rewrite <- !app_assoc. repeat split. discriminate. }
  2: { left. eexists _, [_; _; _; _; _].
       unfold run, bind at 1, ext_call at 1. rewrite Hreq.
       unfold bind at 1, ext_call at 1. unfold theRequest in Hdo. rewrite Hdo.
       unfold defer, bind, time_Now, ext_call. rewrite Hst, Hbody. cbn.
       rewrite <- !app_assoc. repeat split. discriminate. }
  destruct (GetWriter_cases w ic h4) as [(writer & tw & Hgw & Hshape & Htw) | (v & Hgw)].
  - right.
    destruct (processRecords_trace w ic writer ts apmsData Hshape (h4 ++ tw))
      as (r & t & Hloop & Hr & _).
    exists resp, apmsData, writer, tw, r, t. repeat split; auto.
    rewrite (run_loop_eq w ic h resp apmsData writer tw Hreq Hdo Hst Hbody Hgw).
    fold ts h4. unfold defer. rewrite Hloop.
    destruct r; [| | congruence]; rewrite <- !app_assoc; reflexivity.
  - left. eexists _, [_; _; _; _; _].
    unfold run, bind at 1, ext_call at 1. rewrite Hreq.
    unfold bind at 1, ext_call at 1. unfold theRequest in Hdo. rewrite Hdo.
    unfold defer, bind at 1, time_Now. rewrite Hst. cbn [Z.eqb http_StatusOK negb Pos.eqb].
    unfold bind at 1, ext_call at 1. rewrite Hbody. unfold bind.
    unfold h4, ts, theRequest in Hgw. rewrite <- !app_assoc. cbn [app].
    rewrite Hgw. rewrite <- !app_assoc. cbn [app].
    split; [reflexivity |]. split; [discriminate | reflexivity].
Qed.

(** In a loop that succeeds every record costs one context check and every
    record of interest one line of the log. *)
Lemma processRecords_success_counts ic writer ts apmsData :
  writer_shape w writer ->
  forall h t,
    processRecords w ic writer ts apmsData h = (Val None, h ++ t) ->
    count_events is_ctx_check t = length apmsData
    /\ count_events is_found_place t = length (List.filter (of_interest ic) apmsData).
Proof.
  intros Hshape. induction apmsData as [| apmData rest IH]; intros h t.
  - cbn [processRecords]. unfold ret. intros [= Heq].
    rewrite <- (app_nil_r h) in Heq at 1. apply app_inv_head in Heq. subst t. split; reflexivity.
  - cbn [processRecords List.filter]. unfold bind at 1, processRecord.
    fold (of_interest ic apmData).
    destruct (of_interest ic apmData).
    + unfold bind at 1, log_Println, emit.
      destruct (loadMap !! Load apmData) as [v |]; [| discriminate].
      destruct (writer_step w writer (mkPoint ic apmData v ts)
                  (h ++ [EvLog (LogFoundPlace (PlaceID apmData))]) Hshape)
        as (r & e0 & -> & _ & He0).
      destruct r as [[e |] | v' |]; try discriminate.
      unfold bind, ctx_Err.
      destruct (w_ctxErr w _) as [e |]; [discriminate |].
      destruct (processRecords_trace w ic writer ts rest Hshape
                  (((h ++ [EvLog (LogFoundPlace (PlaceID apmData))]) ++ [e0]) ++ [EvCtxErr]))
        as (r' & t' & Hloop & _ & _).
      rewrite Hloop. intros [= -> Heq].
      destruct (IH _ _ Hloop) as [Hc Hf].
      rewrite <- !app_assoc in Heq. apply app_inv_head in Heq. subst t.
      change ([EvLog (LogFoundPlace (PlaceID apmData))] ++ [e0] ++ [EvCtxErr] ++ t')
        with ([EvLog (LogFoundPlace (PlaceID apmData)); e0; EvCtxErr] ++ t').
      rewrite !count_events_app, Hc, Hf.
      destruct He0 as [-> | ->]; split; reflexivity.
    + unfold ret at 1. unfold bind, ctx_Err.
      destruct (w_ctxErr w h) as [e |]; [discriminate |].
      destruct (processRecords_trace w ic writer ts rest Hshape (h ++ [EvCtxErr]))
        as (r' & t' & Hloop & _ & _).
      rewrite Hloop. intros [= -> Heq].
      destruct (IH _ _ Hloop) as [Hc Hf].
      rewrite <- !app_assoc in Heq. apply app_inv_head in Heq. subst t.
      rewrite !count_events_app, Hc, Hf. split; reflexivity.
Qed.

(** Whatever the loop's outcome, each point it hands out was built from a
    record of the feed that is of interest and has a label of the table. *)
Lemma processRecords_points ic writer ts apmsData :
  writer_shape w writer ->
  forall h r t,
    processRecords w ic writer ts apmsData h = (r, h ++ t) ->
    Forall (fun p => exists apmData v,
                       In apmData apmsData /\ of_interest ic apmData = true
                       /\ loadMap !! Load apmData = Some v
                       /\ p = mkPoint ic apmData v ts)
      (emitted t).
Proof.
  intros Hshape. induction apmsData as [| apmData rest IH]; intros h r t.
  - cbn [processRecords]. unfold ret. intros [= _ Heq].
    rewrite <- (app_nil_r h) in Heq at 1. apply app_inv_head in Heq. subst t. constructor.
  - assert (Hweak : forall t',
              Forall (fun p => exists a v, In a rest /\ of_interest ic a = true
                                 /\ loadMap !! Load a = Some v /\ p = mkPoint ic a v ts)
                (emitted t') ->
              Forall (fun p => exists a v, In a (apmData :: rest) /\ of_interest ic a = true
                                 /\ loadMap !! Load a = Some v /\ p = mkPoint ic a v ts)
                (emitted t')).
    { intros t' Ht'. eapply Forall_impl; [exact Ht' |]. intros p (a & v & Hin & Hrest).
      exists a, v. split; [right; exact Hin | exact Hrest]. }
    cbn [processRecords]. unfold bind at 1, processRecord.
    destruct (of_interest ic apmData) eqn:Hint; unfold of_interest in Hint; rewrite Hint.
    + unfold bind at 1, log_Println, emit.
      destruct (loadMap !! Load apmData) as [v |] eqn:Hv.
      2: { unfold ret. intros [= _ Heq]. apply app_inv_head in Heq. subst t. constructor. }
      destruct (writer_step w writer (mkPoint ic apmData v ts)
                  (h ++ [EvLog (LogFoundPlace (PlaceID apmData))]) Hshape)
        as (r0 & e0 & -> & _ & He0).
      assert (Hhere : emitted [EvLog (LogFoundPlace (PlaceID apmData)); e0]
                      = [mkPoint ic apmData v ts])
        by (destruct He0 as [-> | ->]; reflexivity).
      assert (Hp : exists a v0, In a (apmData :: rest) /\ of_interest ic a = true
                     /\ loadMap !! Load a = Some v0
                     /\ mkPoint ic apmData v ts = mkPoint ic a v0 ts)
        by (exists apmData, v; repeat split; [left; reflexivity | exact Hint | exact Hv]).
      destruct r0 as [[e |] | v' |].
      * unfold ret. intros [= _ Heq]. rewrite <- app_assoc in Heq.
        apply app_inv_head in Heq. subst t.
        change (emitted ([EvLog (LogFoundPlace (PlaceID apmData))] ++ [e0]))
          with (emitted [EvLog (LogFoundPlace (PlaceID apmData)); e0]).
        rewrite Hhere. constructor; [exact Hp | constructor].
      * unfold bind, ctx_Err.
        destruct (w_ctxErr w _) as [e |].
        { unfold ret. intros [= _ Heq]. rewrite <- !app_assoc in Heq.
          apply app_inv_head in Heq. subst t.
          change (emitted ([EvLog (LogFoundPlace (PlaceID apmData))] ++ [e0] ++ [EvCtxErr]))
            with (emitted ([EvLog (LogFoundPlace (PlaceID apmData)); e0] ++ [EvCtxErr])).
          rewrite emitted_app, Hhere. constructor; [exact Hp | constructor]. }
        destruct (processRecords_trace w ic writer ts rest Hshape
                    (((h ++ [EvLog (LogFoundPlace (PlaceID apmData))]) ++ [e0]) ++ [EvCtxErr]))
          as (r' & t' & Hloop & _ & _).
        rewrite Hloop. intros [= _ Heq].
        rewrite <- !app_assoc in Heq. apply app_inv_head in Heq. subst t.
        change ([EvLog (LogFoundPlace (PlaceID apmData))] ++ [e0] ++ [EvCtxErr] ++ t')
          with ([EvLog (LogFoundPlace (PlaceID apmData)); e0] ++ [EvCtxErr] ++ t').
        rewrite !emitted_app, Hhere. constructor; [exact Hp |].
        apply Hweak, (IH _ _ _ Hloop).
      * intros [= _ Heq]. rewrite <- app_assoc in Heq.
        apply app_inv_head in Heq. subst t.
        change (emitted ([EvLog (LogFoundPlace (PlaceID apmData))] ++ [e0]))
          with (emitted [EvLog (LogFoundPlace (PlaceID apmData)); e0]).
        rewrite Hhere. constructor; [exact Hp | constructor].
      * intros [= _ Heq]. rewrite <- app_assoc in Heq.
        apply app_inv_head in Heq. subst t.
        change (emitted ([EvLog (LogFoundPlace (PlaceID apmData))] ++ [e0]))
          with (emitted [EvLog (LogFoundPlace (PlaceID apmData)); e0]).
        rewrite Hhere. constructor; [exact Hp | constructor].
    + unfold ret at 1. unfold bind, ctx_Err.
      destruct (w_ctxErr w h) as [e |].
      { unfold ret. intros [= _ Heq]. apply app_inv_head in Heq. subst t. constructor. }
      destruct (processRecords_trace w ic writer ts rest Hshape (h ++ [EvCtxErr]))
        as (r' & t' & Hloop & _ & _).
      rewrite Hloop. intros [= _ Heq].
      rewrite <- !app_assoc in Heq. apply app_inv_head in Heq. subst t.
      rewrite emitted_app. apply Hweak, (IH _ _ _ Hloop).
Qed.

End CycleInversion.

(** ** Labels outside the table, in full *)

Section UnknownLabel.

Context (w : World).

Lemma writer_no_panic writer p h :
  writer_shape w writer ->
  (forall h0 p0 v, w_write w h0 p0 <> Panics v) ->
  exists res e0, writer p h = (Val res, h ++ [e0]).
Proof.
  intros [-> | ->] Hnp.
  - eexists _, _. reflexivity.
  - unfold live_writer, ext_call.
    destruct (w_write w h p) as [res | v] eqn:Hw; [eauto | destruct (Hnp _ _ _ Hw)].
Qed.

Lemma processRecords_no_panic ic writer ts apmsData :
  writer_shape w writer ->
  (forall h0 p0 v, w_write w h0 p0 <> Panics v) ->
  forall h, exists res h', processRecords w ic writer ts apmsData h = (Val res, h').
Proof.
  intros Hshape Hnp. induction apmsData as [| apmData rest IH]; intros h.
  - eexists _, _. reflexivity.
  - cbn [processRecords]. unfold bind at 1, processRecord.
    destruct (slices_Contains (placeIDs ic) (PlaceID apmData)).
    + unfold bind at 1, log_Println, emit.
      destruct (loadMap !! Load apmData) as [v |]; [| eexists _, _; reflexivity].
      destruct (writer_no_panic writer (mkPoint ic apmData v ts)
                  (h ++ [EvLog (LogFoundPlace (PlaceID apmData))]) Hshape Hnp)
        as (res & e0 & ->).
      destruct res as [e |]; [eexists _, _; reflexivity |].
      unfold bind, ctx_Err. destruct (w_ctxErr w _); [eexists _, _; reflexivity | apply IH].
    + unfold ret at 1. unfold bind, ctx_Err.
      destruct (w_ctxErr w _); [eexists _, _; reflexivity | apply IH].
Qed.

Lemma processRecord_skipped ic writer ts apmData h :
  of_interest ic apmData = false ->
  processRecord ic writer ts apmData h = (Val None, h).
Proof. intros Hint. unfold processRecord. unfold of_interest in Hint. rewrite Hint. reflexivity. Qed.

(** The loop over a feed that holds a record of interest with an unknown
    label: it does not succeed, and what it hands out comes from the
    records before that one. *)
Lemma processRecords_with_unknown ic writer ts pre bad post h :
  writer_shape w writer ->
  of_interest ic bad = true ->
  loadMap !! Load bad = None ->
  exists r t,
    processRecords w ic writer ts (pre ++ bad :: post) h = (r, h ++ t)
    /\ r <> Val None /\ r <> Blocked
    /\ Forall (fun p => exists apmData v,
                          In apmData pre /\ of_interest ic apmData = true
                          /\ loadMap !! Load apmData = Some v
                          /\ p = mkPoint ic apmData v ts)
         (emitted t).
Proof.
  intros Hshape Hint Hnone. rewrite processRecords_app.
  destruct (processRecords_trace w ic writer ts pre Hshape h) as (r1 & t1 & Hpre & Hr1 & _).
  pose proof (processRecords_points w ic writer ts pre Hshape h r1 t1 Hpre) as Hpts.
  rewrite Hpre.
  destruct r1 as [[e |] | v |]; [| | | congruence].
  - exists (Val (Some e)), t1. repeat split; [discriminate | discriminate | exact Hpts].
  - rewrite (processRecords_unknown_label w ic writer ts bad post _ Hint Hnone).
    exists (Val (Some (Errorf_invalid_load_value (Load bad)))),
      (t1 ++ [EvLog (LogFoundPlace (PlaceID bad))]).
    rewrite <- app_assoc. repeat split; [discriminate | discriminate |].
    rewrite emitted_app. cbn. rewrite app_nil_r. exact Hpts.
  - exists (Panic v), t1. repeat split; [discriminate | discriminate | exact Hpts].
Qed.

Lemma run_with_unknown ic h resp pre bad post :
  w_newRequest w h = Returns None ->
  w_do w (h ++ [theRequest]) = Returns (inr resp) ->
  Body resp = Returns (inr (pre ++ bad :: post)) ->
  of_interest ic bad = true ->
  loadMap !! Load bad = None ->
  let ts := w_now w (h ++ [theRequest; EvDo]) in
  exists r t,
    run w ic h = (r, h ++ t)
    /\ r <> Val None /\ r <> Blocked
    /\ Forall (fun p => exists apmData v,
                          In apmData pre /\ of_interest ic apmData = true
                          /\ loadMap !! Load apmData = Some v
                          /\ p = mkPoint ic apmData v ts)
         (emitted t)
    /\ (dryRun ic = true \/ is_Some (influxClient ic) ->
        (forall h0 p0 v, w_write w h0 p0 <> Panics v) ->
        exists e, r = Val (Some e)).
Proof.
  intros Hreq Hdo Hbody Hint Hnone ts.
  destruct (Z.eq_dec (StatusCode resp) 200) as [Hst | Hst].
  2: { exists (Val (Some (Errorf_unexpected_HTTP_status (StatusCode resp)))),
         [theRequest; EvDo; EvNow ts; EvBodyClose].
       split.
       - unfold run, bind at 1, ext_call at 1. rewrite Hreq.
         unfold bind at 1, ext_call at 1. unfold theRequest in *. rewrite Hdo.
         unfold defer, bind, time_Now. apply Z.eqb_neq in Hst.
         unfold http_StatusOK. rewrite Hst. cbn [negb]. unfold ret.
         unfold ts. rewrite <- !app_assoc. reflexivity.
       - repeat split; try discriminate; [constructor | eauto]. }
  set (h4 := h ++ [theRequest; EvDo; EvNow ts; EvDecode]).
  destruct (GetWriter_cases w ic h4) as [(writer & tw & Hgw & Hshape & Htw) | (v & Hgw)].
  - destruct (processRecords_with_unknown ic writer ts pre bad post (h4 ++ tw)
                Hshape Hint Hnone) as (r & t & Hloop & Hr1 & Hr2 & Hpts).
    exists r, ([theRequest; EvDo; EvNow ts; EvDecode] ++ tw ++ t ++ [EvBodyClose]).
    split.
    { rewrite (run_loop_eq w ic h resp _ writer tw Hreq Hdo Hst Hbody Hgw).
      fold ts h4. unfold defer. rewrite Hloop.
      destruct r; [| | congruence]; unfold h4; rewrite <- !app_assoc; reflexivity. }
    split; [exact Hr1 |]. split; [exact Hr2 |]. split.
    { rewrite (emitted_fetch_prefix ts tw t [EvBodyClose]);
        [exact Hpts | destruct Htw as [-> | ->]; reflexivity | reflexivity]. }
    intros _ Hnp.
    destruct (processRecords_no_panic ic writer ts (pre ++ bad :: post) Hshape Hnp (h4 ++ tw))
      as (res & h' & Hval).
    rewrite Hloop in Hval. injection Hval as -> _.
    destruct res as [e |]; [eauto | congruence].
  - exists (Panic v), [theRequest; EvDo; EvNow ts; EvDecode; EvBodyClose].
    split.
    { unfold run, bind at 1, ext_call at 1. rewrite Hreq.
      unfold bind at 1, ext_call at 1. unfold theRequest in Hdo. rewrite Hdo.
      unfold defer, bind at 1, time_Now. rewrite Hst.
      cbn [Z.eqb http_StatusOK negb Pos.eqb].
      unfold bind at 1, ext_call at 1. rewrite Hbody. unfold bind.
      unfold h4, ts, theRequest in Hgw. rewrite <- !app_assoc. cbn [app].
      rewrite Hgw. unfold ts, theRequest. rewrite <- !app_assoc. reflexivity. }
    repeat split; try discriminate; [constructor |].
    intros Hav _. exfalso.
    destruct (GetWriter_available w ic h4 Hav) as (writer & tw & Hgw' & _).
    rewrite Hgw in Hgw'. discriminate.
Qed.

End UnknownLabel.

(** C3, amended. With the fetch answered by a feed that holds, at any
    position, a record whose place is configured and whose label is outside
    the table, the cycle fails: it never returns success, and it returns
    an error whenever a writer is at hand and no write panics.  What had
    been handed to the writer before stays handed out: the history is only
    extended, by events of the cycle, the points in it come from records
    before the offending one, and when the earlier writes are accepted and
    the context is alive they are exactly the points of the earlier records
    of interest, followed by the invalid-load error naming the label.  A
    record whose place is not configured is skipped whatever its label, and
    a feed whose records of interest all have known labels makes the cycle
    succeed whatever the labels of the other records. *)
Theorem unknown_label_of_interest_fails (w : World) (ic : InstanceConfig)
    (h : list event) (resp : Response) :
  w_newRequest w h = Returns None ->
  w_do w (h ++ [theRequest]) = Returns (inr resp) ->
  let ts := w_now w (h ++ [theRequest; EvDo]) in
  (forall pre bad post,
     Body resp = Returns (inr (pre ++ bad :: post)) ->
     of_interest ic bad = true ->
     loadMap !! Load bad = None ->
     exists r t,
       run w ic h = (r, h ++ t)
       /\ r <> Val None /\ r <> Blocked
       /\ (dryRun ic = true \/ is_Some (influxClient ic) ->
           (forall h0 p0 v, w_write w h0 p0 <> Panics v) ->
           exists e, r = Val (Some e))
       /\ Forall (fun e => run_event e = true) t
       /\ Forall (fun p => exists apmData v,
                             In apmData pre /\ of_interest ic apmData = true
                             /\ loadMap !! Load apmData = Some v
                             /\ p = mkPoint ic apmData v ts)
            (emitted t))
  /\ (forall pre bad post,
        Body resp = Returns (inr (pre ++ bad :: post)) ->
        StatusCode resp = 200 ->
        of_interest ic bad = true ->
        loadMap !! Load bad = None ->
        dryRun ic = true \/ is_Some (influxClient ic) ->
        (forall h0 p, w_write w h0 p = Returns None) ->
        (forall h0, w_ctxErr w h0 = None) ->
        Forall (label_known ic) pre ->
        exists t,
          run w ic h = (Val (Some (Errorf_invalid_load_value (Load bad))), h ++ t)
          /\ Forall2 (fun apmData p => point_of ic ts apmData = Some p)
               (List.filter (of_interest ic) pre) (emitted t))
  /\ (forall skipped writer h0,
        of_interest ic skipped = false ->
        processRecord ic writer ts skipped h0 = (Val None, h0))
  /\ (forall apmsData,
        Body resp = Returns (inr apmsData) ->
        StatusCode resp = 200 ->
        dryRun ic = true \/ is_Some (influxClient ic) ->
        (forall h0 p, w_write w h0 p = Returns None) ->
        (forall h0, w_ctxErr w h0 = None) ->
        Forall (label_known ic) apmsData ->
        exists t,
          run w ic h = (Val None, h ++ t)
          /\ Forall2 (fun apmData p => point_of ic ts apmData = Some p)
               (List.filter (of_interest ic) apmsData) (emitted t)).
Proof.
  intros Hreq Hdo ts. split; [| split; [| split]].
  - intros pre bad post Hbody Hint Hnone.
    destruct (run_with_unknown w ic h resp pre bad post Hreq Hdo Hbody Hint Hnone)
      as (r & t & Hrun & Hr1 & Hr2 & Hpts & Herr).
    destruct (run_trace w ic h) as (r' & t' & Hrun' & _ & Ht').
    rewrite Hrun in Hrun'. injection Hrun' as <- Heq. apply app_inv_head in Heq. subst t'.
    exists r, t. repeat split; assumption.
  - intros pre bad post Hbody Hst Hint Hnone Hav Hwrite Hctx Hpre.
    destruct (GetWriter_available w ic (h ++ [theRequest; EvDo; EvNow ts; EvDecode]) Hav)
      as (writer & tw & Hgw & Hshape & Htw & _).
    rewrite (run_loop_eq w ic h resp _ writer tw Hreq Hdo Hst Hbody Hgw).
    fold ts. unfold defer. rewrite processRecords_app.
    destruct (processRecords_succeeds w ic writer ts pre Hshape Hwrite Hctx Hpre
                ((h ++ [theRequest; EvDo; EvNow ts; EvDecode]) ++ tw)) as (h' & Hloop).
    rewrite Hloop.
    destruct (processRecords_success w ic writer ts pre Hshape _ _ Hloop) as (t1 & -> & Hall).
    rewrite (processRecords_unknown_label w ic writer ts bad post _ Hint Hnone).
    exists ([theRequest; EvDo; EvNow ts; EvDecode] ++ tw ++ t1
            ++ [EvLog (LogFoundPlace (PlaceID bad)); EvBodyClose]).
    split; [rewrite <- !app_assoc; reflexivity |].
    rewrite (emitted_fetch_prefix ts tw t1
               [EvLog (LogFoundPlace (PlaceID bad)); EvBodyClose] Htw eq_refl).
    eapply Forall2_impl; [exact Hall |].
    intros apmData p (v & Hv & ->). unfold point_of. rewrite Hv. reflexivity.
  - intros skipped writer h0. apply processRecord_skipped.
  - intros apmsData Hbody Hst Hav Hwrite Hctx Hknown.
    destruct (run_succeeds w ic h resp apmsData Hreq Hdo Hst Hbody Hav Hwrite Hctx Hknown)
      as (h' & Hrun).
    destruct (run_success_inv w ic h h' Hrun)
      as (resp' & feed' & tw & t & _ & Hdo' & _ & Hbody' & -> & Htw & Hall).
    rewrite Hdo in Hdo'. injection Hdo' as <-.
    rewrite Hbody in Hbody'. injection Hbody' as <-.
    exists ([theRequest; EvDo; EvNow ts; EvDecode] ++ tw ++ t ++ [EvBodyClose]).
    split; [exact Hrun |].
    rewrite (emitted_fetch_prefix ts tw t [EvBodyClose] Htw eq_refl).
    eapply Forall2_impl; [exact Hall |].
    intros apmData p (v & Hv & ->). unfold point_of. rewrite Hv. reflexivity.
Qed.

(** Two feeds against the configured place 1.  In the first the second
    record is of place 1 with an unknown label: the point of the first
    record is written and stays, and the cycle returns the error.  In the
    second the record with the unknown label is of place 2: it is skipped
    and the cycle succeeds with the one point. *)
Lemma unknown_label_of_interest_fails_witness :
  (exists t,
     run (quietWorld (feedOf ([apmX] ++ apmOddX :: [apmY])) 0) (liveConfig [1]) [] =
       (Val (Some (Errorf_invalid_load_value "half loaded")), [] ++ t)
     /\ Forall2 (fun apmData p => point_of (liveConfig [1]) 2 apmData = Some p)
          [apmX] (emitted t))
  /\ (exists r t,
        run (quietWorld (feedOf ([apmX] ++ apmOddX :: [apmY])) 0) (liveConfig [1]) [] =
          (r, [] ++ t)
        /\ r <> Val None
        /\ exists e, r = Val (Some e))
  /\ (exists t,
        run (quietWorld (feedOf [apmX; apmOdd]) 0) (liveConfig [1]) [] = (Val None, [] ++ t)
        /\ Forall2 (fun apmData p => point_of (liveConfig [1]) 2 apmData = Some p)
             [apmX] (emitted t)).
Proof.
  pose proof (unknown_label_of_interest_fails
                (quietWorld (feedOf ([apmX] ++ apmOddX :: [apmY])) 0) (liveConfig [1]) []
                (feedOf ([apmX] ++ apmOddX :: [apmY])) eq_refl eq_refl)
    as (Hfails & Hkept & _ & _).
  pose proof (unknown_label_of_interest_fails
                (quietWorld (feedOf [apmX; apmOdd]) 0) (liveConfig [1]) []
                (feedOf [apmX; apmOdd]) eq_refl eq_refl)
    as (_ & _ & _ & Hskip).
  split; [| split].
  - apply (Hkept [apmX] apmOddX [apmY]); try reflexivity.
    + right. eexists. reflexivity.
    + repeat constructor. intros _. eexists. reflexivity.
  - destruct (Hfails [apmX] apmOddX [apmY] eq_refl eq_refl eq_refl)
      as (r & t & Hrun & Hr & _ & Herr & _).
    exists r, t. split; [exact Hrun |]. split; [exact Hr |].
    apply Herr; [right; eexists; reflexivity | discriminate].
  - apply (Hskip [apmX; apmOdd]); try reflexivity.
    + right. eexists. reflexivity.
    + repeat constructor; intros Hint; [eexists; reflexivity | discriminate Hint].
Defined.

(** ** The filter, in the cycle *)

Lemma filter_of_interest ic (S : list Z) (apmsData : list APMData) :
  List.filter (of_interest (with_placeIDs ic S)) apmsData
  = filter (fun apmData => PlaceID apmData ∈ S) apmsData.
Proof.
  induction apmsData as [| apmData rest IH]; [reflexivity |].
  cbn [List.filter]. rewrite filter_cons, IH.
  unfold of_interest at 1. cbn [placeIDs with_placeIDs].
  destruct (slices_Contains S (PlaceID apmData)) eqn:Hc.
  - apply slices_Contains_In, list_elem_of_In in Hc.
    destruct (decide (PlaceID apmData ∈ S)); [reflexivity | contradiction].
  - destruct (decide (PlaceID apmData ∈ S)) as [Hin |]; [| reflexivity].
    apply list_elem_of_In, slices_Contains_In in Hin. congruence.
Qed.

(** C9. The filter keeps a record exactly when its place ID occurs in the
    configured slice.  In the cycle a record whose place ID is not a member
    is discarded without a trace, and a record whose place ID is a member is
    logged as found and classified; whatever the cycle's outcome every point
    handed to the writer comes from a record of the feed whose place ID is a
    member, and in a cycle that succeeds the points are those of the member
    records, one each, in feed order.  Two slices with the same members, in
    whatever order and with whatever repetitions, give the same answer for
    every ID and the same cycle, history included: a repeated ID does not
    make a record be written twice. *)
Theorem filter_is_membership (S : list Z) (p : Z) :
  (slices_Contains S p = true <-> In p S)
  /\ (forall S', S ≡ₚ S' -> slices_Contains S' p = slices_Contains S p)
  /\ (forall S', (forall x, In x S <-> In x S') ->
        slices_Contains S' p = slices_Contains S p
        /\ forall w ic h, run w (with_placeIDs ic S') h = run w (with_placeIDs ic S) h)
  /\ (forall w ic h,
        run w (with_placeIDs ic (p :: S ++ [p])) h = run w (with_placeIDs ic (p :: S)) h)
  /\ (forall ic writer ts apmData h,
        PlaceID apmData = p ->
        (~ In p S ->
           processRecord (with_placeIDs ic S) writer ts apmData h = (Val None, h))
        /\ (In p S ->
              processRecord (with_placeIDs ic S) writer ts apmData h =
                match loadMap !! Load apmData with
                | Some loadVal =>
                    writer (mkPoint (with_placeIDs ic S) apmData loadVal ts)
                      (h ++ [EvLog (LogFoundPlace p)])
                | None =>
                    (Val (Some (Errorf_invalid_load_value (Load apmData))),
                     h ++ [EvLog (LogFoundPlace p)])
                end))
  /\ (forall w ic h resp apmsData,
        w_do w (h ++ [theRequest]) = Returns (inr resp) ->
        Body resp = Returns (inr apmsData) ->
        let ts := w_now w (h ++ [theRequest; EvDo]) in
        (exists r t,
           run w (with_placeIDs ic S) h = (r, h ++ t)
           /\ Forall (fun pt => exists apmData loadVal,
                                  In apmData apmsData /\ In (PlaceID apmData) S
                                  /\ loadMap !! Load apmData = Some loadVal
                                  /\ pt = mkPoint (with_placeIDs ic S) apmData loadVal ts)
                (emitted t))
        /\ (forall h', run w (with_placeIDs ic S) h = (Val None, h') ->
              exists t, h' = h ++ t
                /\ Forall2 (fun apmData pt => point_of (with_placeIDs ic S) ts apmData = Some pt)
                     (filter (fun apmData => PlaceID apmData ∈ S) apmsData) (emitted t))).
Proof.
  split; [apply slices_Contains_In |].
  split; [| split; [| split; [| split]]].
  - intros S' Hperm. apply slices_Contains_ext. intros x.
    split; apply Permutation_in; [exact Hperm | symmetry; exact Hperm].
  - intros S' Hset. split; [apply slices_Contains_ext, Hset |].
    intros w ic h. apply run_placeIDs_ext, Hset.
  - intros w ic h. apply run_placeIDs_ext. intros x. cbn [In].
    rewrite in_app_iff. cbn [In]. tauto.
  - intros ic writer ts apmData h Hp. split.
    + intros Hnot. unfold processRecord. cbn [placeIDs with_placeIDs]. rewrite Hp.
      destruct (slices_Contains S p) eqn:Hc; [| reflexivity].
      apply slices_Contains_In in Hc. contradiction.
    + intros Hin. apply slices_Contains_In in Hin.
      unfold processRecord. cbn [placeIDs with_placeIDs]. rewrite Hp, Hin.
      unfold bind, log_Println, emit.
      destruct (loadMap !! Load apmData); reflexivity.
  - intros w ic h resp apmsData Hdo Hbody ts. split.
    + destruct (run_inv w (with_placeIDs ic S) h)
        as [(r & t & Heq & _ & Hem)
           | (resp' & feed & writer & tw & r & t & _ & Hdo' & _ & Hbody' & Hshape & Htw
                & Hloop & _ & Heq)].
      { exists r, t. rewrite Hem. split; [exact Heq | constructor]. }
      rewrite Hdo in Hdo'. injection Hdo' as <-.
      rewrite Hbody in Hbody'. injection Hbody' as <-.
      exists r, ([theRequest; EvDo; EvNow ts; EvDecode] ++ tw ++ t ++ [EvBodyClose]).
      split; [rewrite Heq; unfold ts; rewrite <- !app_assoc; reflexivity |].
      rewrite (emitted_fetch_prefix ts tw t [EvBodyClose]);
        [| destruct Htw as [-> | ->]; reflexivity | reflexivity].
      eapply Forall_impl;
        [exact (processRecords_points w (with_placeIDs ic S) writer _ apmsData Hshape
                  _ _ _ Hloop) |].
      intros pt (apmData & v & Hin & Hint & Hv & ->).
      exists apmData, v. repeat split; try assumption.
      apply slices_Contains_In, Hint.
    + intros h' Hrun.
      destruct (run_success_inv w (with_placeIDs ic S) h h' Hrun)
        as (resp' & feed' & tw & t & _ & Hdo' & _ & Hbody' & -> & Htw & Hall).
      rewrite Hdo in Hdo'. injection Hdo' as <-.
      rewrite Hbody in Hbody'. injection Hbody' as <-.
      exists ([theRequest; EvDo; EvNow ts; EvDecode] ++ tw ++ t ++ [EvBodyClose]).
      split; [reflexivity |].
      rewrite (emitted_fetch_prefix ts tw t [EvBodyClose] Htw eq_refl).
      rewrite <- (filter_of_interest ic S apmsData).
      eapply Forall2_impl; [exact Hall |].
      intros apmData pt (v & Hv & ->). unfold point_of. rewrite Hv. reflexivity.
Qed.

(** The configured slice [[1; 2; 1]] answers as [[2; 1]] does and gives the
    same cycle; and with [[1]] configured, a feed of a record of place 1 and
    a record of place 2 gives one point, that of the first record. *)
Lemma filter_is_membership_witness :
  slices_Contains [1; 2; 1] 1 = slices_Contains [2; 1] 1
  /\ emitted (snd (run (quietWorld (feedOf [apmX; apmY]) 0)
                     (with_placeIDs (liveConfig []) [1; 2; 1]) []))
     = emitted (snd (run (quietWorld (feedOf [apmX; apmY]) 0)
                       (with_placeIDs (liveConfig []) [2; 1]) []))
  /\ length (emitted (snd (run (quietWorld (feedOf [apmX; apmY]) 0)
                             (with_placeIDs (liveConfig []) [1; 2; 1]) []))) = 2%nat
  /\ exists t,
       snd (run (quietWorld (feedOf [apmX; apmY]) 0) (with_placeIDs (liveConfig []) [1]) [])
         = [] ++ t
       /\ Forall2 (fun apmData pt =>
                     point_of (with_placeIDs (liveConfig []) [1]) 2 apmData = Some pt)
            [apmX] (emitted t).
Proof.
  assert (Hset : forall x : Z, In x [2; 1] <-> In x [1; 2; 1]) by (cbn [In]; tauto).
  destruct (proj1 (proj2 (proj2 (filter_is_membership [2; 1] 1))) [1; 2; 1] Hset)
    as [Hc Hrun].
  split; [exact Hc |].
  split; [rewrite Hrun; reflexivity |].
  split; [reflexivity |].
  destruct (filter_is_membership [1] 1) as (_ & _ & _ & _ & _ & Hcycle).
  destruct (Hcycle (quietWorld (feedOf [apmX; apmY]) 0) (liveConfig []) []
              (feedOf [apmX; apmY]) [apmX; apmY] eq_refl eq_refl) as [_ Hkept].
  exact (Hkept _ eq_refl).
Defined.

Lemma loadMap_values (s : string) (v : Z) :
  loadMap !! s = Some v -> In v [10; 70; 100].
Proof.
  rewrite loadMap_lookup. repeat case_decide; intros [= <-]; cbn; tauto.
Qed.

Lemma mkPoint_shape ic apmData v ts :
  of_interest ic apmData = true ->
  loadMap !! Load apmData = Some v ->
  point_shape ic (mkPoint ic apmData v ts).
Proof.
  intros Hint Hv. unfold point_shape, mkPoint. cbn [pt_measurement pt_tags pt_fields].
  split; [reflexivity |].
  split; [rewrite !dom_insert_L, dom_empty_L; set_solver |].
  split; [rewrite !dom_insert_L, dom_empty_L; set_solver |].
  split.
  - exists (PlaceID apmData). split; [apply slices_Contains_In, Hint |].
    apply lookup_insert_eq.
  - exists v. split; [eapply loadMap_values, Hv | apply lookup_insert_eq].
Qed.

(** X7. A cycle that succeeds on a feed of N records, K of them of interest,
    has checked the context N times, once after every record whether of
    interest or not, and has logged K found places. *)
Theorem successful_cycle_checks (w : World) (ic : InstanceConfig) (h h' : list event)
    (resp : Response) (apmsData : list APMData) :
  w_do w (h ++ [theRequest]) = Returns (inr resp) ->
  Body resp = Returns (inr apmsData) ->
  run w ic h = (Val None, h') ->
  exists t, h' = h ++ t
    /\ count_events is_ctx_check t = length apmsData
    /\ count_events is_found_place t = length (List.filter (of_interest ic) apmsData)
    /\ count_events is_body_close t = 1%nat.
Proof.
  intros Hdo Hbody Hrun.
  destruct (run_inv w ic h)
    as [(r & t & Heq & Hr & _)
       | (resp' & feed & writer & tw & r & t & _ & Hdo' & _ & Hbody' & Hshape & Htw
            & Hloop & _ & Heq)].
  { rewrite Hrun in Heq. congruence. }
  rewrite Hdo in Hdo'. injection Hdo' as <-.
  rewrite Hbody in Hbody'. injection Hbody' as <-.
  rewrite Hrun in Heq. injection Heq as <- ->.
  destruct (processRecords_success_counts w ic writer _ apmsData Hshape _ _ Hloop)
    as [Hc Hf].
  pose proof (processRecords_trace w ic writer
                (w_now w (h ++ [theRequest; EvDo])) apmsData Hshape
                ((h ++ [theRequest; EvDo; EvNow (w_now w (h ++ [theRequest; EvDo])); EvDecode])
                   ++ tw)) as (r' & t' & Hloop' & _ & Ht').
  rewrite Hloop in Hloop'. injection Hloop' as _ Heq. apply app_inv_head in Heq. subst t'.
  eexists. split; [rewrite <- !app_assoc; reflexivity |].
  cbn [app]. 
  change (theRequest :: EvDo :: EvNow (w_now w (h ++ [theRequest; EvDo])) :: EvDecode
            :: tw ++ t ++ [EvBodyClose])
    with ([theRequest; EvDo; EvNow (w_now w (h ++ [theRequest; EvDo])); EvDecode]
            ++ tw ++ t ++ [EvBodyClose]).
  rewrite !count_events_app, Hc, Hf, (loop_events_no_close _ t Ht').
  destruct Htw as [-> | ->]; repeat split; cbn; lia.
Qed.

Lemma successful_cycle_checks_witness :
  exists t,
    snd (run (quietWorld (feedOf [apmX; apmY; apmX]) 0) (dryConfig [1]) []) = [] ++ t
    /\ count_events is_ctx_check t = 3%nat
    /\ count_events is_found_place t = 2%nat
    /\ count_events is_body_close t = 1%nat.
Proof.
  exact (successful_cycle_checks (quietWorld (feedOf [apmX; apmY; apmX]) 0) (dryConfig [1])
           [] _ (feedOf [apmX; apmY; apmX]) [apmX; apmY; apmX] eq_refl eq_refl eq_refl).
Defined.

(** X8. Whatever a cycle's outcome, every point it hands to the writer has
    the configured measurement, exactly the tags [place_id], [operator_id]
    and [name], exactly the fields [load], [geoLat] and [geoLng], the ID of a
    configured place as its [place_id] tag, and 10, 70 or 100 as its load;
    a cycle that ends before the loop hands out no point at all. *)
Theorem every_point_well_formed (w : World) (ic : InstanceConfig) (h : list event) :
  exists r t,
    run w ic h = (r, h ++ t)
    /\ Forall (point_shape ic) (emitted t)
    /\ Forall (fun p => pt_time p = w_now w (h ++ [theRequest; EvDo])) (emitted t).
Proof.
  destruct (run_inv w ic h)
    as [(r & t & Heq & _ & Hem)
       | (resp & feed & writer & tw & r & t & Hreq & Hdo & _ & _ & Hshape & Htw
            & Hloop & _ & Heq)].
  { exists r, t. rewrite Hem. repeat split; auto; constructor. }
  exists r. eexists. split; [rewrite Heq, <- !app_assoc; reflexivity |].
  assert (Hem : emitted ([theRequest; EvDo; EvNow (w_now w (h ++ [theRequest; EvDo]));
                          EvDecode] ++ tw ++ t ++ [EvBodyClose]) = emitted t).
  { apply emitted_fetch_prefix; [destruct Htw as [-> | ->] |]; reflexivity. }
  rewrite Hem. split.
  - eapply Forall_impl; [exact (processRecords_points w ic writer _ feed Hshape _ _ _ Hloop) |].
    intros p (apmData & v & _ & Hint & Hv & ->). apply mkPoint_shape; assumption.
  - eapply Forall_impl; [exact (processRecords_points w ic writer _ feed Hshape _ _ _ Hloop) |].
    intros p (apmData & v & _ & _ & _ & ->). reflexivity.
Qed.

(** ** Decimal place IDs *)

Lemma digits_val_of_lu (d acc : Decimal.uint) :
  digits_val d (Z.of_N (DecimalPos.Unsigned.of_lu acc)) =
  Z.of_N (DecimalPos.Unsigned.of_lu (Decimal.revapp d acc)).
Proof.
  revert acc. induction d; intros acc; cbn [digits_val Decimal.revapp];
    try reflexivity;
    rewrite <- IHd; f_equal; cbn [DecimalPos.Unsigned.of_lu]; lia.
Qed.

Lemma digits_val_to_uint (m : N) : digits_val (N.to_uint m) 0 = Z.of_N m.
Proof.
  change 0 with (Z.of_N (DecimalPos.Unsigned.of_lu Decimal.Nil)).
  rewrite digits_val_of_lu.
  change (Decimal.revapp (N.to_uint m) Decimal.Nil) with (Decimal.rev (N.to_uint m)).
  rewrite <- DecimalPos.Unsigned.of_uint_alt.
  change (Pos.of_uint (N.to_uint m)) with (N.of_uint (N.to_uint m)).
  rewrite DecimalN.Unsigned.of_to. reflexivity.
Qed.

Lemma digits_val_ge (d : Decimal.uint) (n : Z) : 0 <= n -> n <= digits_val d n.
Proof.
  revert n. induction d; intros n Hn; cbn [digits_val]; [lia | ..];
    match goal with
    | |- _ <= digits_val _ ?m => specialize (IHd m); lia
    end.
Qed.

Lemma parse_digit_step (c : ascii) (rest : string) (n k : Z) :
  Z.of_N (N_of_ascii c) = 48 + k -> 0 <= k <= 9 ->
  0 <= n -> n * 10 + k <= maxUint64 ->
  parse_digits (String c rest) n = parse_digits rest (n * 10 + k).
Proof.
  intros Hc Hk Hn Hmax. cbn [parse_digits]. rewrite Hc.
  assert (Hmaxv : maxUint64 = 18446744073709551615) by reflexivity.
  assert (Hcut : maxUint64 / 10 + 1 = 1844674407370955162) by reflexivity.
  replace ((48 <=? 48 + k) && (48 + k <=? 57))%Z with true
    by (symmetry; apply andb_true_intro; split; apply Z.leb_le; lia).
  rewrite Hcut.
  replace (1844674407370955162 <=? n)%Z with false
    by (symmetry; apply Z.leb_gt; lia).
  replace (48 + k - 48) with k by lia.
  replace (maxUint64 <? n * 10 + k)%Z with false
    by (symmetry; apply Z.ltb_ge; lia).
  reflexivity.
Qed.

Lemma parse_digits_string_of_uint (d : Decimal.uint) (n : Z) :
  0 <= n -> digits_val d n <= maxUint64 ->
  parse_digits (NilEmpty.string_of_uint d) n = inr (digits_val d n).
Proof.
  revert n. induction d; intros n Hn Hmax;
    cbn [NilEmpty.string_of_uint digits_val] in *; [reflexivity | ..];
    match goal with
    | H : digits_val _ (n * 10 + ?k) <= _ |- _ =>
        pose proof (digits_val_ge d (n * 10 + k) ltac:(lia));
        rewrite (parse_digit_step _ _ n k); [apply IHd; [lia | exact H] | reflexivity | lia | lia | lia]
    end.
Qed.

Lemma FormatUint_not_empty (v : Z) : strconv_FormatUint v <> EmptyString.
Proof.
  unfold strconv_FormatUint, NilZero.string_of_uint.
  destruct (N.to_uint (Z.to_N v)); cbn; discriminate.
Qed.

Lemma to_uint_not_nil (m : N) : N.to_uint m <> Decimal.Nil.
Proof.
  destruct m as [| p]; [discriminate |]. apply DecimalPos.Unsigned.to_uint_nonnil.
Qed.

Lemma ParseUint_FormatUint (v : Z) :
  0 <= v <= maxUint64 -> strconv_ParseUint (strconv_FormatUint v) = inr v.
Proof.
  intros Hv.
  assert (Hs : strconv_FormatUint v = NilEmpty.string_of_uint (N.to_uint (Z.to_N v))).
  { unfold strconv_FormatUint, NilZero.string_of_uint.
    pose proof (to_uint_not_nil (Z.to_N v)).
    destruct (N.to_uint (Z.to_N v)); congruence. }
  pose proof (FormatUint_not_empty v) as Hne.
  unfold strconv_ParseUint. destruct (strconv_FormatUint v) eqn:Hfmt; [congruence |].
  rewrite Hs, parse_digits_string_of_uint;
    [rewrite digits_val_to_uint; f_equal; lia
    | lia
    | rewrite digits_val_to_uint; lia].
Qed.

(** Every value [strconv.ParseUint] accepts is a [uint64]. *)
Lemma parse_digits_bound (s : string) (n m : Z) :
  0 <= n <= maxUint64 -> parse_digits s n = inr m -> 0 <= m <= maxUint64.
Proof.
  revert n. induction s as [| c rest IH]; intros n Hn; cbn [parse_digits].
  - intros [= <-]. exact Hn.
  - destruct ((48 <=? Z.of_N (N_of_ascii c)) && (Z.of_N (N_of_ascii c) <=? 57))%Z eqn:Hd;
      [| discriminate].
    apply andb_prop in Hd as [Hlo Hhi]. apply Z.leb_le in Hlo, Hhi.
    destruct (maxUint64 / 10 + 1 <=? n)%Z; [discriminate |].
    destruct (maxUint64 <? n * 10 + (Z.of_N (N_of_ascii c) - 48))%Z eqn:Hov; [discriminate |].
    apply Z.ltb_ge in Hov. apply IH. lia.
Qed.

Lemma ParseUint_bound (s : string) (m : Z) :
  strconv_ParseUint s = inr m -> 0 <= m <= maxUint64.
Proof.
  unfold strconv_ParseUint. destruct s; [discriminate |].
  apply parse_digits_bound. unfold maxUint64. lia.
Qed.

(** ** Splitting and joining *)

Lemma strings_Join_cons_byte (c : ascii) (piece : string) (pieces : list string) (sep : ascii) :
  strings_Join (String c piece :: pieces) sep = String c (strings_Join (piece :: pieces) sep).
Proof. destruct pieces; reflexivity. Qed.

Lemma strings_Join_Split (s : string) (sep : ascii) :
  strings_Join (strings_Split s sep) sep = s.
Proof.
  induction s as [| c rest IH]; [reflexivity |].
  cbn [strings_Split].
  destruct (strings_Split_cons rest sep) as (piece & pieces & Hrest).
  rewrite Hrest in *.
  destruct (Ascii.eqb c sep) eqn:Hc.
  - apply Ascii.eqb_eq in Hc. subst c.
    change (strings_Join (EmptyString :: piece :: pieces) sep)
      with (String sep (strings_Join (piece :: pieces) sep)).
    rewrite IH. reflexivity.
  - rewrite strings_Join_cons_byte, IH. reflexivity.
Qed.

Lemma strings_Split_count (s : string) (sep : ascii) :
  length (strings_Split s sep) = S (strings_Count s sep).
Proof.
  induction s as [| c rest IH]; [reflexivity |].
  cbn [strings_Split strings_Count].
  destruct (strings_Split_cons rest sep) as (piece & pieces & Hrest).
  rewrite Hrest in *.
  destruct (Ascii.eqb c sep); cbn [length] in *; lia.
Qed.

Lemma strings_Split_pieces (s : string) (sep : ascii) :
  Forall (fun piece => contains_byte piece sep = false) (strings_Split s sep).
Proof.
  induction s as [| c rest IH]; [repeat constructor |].
  cbn [strings_Split].
  destruct (strings_Split_cons rest sep) as (piece & pieces & Hrest).
  rewrite Hrest in *.
  destruct (Ascii.eqb c sep) eqn:Hc.
  - constructor; [reflexivity | exact IH].
  - apply Forall_cons in IH as [Hpiece Hpieces].
    constructor; [| exact Hpieces].
    cbn [contains_byte]. rewrite Hc, Hpiece. reflexivity.
Qed.

Lemma strings_Split_no_sep (e : string) (sep : ascii) :
  contains_byte e sep = false -> strings_Split e sep = [e].
Proof.
  induction e as [| c rest IH]; [reflexivity |].
  cbn [contains_byte strings_Split]. intros He.
  apply orb_false_elim in He as [Hc Hrest]. rewrite Hc, (IH Hrest). reflexivity.
Qed.

Lemma strings_Split_append (e r : string) (sep : ascii) :
  contains_byte e sep = false ->
  strings_Split (String.append e (String sep r)) sep = e :: strings_Split r sep.
Proof.
  induction e as [| c rest IH].
  - intros _. change (String.append EmptyString (String sep r)) with (String sep r).
    cbn [strings_Split]. rewrite Ascii.eqb_refl. reflexivity.
  - cbn [contains_byte]. intros He. apply orb_false_elim in He as [Hc Hrest].
    change (String.append (String c rest) (String sep r))
      with (String c (String.append rest (String sep r))).
    cbn [strings_Split]. rewrite Hc, (IH Hrest). reflexivity.
Qed.

Lemma strings_Split_Join (elems : list string) (sep : ascii) :
  elems <> [] ->
  Forall (fun e => contains_byte e sep = false) elems ->
  strings_Split (strings_Join elems sep) sep = elems.
Proof.
  intros Hne Hall. induction Hall as [| e rest He Hrest IH]; [congruence |].
  destruct rest as [| e' rest'].
  - cbn [strings_Join]. apply strings_Split_no_sep, He.
  - change (strings_Join (e :: e' :: rest') sep)
      with (String.append e (String sep (strings_Join (e' :: rest') sep))).
    rewrite (strings_Split_append e _ sep He), IH; [reflexivity | discriminate].
Qed.

Lemma string_of_uint_no_comma (d : Decimal.uint) :
  contains_byte (NilEmpty.string_of_uint d) ","%char = false.
Proof. induction d; cbn [NilEmpty.string_of_uint contains_byte]; auto. Qed.

Lemma FormatUint_no_comma (v : Z) : contains_byte (strconv_FormatUint v) ","%char = false.
Proof.
  unfold strconv_FormatUint, NilZero.string_of_uint.
  destruct (N.to_uint (Z.to_N v)) eqn:Hd; [reflexivity | ..];
    rewrite <- Hd; apply string_of_uint_no_comma.
Qed.

(** X9. Splitting and joining on one separator byte are inverse to each
    other: joining the pieces of a string gives the string back; a string
    with [n] separators has [n + 1] pieces, none of which contains the
    separator; and a non-empty list of pieces free of the separator is what
    splitting their join returns. *)
Theorem split_join_round_trip (sep : ascii) :
  (forall s, strings_Join (strings_Split s sep) sep = s)
  /\ (forall s, length (strings_Split s sep) = S (strings_Count s sep))
  /\ (forall s, Forall (fun piece => contains_byte piece sep = false) (strings_Split s sep))
  /\ (forall elems, elems <> [] ->
        Forall (fun e => contains_byte e sep = false) elems ->
        strings_Split (strings_Join elems sep) sep = elems).
Proof.
  split; [intros s; apply strings_Join_Split |].
  split; [intros s; apply strings_Split_count |].
  split; [intros s; apply strings_Split_pieces |].
  intros elems. apply strings_Split_Join.
Qed.

Lemma split_join_round_trip_witness :
  strings_Split (strings_Join ["12"; ""; "7"] ","%char) ","%char = ["12"; ""; "7"].
Proof.
  apply (proj2 (proj2 (proj2 (split_join_round_trip ","%char)))).
  - discriminate.
  - repeat constructor.
Defined.

(** X10. The decimal text [strconv.FormatUint] gives for a [uint64] is
    read back by [strconv.ParseUint] as the same number, and every number
    [strconv.ParseUint] accepts is a [uint64].  So the [place_id] tag of a
    point parses back to the place ID of its record, and two records whose
    points carry the same [place_id] tag have the same place ID. *)
Theorem place_id_tag_round_trip (ic : InstanceConfig) (apmData : APMData) (v : Z) (ts : Time) :
  0 <= PlaceID apmData <= maxUint64 ->
  strconv_ParseUint (strconv_FormatUint (PlaceID apmData)) = inr (PlaceID apmData)
  /\ pt_tags (mkPoint ic apmData v ts) !! "place_id"
     = Some (strconv_FormatUint (PlaceID apmData))
  /\ (forall s m, strconv_ParseUint s = inr m -> 0 <= m <= maxUint64)
  /\ (forall ic' other v' ts',
        0 <= PlaceID other <= maxUint64 ->
        pt_tags (mkPoint ic' other v' ts') !! "place_id"
          = pt_tags (mkPoint ic apmData v ts) !! "place_id" ->
        PlaceID other = PlaceID apmData).
Proof.
  intros Hid.
  split; [apply ParseUint_FormatUint, Hid |].
  split; [apply lookup_insert_eq |].
  split; [apply ParseUint_bound |].
  intros ic' other v' ts' Hother. unfold mkPoint. cbn [pt_tags].
  rewrite !lookup_insert_eq. intros [= Heq].
  pose proof (ParseUint_FormatUint _ Hother) as H1.
  pose proof (ParseUint_FormatUint _ Hid) as H2.
  rewrite Heq in H1. congruence.
Qed.

Lemma place_id_tag_round_trip_witness :
  strconv_ParseUint (strconv_FormatUint 18446744073709551615) = inr 18446744073709551615.
Proof.
  refine (proj1 (place_id_tag_round_trip (dryConfig [])
                   (mkAPMData 18446744073709551615 "A" "X" 0%float 0%float "") 10 0 _)).
  cbn [PlaceID]. unfold maxUint64. lia.
Defined.

(** ** The start-up, read backwards *)

Section StartupInversion.

Context {E : Env} (w : World).

Lemma parsePlaceIDs_inv (strs : list string) (ids : list Z) (h h' : list event) :
  parsePlaceIDs strs h = (Val ids, h') ->
  h' = h /\ Forall2 (fun v id => strconv_ParseUint v = inr id) strs ids.
Proof.
  revert ids. induction strs as [| v rest IH]; intros ids; cbn [parsePlaceIDs].
  - intros [= <- <-]. split; [reflexivity | constructor].
  - destruct (strconv_ParseUint v) as [e | id] eqn:Hv; [discriminate |].
    unfold bind. destruct (parsePlaceIDs rest h) as [[ids' | v' |] h1] eqn:Hrest;
      try discriminate.
    intros [= <- <-]. destruct (IH ids' eq_refl) as [-> Hall].
    split; [reflexivity | constructor; assumption].
Qed.

(** What a returned [setupInflux] has done. *)
Lemma setupInflux_inv dry h org bucket client h' :
  setupInflux w dry h = (Val (org, bucket, client), h') ->
  (dry = true /\ org = EmptyString /\ bucket = EmptyString /\ client = None
   /\ h' = h ++ [EvLog LogDryRunEnabled])
  \/ (dry = false
      /\ env_StringOrPanic "INFLUX_SERVER_ORG" = Returns org
      /\ env_StringOrPanic "INFLUX_SERVER_BUCKET" = Returns bucket
      /\ exists url token opts pre status,
           env_StringOrPanic "INFLUX_SERVER_URL" = Returns url
           /\ env_StringOrPanic "INFLUX_SERVER_TOKEN" = Returns token
           /\ client = Some (NewClientWithOptions url token opts)
           /\ (pre = [EvLog LogSettingUpInflux]
               \/ pre = [EvLog LogSettingUpInflux; EvLog LogLoadingExtraCA])
           /\ w_health w (h ++ pre ++ [EvNewInfluxClient (NewClientWithOptions url token opts)])
              = Returns (inr status)
           /\ h' = h ++ pre ++ [EvNewInfluxClient (NewClientWithOptions url token opts);
                                EvHealth; EvLog (LogHealthResult status)]).
Proof.
  unfold setupInflux. destruct dry; cbn [negb].
  { unfold bind, log_Println, emit, ret. intros [= <- <- <- <-]. left. repeat split. }
  right. revert H.
  unfold bind at 1, log_Println at 1, emit at 1.
  unfold bind at 1, pure_call at 1.
  destruct (env_StringOrPanic "INFLUX_SERVER_ORG") as [org0 | v]; [| discriminate].
  unfold bind at 1, pure_call at 1.
  destruct (env_StringOrPanic "INFLUX_SERVER_BUCKET") as [bucket0 | v]; [| discriminate].
  unfold bind at 1, pure_call at 1.
  destruct (env_Exists extraCAEnvvarName) as [[|] | v]; [| | discriminate].
  - unfold bind at 1. unfold bind at 1, log_Println at 1, emit at 1.
    unfold bind at 1, pure_call at 1.
    destruct (env_StringOrPanic extraCAEnvvarName) as [pem | v]; [| discriminate].
    unfold ret at 1.
    unfold bind at 1, pure_call at 1.
    destruct (env_StringOrPanic "INFLUX_SERVER_URL") as [url | v]; [| discriminate].
    unfold bind at 1, pure_call at 1.
    destruct (env_StringOrPanic "INFLUX_SERVER_TOKEN") as [token | v]; [| discriminate].
    unfold bind at 1, emit at 1. unfold bind at 1, ext_call at 1.
    destruct (w_health w _) as [[e | status] | v] eqn:Hh; try discriminate.
    unfold bind, log_Println, emit, ret. intros [= <- <- <- <-].
    repeat split.
    exists url, token, (WithExtraCA pem),
      [EvLog LogSettingUpInflux; EvLog LogLoadingExtraCA], status.
    repeat split; auto.
    + rewrite <- Hh. f_equal. rewrite <- !app_assoc. reflexivity.
    + rewrite <- !app_assoc. reflexivity.
  - unfold bind at 1, ret at 1.
    unfold bind at 1, pure_call at 1.
    destruct (env_StringOrPanic "INFLUX_SERVER_URL") as [url | v]; [| discriminate].
    unfold bind at 1, pure_call at 1.
    destruct (env_StringOrPanic "INFLUX_SERVER_TOKEN") as [token | v]; [| discriminate].
    unfold bind at 1, emit at 1. unfold bind at 1, ext_call at 1.
    destruct (w_health w _) as [[e | status] | v] eqn:Hh; try discriminate.
    unfold bind, log_Println, emit, ret. intros [= <- <- <- <-].
    repeat split.
    exists url, token, DefaultOptions, [EvLog LogSettingUpInflux], status.
    repeat split; auto.
    + rewrite <- Hh. f_equal. rewrite <- !app_assoc. reflexivity.
    + rewrite <- !app_assoc. reflexivity.
Qed.

(** What a returned [loadConfig] has read. *)
Lemma loadConfig_inv h ic h' :
  loadConfig w h = (Val ic, h') ->
  exists s,
    env_StringOrPanic "FOXPOST_PLACE_IDS" = Returns s
    /\ Forall2 (fun v id => strconv_ParseUint v = inr id)
         (strings_Split s ","%char) (placeIDs ic)
    /\ env_Bool "DRY_RUN" false = Returns (dryRun ic)
    /\ setupInflux w (dryRun ic) h = (Val (influxOrg ic, influxBucket ic, influxClient ic), h')
    /\ env_Duration "INVOCATION_TIMEOUT" time_Minute = Returns (timeout ic)
    /\ env_String "INFLUX_MEASUREMENT" "foxpost" = Returns (influxMeasurement ic).
Proof.
  unfold loadConfig, bind at 1, pure_call at 1.
  destruct (env_StringOrPanic "FOXPOST_PLACE_IDS") as [s | v]; [| discriminate].
  rewrite split_guard_false. unfold bind at 1.
  destruct (parsePlaceIDs (strings_Split s ","%char) h) as [[ids | v |] h1] eqn:Hids;
    try discriminate.
  apply parsePlaceIDs_inv in Hids as [-> Hids].
  unfold bind at 1, pure_call at 1.
  destruct (env_Bool "DRY_RUN" false) as [dry | v]; [| discriminate].
  unfold bind at 1.
  destruct (setupInflux w dry h) as [[[[org bucket] client] | v |] h2] eqn:Hsetup;
    try discriminate.
  unfold bind at 1, pure_call at 1.
  destruct (env_Duration "INVOCATION_TIMEOUT" time_Minute) as [d | v]; [| discriminate].
  unfold bind, pure_call.
  destruct (env_String "INFLUX_MEASUREMENT" "foxpost") as [m | v]; [| discriminate].
  unfold ret. intros [= <- <-]. exists s. cbn. repeat split; auto.
Qed.

End StartupInversion.

Lemma parse_formatted_ids (ids loaded : list Z) :
  Forall (fun id => 0 <= id <= maxUint64) ids ->
  Forall2 (fun v id => strconv_ParseUint v = inr id) (map strconv_FormatUint ids) loaded ->
  loaded = ids.
Proof.
  intros Hrange. revert loaded.
  induction Hrange as [| id ids Hid _ IH]; intros loaded Hall; cbn [map] in Hall.
  - inversion Hall. reflexivity.
  - inversion Hall as [| v id' strs loaded' Hv Hrest]; subst.
    rewrite (ParseUint_FormatUint id Hid) in Hv. injection Hv as <-.
    f_equal. apply IH, Hrest.
Qed.

Lemma parsed_ids_in_range (strs : list string) (ids : list Z) :
  Forall2 (fun v id => strconv_ParseUint v = inr id) strs ids ->
  Forall (fun id => 0 <= id <= maxUint64) ids.
Proof.
  induction 1 as [| v id strs ids Hv _ IH]; constructor; [| exact IH].
  eapply ParseUint_bound, Hv.
Qed.

(** X11. The place IDs of a configuration [loadConfig] returns are the
    numbers read from the comma-separated pieces of [FOXPOST_PLACE_IDS], in
    order: there is one more ID than the string has commas (so never
    none), every ID is a [uint64], and when the string is the comma-joined
    decimal text of a non-empty list of [uint64] IDs, that list is what is
    loaded. *)
Theorem loaded_place_ids (E : Env) (w : World) (h h' : list event) (ic : InstanceConfig) :
  loadConfig w h = (Val ic, h') ->
  exists s,
    env_StringOrPanic "FOXPOST_PLACE_IDS" = Returns s
    /\ Forall2 (fun v id => strconv_ParseUint v = inr id)
         (strings_Split s ","%char) (placeIDs ic)
    /\ length (placeIDs ic) = S (strings_Count s ","%char)
    /\ Forall (fun id => 0 <= id <= maxUint64) (placeIDs ic)
    /\ (forall ids, ids <> [] ->
          Forall (fun id => 0 <= id <= maxUint64) ids ->
          s = strings_Join (map strconv_FormatUint ids) ","%char ->
          placeIDs ic = ids).
Proof.
  intros Hcfg. destruct (loadConfig_inv w h ic h' Hcfg) as (s & Hs & Hids & _).
  exists s. split; [exact Hs |]. split; [exact Hids |].
  split; [rewrite <- (Forall2_length _ _ _ Hids); apply strings_Split_count |].
  split; [eapply parsed_ids_in_range, Hids |].
  intros ids Hne Hrange ->.
  rewrite strings_Split_Join in Hids.
  - apply parse_formatted_ids; assumption.
  - destruct ids; [congruence | discriminate].
  - apply List.Forall_forall. intros piece Hin.
    apply in_map_iff in Hin as (id & <- & _). apply FormatUint_no_comma.
Qed.

Lemma loaded_place_ids_witness :
  exists s,
    @env_StringOrPanic (mapEnv {[ "FOXPOST_PLACE_IDS" := "3,18,250" ]} {[ "DRY_RUN" := true ]} ∅)
      "FOXPOST_PLACE_IDS" = Returns s
    /\ Forall2 (fun v id => strconv_ParseUint v = inr id)
         (strings_Split s ","%char) [3; 18; 250]
    /\ length [3; 18; 250] = S (strings_Count s ","%char)
    /\ Forall (fun id => 0 <= id <= maxUint64) [3; 18; 250]
    /\ (forall ids, ids <> [] ->
          Forall (fun id => 0 <= id <= maxUint64) ids ->
          s = strings_Join (map strconv_FormatUint ids) ","%char ->
          [3; 18; 250] = ids).
Proof.
  exact (loaded_place_ids
           (mapEnv {[ "FOXPOST_PLACE_IDS" := "3,18,250" ]} {[ "DRY_RUN" := true ]} ∅)
           (quietWorld (feedOf []) 0) [] [EvLog LogDryRunEnabled]
           (mkInstanceConfig time_Minute [3; 18; 250] None "" "" "foxpost" true) eq_refl).
Defined.

(** X12. A configuration [loadConfig] returns is coherent.  In a dry run it
    has no client and empty organisation and bucket, and the start-up made
    no backend call.  Otherwise it has the client built from the URL and
    token of the environment, and the start-up's backend calls were the
    construction of that client followed by one health check that was
    answered without error.  Either way [GetWriter] returns a writer for it:
    the nil-client panic cannot happen. *)
Theorem loaded_config_coherent (E : Env) (w : World) (h h' : list event)
    (ic : InstanceConfig) :
  loadConfig w h = (Val ic, h') ->
  exists t, h' = h ++ t
    /\ ((dryRun ic = true /\ influxClient ic = None
         /\ influxOrg ic = EmptyString /\ influxBucket ic = EmptyString
         /\ backend_calls t = [])
        \/ (dryRun ic = false
            /\ exists url token opts,
                 env_StringOrPanic "INFLUX_SERVER_URL" = Returns url
                 /\ env_StringOrPanic "INFLUX_SERVER_TOKEN" = Returns token
                 /\ env_StringOrPanic "INFLUX_SERVER_ORG" = Returns (influxOrg ic)
                 /\ env_StringOrPanic "INFLUX_SERVER_BUCKET" = Returns (influxBucket ic)
                 /\ influxClient ic = Some (NewClientWithOptions url token opts)
                 /\ backend_calls t =
                      [EvNewInfluxClient (NewClientWithOptions url token opts); EvHealth]))
    /\ (forall h2, exists writer tw,
          GetWriter w ic h2 = (Val writer, h2 ++ tw) /\ writer_shape w writer).
Proof.
  intros Hcfg.
  destruct (loadConfig_inv w h ic h' Hcfg) as (s & _ & _ & _ & Hsetup & _).
  apply setupInflux_inv in Hsetup
    as [(Hdry & Horg & Hbucket & Hclient & ->)
       | (Hdry & Horg & Hbucket & url & token & opts & pre & status
            & Hurl & Htoken & Hclient & Hpre & _ & ->)].
  - exists [EvLog LogDryRunEnabled]. split; [reflexivity |].
    split; [left; repeat split; assumption |].
    intros h2. exists dry_writer, []. rewrite app_nil_r.
    split; [apply GetWriter_dry, Hdry | left; reflexivity].
  - eexists. split; [reflexivity |].
    split.
    + right. split; [exact Hdry |]. exists url, token, opts.
      repeat split; try assumption.
      destruct Hpre as [-> | ->]; reflexivity.
    + intros h2. eexists (live_writer w), [_].
      split; [eapply GetWriter_live; eassumption | right; reflexivity].
Qed.

Lemma loaded_config_coherent_witness :
  let E := mapEnv {[ "FOXPOST_PLACE_IDS" := "1"; "INFLUX_SERVER_ORG" := "org";
                     "INFLUX_SERVER_BUCKET" := "bucket";
                     "INFLUX_SERVER_URL" := "http://influx:8086";
                     "INFLUX_SERVER_TOKEN" := "token" ]} ∅ ∅ in
  exists writer tw,
    GetWriter (quietWorld (feedOf []) 0) (liveConfig [1]) [EvTick] = (Val writer, [EvTick] ++ tw)
    /\ writer_shape (quietWorld (feedOf []) 0) writer.
Proof.
  intros E.
  destruct (loaded_config_coherent E (quietWorld (feedOf []) 0) [] _ (liveConfig [1]) eq_refl)
    as (t & _ & _ & Hwriter).
  exact (Hwriter [EvTick]).
Defined.

(** X13. The start-up outside a dry run, with the place IDs and the four
    backend settings read: the client is built with the default options, or
    with the PEM text of [INFLUX_SERVER_EXTRA_CA] added when that variable
    exists, and the health check is made once.  When the check returns an
    error the start-up panics with ["influxdb health check failed"], right
    after the check; when it is answered the status is logged and the
    configuration carries the client, the organisation, the bucket, the
    timeout and the measurement that were read. *)
Theorem live_startup (E : Env) (w : World) (h : list event) (s : string) (ids : list Z)
    (org bucket url token pem : string) (hasCA : bool) :
  env_StringOrPanic "FOXPOST_PLACE_IDS" = Returns s ->
  Forall2 (fun v id => strconv_ParseUint v = inr id) (strings_Split s ","%char) ids ->
  env_Bool "DRY_RUN" false = Returns false ->
  env_StringOrPanic "INFLUX_SERVER_ORG" = Returns org ->
  env_StringOrPanic "INFLUX_SERVER_BUCKET" = Returns bucket ->
  env_Exists "INFLUX_SERVER_EXTRA_CA" = Returns hasCA ->
  (hasCA = true -> env_StringOrPanic "INFLUX_SERVER_EXTRA_CA" = Returns pem) ->
  env_StringOrPanic "INFLUX_SERVER_URL" = Returns url ->
  env_StringOrPanic "INFLUX_SERVER_TOKEN" = Returns token ->
  let c := NewClientWithOptions url token (if hasCA then WithExtraCA pem else DefaultOptions) in
  let pre := EvLog LogSettingUpInflux :: (if hasCA then [EvLog LogLoadingExtraCA] else []) in
  (forall e, w_health w (h ++ pre ++ [EvNewInfluxClient c]) = Returns (inl e) ->
     loadConfig w h =
       (Panic (PanicStr "influxdb health check failed"),
        h ++ pre ++ [EvNewInfluxClient c; EvHealth]))
  /\ (forall status d m,
        w_health w (h ++ pre ++ [EvNewInfluxClient c]) = Returns (inr status) ->
        env_Duration "INVOCATION_TIMEOUT" time_Minute = Returns d ->
        env_String "INFLUX_MEASUREMENT" "foxpost" = Returns m ->
        loadConfig w h =
          (Val (mkInstanceConfig d ids (Some c) org bucket m false),
           h ++ pre ++ [EvNewInfluxClient c; EvHealth; EvLog (LogHealthResult status)])).
Proof.
  intros Hs Hids Hdry Horg Hbucket Hexists Hpem Hurl Htoken c pre.
  assert (Hsetup : forall k : string * string * option InfluxClient -> M InstanceConfig,
            (influx <- setupInflux w false;; k influx) h =
            match w_health w (h ++ pre ++ [EvNewInfluxClient c]) with
            | Returns (inl _) =>
                (Panic (PanicStr "influxdb health check failed"),
                 h ++ pre ++ [EvNewInfluxClient c; EvHealth])
            | Returns (inr status) =>
                k (org, bucket, Some c)
                  (h ++ pre ++ [EvNewInfluxClient c; EvHealth; EvLog (LogHealthResult status)])
            | Panics v => (Panic v, h ++ pre ++ [EvNewInfluxClient c; EvHealth])
            end).
  { intros k. unfold setupInflux. cbn [negb].
    unfold bind at 1. unfold bind at 1, log_Println at 1, emit at 1.
    unfold bind at 1, pure_call at 1. rewrite Horg.
    unfold bind at 1, pure_call at 1. rewrite Hbucket.
    unfold bind at 1, pure_call at 1. unfold extraCAEnvvarName. rewrite Hexists.
    subst c pre. destruct hasCA.
    - unfold bind at 1. unfold bind at 1, log_Println at 1, emit at 1.
      unfold bind at 1, pure_call at 1. rewrite (Hpem eq_refl). unfold ret at 1.
      unfold bind at 1, pure_call at 1. rewrite Hurl.
      unfold bind at 1, pure_call at 1. rewrite Htoken.
      unfold bind at 1, emit at 1. unfold bind at 1, ext_call at 1.
      rewrite <- !app_assoc. cbn [app].
      destruct (w_health w _) as [[e | status] | v]; try reflexivity.
      unfold bind, log_Println, emit, ret. rewrite <- !app_assoc. reflexivity.
    - unfold bind at 1, ret at 1.
      unfold bind at 1, pure_call at 1. rewrite Hurl.
      unfold bind at 1, pure_call at 1. rewrite Htoken.
      unfold bind at 1, emit at 1. unfold bind at 1, ext_call at 1.
      rewrite <- !app_assoc. cbn [app].
      destruct (w_health w _) as [[e | status] | v]; try reflexivity.
      unfold bind, log_Println, emit, ret. rewrite <- !app_assoc. reflexivity. }
  assert (Hstart : loadConfig w h =
            (influx <- setupInflux w false;;
             let '(influxOrg, influxBucket, influxClient) := influx in
             timeout <- pure_call (env_Duration "INVOCATION_TIMEOUT" time_Minute);;
             influxMeasurement <- pure_call (env_String "INFLUX_MEASUREMENT" "foxpost");;
             ret {| timeout := timeout; placeIDs := ids; influxClient := influxClient;
                    influxOrg := influxOrg; influxBucket := influxBucket;
                    influxMeasurement := influxMeasurement; dryRun := false |}) h).
  { unfold loadConfig, bind at 1, pure_call at 1. rewrite Hs, split_guard_false.
    unfold bind at 1. rewrite (parsePlaceIDs_valid _ ids h Hids).
    unfold bind at 1, pure_call at 1. rewrite Hdry. reflexivity. }
  rewrite Hstart, Hsetup. split.
  - intros e Hhealth. rewrite Hhealth. reflexivity.
  - intros status d m Hhealth Hd Hm. rewrite Hhealth.
    unfold bind, pure_call. rewrite Hd, Hm. reflexivity.
Qed.

Lemma live_startup_witness :
  let E := mapEnv {[ "FOXPOST_PLACE_IDS" := "1"; "INFLUX_SERVER_ORG" := "org";
                     "INFLUX_SERVER_BUCKET" := "bucket";
                     "INFLUX_SERVER_URL" := "http://influx:8086";
                     "INFLUX_SERVER_TOKEN" := "token";
                     "INFLUX_SERVER_EXTRA_CA" := "PEM" ]} ∅ ∅ in
  let w := mkWorld (fun _ => Returns None) (fun _ => Returns (inr (feedOf [])))
             (fun _ => 0) (fun _ _ => Returns None) (fun _ => None)
             (fun _ => Returns (inl (LibError "connection refused"))) 0 in
  @loadConfig E w [] =
    (Panic (PanicStr "influxdb health check failed"),
     [EvLog LogSettingUpInflux; EvLog LogLoadingExtraCA;
      EvNewInfluxClient (NewClientWithOptions "http://influx:8086" "token" (WithExtraCA "PEM"));
      EvHealth]).
Proof.
  intros E w.
  refine (proj1 (live_startup E w [] "1" [1] "org" "bucket" "http://influx:8086" "token"
                   "PEM" true eq_refl _ eq_refl eq_refl eq_refl eq_refl (fun _ => eq_refl)
                   eq_refl eq_refl) (LibError "connection refused") eq_refl).
  repeat constructor.
Defined.

Lemma startup_events_no_ticker t :
  Forall (fun e => startup_event e = true) t -> count_events is_ticker t = 0%nat.
Proof.
  induction 1 as [| e t He _ IH]; [reflexivity |].
  change (e :: t) with ([e] ++ t). rewrite count_events_app, IH.
  destruct e as [[]| | | | | | | | | | | | | |]; try discriminate He; reflexivity.
Qed.

Lemma run_events_no_ticker t :
  Forall (fun e => run_event e = true) t -> count_events is_ticker t = 0%nat.
Proof.
  induction 1 as [| e t He _ IH]; [reflexivity |].
  change (e :: t) with ([e] ++ t). rewrite count_events_app, IH.
  destruct e as [[]| | | | | | | | | | | | | |]; try discriminate He; reflexivity.
Qed.

(** X14. In daemon mode a poll interval that is not positive ends the
    process with the panic of [time.NewTicker], but only after the first
    cycle has been executed: the history shows the context of that cycle,
    the events of [run] from there, the cancellation, the line logging
    what [run] came to, then the line announcing the ticker, and no ticker
    and no tick. *)
Theorem non_positive_interval_panics (E : Env) (w : World) (ic : InstanceConfig)
    (h1 : list event) (d : Duration) :
  loadConfig w [EvLog LogParsingConfig] = (Val ic, h1) ->
  env_Bool "ONESHOT" false = Returns false ->
  env_Duration "POLL_INTERVAL" time_Hour = Returns d ->
  d <= 0 ->
  exists c0,
    main w [] =
      (Panic (PanicStr "non-positive interval for NewTicker"),
       h1 ++ [EvLog LogDaemon] ++ c0 ++ [EvLog LogStartingTicker])
    /\ ran_cycle w ic (h1 ++ [EvLog LogDaemon]) c0
    /\ count_cycles (h1 ++ [EvLog LogDaemon] ++ c0 ++ [EvLog LogStartingTicker]) = 1%nat
    /\ count_events is_ticker (h1 ++ [EvLog LogDaemon] ++ c0 ++ [EvLog LogStartingTicker])
       = 0%nat.
Proof.
  intros Hcfg Hone Hpoll Hd.
  destruct (safeInvoke_ran_cycle w ic (h1 ++ [EvLog LogDaemon])) as (c0 & Hsafe & Hc0).
  exists c0. split; [| split; [exact Hc0 | split]].
  - unfold main, bind at 1, log_Println at 1, emit at 1. cbn [app].
    unfold bind at 1. rewrite Hcfg.
    unfold bind at 1, pure_call at 1. rewrite Hone.
    unfold bind at 1, log_Println at 1, emit at 1.
    unfold bind at 1. rewrite Hsafe.
    unfold daemon, bind at 1, log_Println at 1, emit at 1.
    unfold bind at 1, pure_call at 1. rewrite Hpoll.
    unfold bind at 1, time_NewTicker.
    apply Z.leb_le in Hd. rewrite Hd. unfold panic. rewrite <- !app_assoc. reflexivity.
  - rewrite !count_cycles_app.
    rewrite (loadConfig_no_cycle w ic _ _ Hcfg),
      (one_cycle_count ic c0 (ran_cycle_one_cycle w ic _ c0 Hc0)).
    reflexivity.
  - destruct (loadConfig_trace w [EvLog LogParsingConfig]) as (r0 & t0 & Heq0 & _ & Ht0).
    rewrite Hcfg in Heq0. injection Heq0 as _ ->.
    destruct (ran_cycle_one_cycle w ic _ c0 Hc0) as (t & l & -> & Ht & Hl).
    rewrite !count_events_app, (run_events_no_ticker t Ht).
    change (count_events is_ticker (EvLog LogParsingConfig :: t0))
      with (count_events is_ticker t0).
    rewrite (startup_events_no_ticker t0 Ht0).
    destruct Hl as [-> | [(e & ->) | (v & ->)]]; reflexivity.
Qed.

Lemma non_positive_interval_panics_witness :
  let E := mapEnv {[ "FOXPOST_PLACE_IDS" := "1" ]} {[ "DRY_RUN" := true ]}
             {[ "POLL_INTERVAL" := 0 ]} in
  let w := quietWorld (feedOf [apmX]) 5 in
  fst (@main E w []) = Panic (PanicStr "non-positive interval for NewTicker")
  /\ count_cycles (snd (@main E w [])) = 1%nat
  /\ count_events is_fetch (snd (@main E w [])) = 1%nat
  /\ emitted (snd (@main E w [])) = [mkPoint (dryConfig [1]) apmX 100 6].
Proof.
  intros E w.
  destruct (non_positive_interval_panics E w (dryConfig [1])
              [EvLog LogParsingConfig; EvLog LogDryRunEnabled] 0
              eq_refl eq_refl eq_refl ltac:(lia))
    as (c0 & Hmain & _ & Hcount & _).
  split; [rewrite Hmain; reflexivity |].
  split; [rewrite Hmain; exact Hcount |].
  split; vm_compute; reflexivity.
Defined.

(** ** One-shot mode and the ticker *)

(** X15. In one-shot mode [main] never creates a ticker and waits for no
    tick, and it does not read the poll interval: whatever [POLL_INTERVAL]
    holds, the process ends, by returning or by a panic. *)
Theorem one_shot_ignores_poll_interval (E : Env) (w : World) (ic : InstanceConfig)
    (h1 : list event) :
  loadConfig w [EvLog LogParsingConfig] = (Val ic, h1) ->
  env_Bool "ONESHOT" false = Returns true ->
  exists r hf,
    main w [] = (r, hf)
    /\ r <> Blocked
    /\ count_events is_ticker hf = 0%nat.
Proof.
  intros Hcfg Hone.
  destruct (loadConfig_trace w [EvLog LogParsingConfig]) as (r0 & t0 & Heq0 & _ & Ht0).
  rewrite Hcfg in Heq0. injection Heq0 as _ Hh1.
  destruct (invoke_trace w ic (h1 ++ [EvLog LogOneShot])) as (r & t & _ & Hinv & Hr & Ht).
  assert (Hmain : main w [] =
            (match r with
             | Val None => Val tt
             | Val (Some e) => Panic (PanicErr e)
             | Panic v => Panic v
             | Blocked => Blocked
             end,
             (h1 ++ [EvLog LogOneShot]) ++ [EvWithTimeout (timeout ic)] ++ t ++ [EvCancel])).
  { unfold main, bind at 1, log_Println at 1, emit at 1. cbn [app].
    unfold bind at 1. rewrite Hcfg.
    unfold bind at 1, pure_call at 1. rewrite Hone.
    unfold bind at 1, log_Println at 1, emit at 1.
    unfold bind. rewrite Hinv.
    destruct r as [[e |] | v |]; reflexivity. }
  eexists _, _. split; [exact Hmain |]. split.
  - destruct r as [[e |] | v |]; congruence.
  - rewrite !count_events_app, (run_events_no_ticker t Ht), Hh1.
    change (count_events is_ticker (EvLog LogParsingConfig :: t0))
      with (count_events is_ticker t0).
    rewrite (startup_events_no_ticker t0 Ht0). reflexivity.
Qed.

Lemma one_shot_ignores_poll_interval_witness :
  let E := mkEnv (fun k => if String.eqb k "FOXPOST_PLACE_IDS" then Returns "1"
                           else Panics (PanicStr k))
             (fun _ def => Returns def)
             (fun k def => Returns true)
             (fun k def => if String.eqb k "POLL_INTERVAL" then Panics (PanicStr k)
                           else Returns def)
             (fun _ => Returns false) in
  exists r hf,
    @main E (quietWorld (feedOf [apmX]) 2) [] = (r, hf)
    /\ r <> Blocked
    /\ count_events is_ticker hf = 0%nat.
Proof.
  intros E.
  exact (one_shot_ignores_poll_interval E (quietWorld (feedOf [apmX]) 2) (dryConfig [1])
           [EvLog LogParsingConfig; EvLog LogDryRunEnabled] eq_refl eq_refl).
Defined.

(** ** The earlier revision *)

(** X16. In the start-up of [main.go] the extra CA is looked for under
    [INFLUX_SERVER_EXTRA_CA] but read from [INFLUX_SERVER_CA]: with the
    first set and the second missing the start-up panics before any backend
    call, whatever the first holds; with both set the client is built with
    the text of [INFLUX_SERVER_CA]. *)
Theorem main_go_extra_ca_read_elsewhere (E : Env) (w : World) (h : list event)
    (s : string) (ids : list Z) :
  env_StringOrPanic "FOXPOST_PLACE_IDS" = Returns s ->
  Forall2 (fun v id => strconv_ParseUint v = inr id) (strings_Split s ","%char) ids ->
  env_Exists "INFLUX_SERVER_EXTRA_CA" = Returns true ->
  (forall v, env_StringOrPanic "INFLUX_SERVER_CA" = Panics v ->
     MainGoConfig.loadConfig w h = (Panic v, h ++ [EvLog LogLoadingExtraCA]))
  /\ (forall pem url token,
        env_StringOrPanic "INFLUX_SERVER_CA" = Returns pem ->
        env_StringOrPanic "INFLUX_SERVER_URL" = Returns url ->
        env_StringOrPanic "INFLUX_SERVER_TOKEN" = Returns token ->
        exists r t,
          MainGoConfig.loadConfig w h =
            (r, h ++ [EvLog LogLoadingExtraCA;
                      EvNewInfluxClient (NewClientWithOptions url token (WithExtraCA pem));
                      EvHealth] ++ t)
          /\ backend_calls t = []
          /\ forall ic, r = Val ic ->
               MainGoConfig.influxClient ic = NewClientWithOptions url token (WithExtraCA pem)).
Proof.
  intros Hs Hids Hexists.
  assert (Hstart : forall k : ClientOpts -> M MainGoConfig.InstanceConfig,
            MainGoConfig.loadConfig w h =
            (clientOpts <- MainGoConfig.extraCA;;
             url <- pure_call (env_StringOrPanic "INFLUX_SERVER_URL");;
             token <- pure_call (env_StringOrPanic "INFLUX_SERVER_TOKEN");;
             let influxClient := NewClientWithOptions url token clientOpts in
             emit (EvNewInfluxClient influxClient);;
             hc <- ext_call EvHealth (w_health w);;
             match hc with
             | inl _ => panic (PanicStr "influxdb health check failed")
             | inr status =>
                 log_Println (LogHealthResult status);;
                 timeout <- pure_call (env_Duration "INVOCATION_TIMEOUT" time_Minute);;
                 influxOrg <- pure_call (env_StringOrPanic "INFLUX_SERVER_ORG");;
                 influxBucket <- pure_call (env_StringOrPanic "INFLUX_SERVER_BUCKET");;
                 influxMeasurement <- pure_call (env_String "INFLUX_MEASUREMENT" "foxpost");;
                 ret (MainGoConfig.mkInstanceConfig timeout ids influxClient influxOrg
                        influxBucket influxMeasurement)
             end) h).
  { intros _. unfold MainGoConfig.loadConfig, bind at 1, pure_call at 1.
    rewrite Hs, split_guard_false.
    unfold bind at 1. rewrite (parsePlaceIDs_valid _ ids h Hids). reflexivity. }
  rewrite (Hstart (fun _ => panic (PanicStr ""))). clear Hstart.
  assert (Hca_step : MainGoConfig.extraCA h =
            match env_StringOrPanic "INFLUX_SERVER_CA" with
            | Returns pem => (Val (WithExtraCA pem), h ++ [EvLog LogLoadingExtraCA])
            | Panics v => (Panic v, h ++ [EvLog LogLoadingExtraCA])
            end).
  { unfold MainGoConfig.extraCA, bind at 1, pure_call at 1. rewrite Hexists.
    unfold bind, log_Println, emit, pure_call, ret.
    destruct (env_StringOrPanic "INFLUX_SERVER_CA"); reflexivity. }
  split.
  - intros v Hca. unfold bind at 1. rewrite Hca_step, Hca. reflexivity.
  - intros pem url token Hca Hurl Htoken. unfold bind at 1. rewrite Hca_step, Hca.
    unfold bind at 1, pure_call at 1. rewrite Hurl.
    unfold bind at 1, pure_call at 1. rewrite Htoken.
    unfold bind at 1, emit at 1. unfold bind at 1, ext_call at 1.
    destruct (w_health w _) as [[e | status] | v].
    + eexists _, _. unfold panic. rewrite <- !app_assoc. cbn [app].
      split; [reflexivity |]. split; [reflexivity | discriminate].
    + unfold bind at 1, log_Println at 1, emit at 1.
      unfold bind at 1, pure_call at 1.
      destruct (env_Duration "INVOCATION_TIMEOUT" time_Minute) as [d | v];
        [| eexists _, _; rewrite <- !app_assoc; cbn [app];
           split; [reflexivity |]; split; [reflexivity | discriminate]].
      unfold bind at 1, pure_call at 1.
      destruct (env_StringOrPanic "INFLUX_SERVER_ORG") as [org | v];
        [| eexists _, _; rewrite <- !app_assoc; cbn [app];
           split; [reflexivity |]; split; [reflexivity | discriminate]].
      unfold bind at 1, pure_call at 1.
      destruct (env_StringOrPanic "INFLUX_SERVER_BUCKET") as [bucket | v];
        [| eexists _, _; rewrite <- !app_assoc; cbn [app];
           split; [reflexivity |]; split; [reflexivity | discriminate]].
      unfold bind, pure_call.
      destruct (env_String "INFLUX_MEASUREMENT" "foxpost") as [m | v];
        [| eexists _, _; rewrite <- !app_assoc; cbn [app];
           split; [reflexivity |]; split; [reflexivity | discriminate]].
      eexists _, _. unfold ret. rewrite <- !app_assoc. cbn [app].
      split; [reflexivity |]. split; [reflexivity |]. intros ic [= <-]. reflexivity.
    + eexists _, _. rewrite <- !app_assoc. cbn [app].
      split; [reflexivity |]. split; [reflexivity | discriminate].
Qed.

Lemma main_go_extra_ca_read_elsewhere_witness :
  let E := mapEnv {[ "FOXPOST_PLACE_IDS" := "1"; "INFLUX_SERVER_EXTRA_CA" := "PEM";
                     "INFLUX_SERVER_URL" := "http://influx:8086";
                     "INFLUX_SERVER_TOKEN" := "token" ]} ∅ ∅ in
  @MainGoConfig.loadConfig E (quietWorld (feedOf []) 0) [] =
    (Panic (PanicStr "INFLUX_SERVER_CA"), [] ++ [EvLog LogLoadingExtraCA]).
Proof.
  intros E.
  refine (proj1 (main_go_extra_ca_read_elsewhere E (quietWorld (feedOf []) 0) [] "1" [1]
                   eq_refl _ eq_refl) (PanicStr "INFLUX_SERVER_CA") eq_refl).
  repeat constructor.
Defined.

(** X17. A missing [INFLUX_SERVER_ORG] stops both revisions with the panic
    of the [env] package, at different moments: the current start-up reads
    it first and stops before any backend call; the start-up of [main.go]
    reads it in the struct literal, after the client has been built and the
    health check answered. *)
Theorem missing_org_panics (E : Env) (w : World) (h : list event) (s : string)
    (ids : list Z) (v : panicval) :
  env_StringOrPanic "FOXPOST_PLACE_IDS" = Returns s ->
  Forall2 (fun piece id => strconv_ParseUint piece = inr id) (strings_Split s ","%char) ids ->
  env_StringOrPanic "INFLUX_SERVER_ORG" = Panics v ->
  (env_Bool "DRY_RUN" false = Returns false ->
     loadConfig w h = (Panic v, h ++ [EvLog LogSettingUpInflux]))
  /\ (forall url token status d,
        env_Exists "INFLUX_SERVER_EXTRA_CA" = Returns false ->
        env_StringOrPanic "INFLUX_SERVER_URL" = Returns url ->
        env_StringOrPanic "INFLUX_SERVER_TOKEN" = Returns token ->
        w_health w (h ++ [EvNewInfluxClient (NewClientWithOptions url token DefaultOptions)])
          = Returns (inr status) ->
        env_Duration "INVOCATION_TIMEOUT" time_Minute = Returns d ->
        MainGoConfig.loadConfig w h =
          (Panic v,
           h ++ [EvNewInfluxClient (NewClientWithOptions url token DefaultOptions);
                 EvHealth; EvLog (LogHealthResult status)])).
Proof.
  intros Hs Hids Horg. split.
  - intros Hdry.
    unfold loadConfig, bind at 1, pure_call at 1. rewrite Hs, split_guard_false.
    unfold bind at 1. rewrite (parsePlaceIDs_valid _ ids h Hids).
    unfold bind at 1, pure_call at 1. rewrite Hdry.
    unfold bind at 1, setupInflux. cbn [negb].
    unfold bind at 1, log_Println at 1, emit at 1.
    unfold bind at 1, pure_call at 1. rewrite Horg. reflexivity.
  - intros url token status d Hexists Hurl Htoken Hhealth Hd.
    unfold MainGoConfig.loadConfig, bind at 1, pure_call at 1.
    rewrite Hs, split_guard_false.
    unfold bind at 1. rewrite (parsePlaceIDs_valid _ ids h Hids).
    unfold bind at 1, MainGoConfig.extraCA, bind at 1, pure_call at 1. rewrite Hexists.
    unfold ret at 1.
    unfold bind at 1, pure_call at 1. rewrite Hurl.
    unfold bind at 1, pure_call at 1. rewrite Htoken.
    unfold bind at 1, emit at 1. unfold bind at 1, ext_call at 1. rewrite Hhealth.
    unfold bind at 1, log_Println at 1, emit at 1.
    unfold bind at 1, pure_call at 1. rewrite Hd.
    unfold bind at 1, pure_call at 1. rewrite Horg.
    rewrite <- !app_assoc. reflexivity.
Qed.

Lemma missing_org_panics_witness :
  let E := mapEnv {[ "FOXPOST_PLACE_IDS" := "1";
                     "INFLUX_SERVER_URL" := "http://influx:8086";
                     "INFLUX_SERVER_TOKEN" := "token" ]} ∅ ∅ in
  let w := quietWorld (feedOf []) 0 in
  @loadConfig E w [] = (Panic (PanicStr "INFLUX_SERVER_ORG"), [] ++ [EvLog LogSettingUpInflux])
  /\ @MainGoConfig.loadConfig E w [] =
       (Panic (PanicStr "INFLUX_SERVER_ORG"),
        [] ++ [EvNewInfluxClient (NewClientWithOptions "http://influx:8086" "token" DefaultOptions);
               EvHealth; EvLog (LogHealthResult "pass")]).
Proof.
  intros E w.
  assert (Hids : Forall2 (fun piece id => strconv_ParseUint piece = inr id)
                   (strings_Split "1" ","%char) [1]) by repeat constructor.
  destruct (missing_org_panics E w [] "1" [1] (PanicStr "INFLUX_SERVER_ORG")
              eq_refl Hids eq_refl) as [Hnew Hold].
  split.
  - apply Hnew. reflexivity.
  - apply (Hold "http://influx:8086" "token" "pass" time_Minute); reflexivity.
Defined.

(** X18. The load table of [main.go] holds exactly the labels
    ["normal loaded"], ["medium loaded"] and ["overloaded"]; the values it
    holds are the [float32] numbers nearest to 0.3 and 0.7, and 1.  The
    current table knows a label exactly when the earlier one does or the
    label is empty: the empty label is the one entry that was added. *)
Theorem main_go_loadMap_exact (s : string) :
  MainGo.loadMap !! s =
    (if decide (s = "normal loaded") then Some 0x1.333334p-2%float
     else if decide (s = "medium loaded") then Some 0x1.666666p-1%float
     else if decide (s = "overloaded") then Some 0x1p0%float
     else None)
  /\ (is_Some (loadMap !! s) <-> is_Some (MainGo.loadMap !! s) \/ s = "").
Proof.
  assert (Hold : MainGo.loadMap !! s =
            (if decide (s = "normal loaded") then Some 0x1.333334p-2%float
             else if decide (s = "medium loaded") then Some 0x1.666666p-1%float
             else if decide (s = "overloaded") then Some 0x1p0%float
             else None)).
  { unfold MainGo.loadMap. rewrite !lookup_insert, lookup_empty.
    repeat case_decide; congruence. }
  split; [exact Hold |].
  rewrite Hold, loadMap_lookup.
  repeat case_decide; try congruence;
    (split;
     [ intros [x Hx]; try discriminate Hx;
       first [left; eexists; reflexivity | right; assumption]
     | intros [[x Hx] | Hs]; try discriminate Hx; try congruence;
       eexists; reflexivity ]).
Qed.

(** ** Pieces that are not place IDs *)

Lemma parsePlaceIDs_invalid (strs : list string) (h : list event) :
  Exists (fun piece => exists e, strconv_ParseUint piece = inl e) strs ->
  parsePlaceIDs strs h = (Panic (PanicStr "invalid place id"), h).
Proof.
  induction 1 as [piece rest (e & He) | piece rest _ IH]; cbn [parsePlaceIDs].
  - rewrite He. reflexivity.
  - destruct (strconv_ParseUint piece) as [e | id]; [reflexivity |].
    unfold bind. rewrite IH. reflexivity.
Qed.

(** X19. When any comma-separated piece of [FOXPOST_PLACE_IDS] is not an
    unsigned decimal number that fits a [uint64] (an empty piece left by a
    trailing or doubled comma, a sign, a space, a value of 2^64 or more),
    the start-up panics with ["invalid place id"] before it reads any other
    setting or makes any call; a signed number, a number with a space and
    2^64 are such pieces. *)
Theorem invalid_piece_aborts_startup (E : Env) (w : World) (h : list event) (s : string) :
  env_StringOrPanic "FOXPOST_PLACE_IDS" = Returns s ->
  Exists (fun piece => exists e, strconv_ParseUint piece = inl e) (strings_Split s ","%char) ->
  loadConfig w h = (Panic (PanicStr "invalid place id"), h)
  /\ strconv_ParseUint "+1" = inl ErrSyntax
  /\ strconv_ParseUint " 1" = inl ErrSyntax
  /\ strconv_ParseUint "" = inl ErrSyntax
  /\ strconv_ParseUint "18446744073709551616" = inl ErrRange.
Proof.
  intros Hs Hbad. split; [| repeat split].
  unfold loadConfig, bind at 1, pure_call at 1. rewrite Hs, split_guard_false.
  unfold bind. rewrite (parsePlaceIDs_invalid _ h Hbad). reflexivity.
Qed.

Lemma invalid_piece_aborts_startup_witness :
  @loadConfig (mapEnv {[ "FOXPOST_PLACE_IDS" := "1,2," ]} {[ "DRY_RUN" := true ]} ∅)
     (quietWorld (feedOf []) 0) [] = (Panic (PanicStr "invalid place id"), [])
  /\ @loadConfig (mapEnv {[ "FOXPOST_PLACE_IDS" := "7,18446744073709551616" ]} ∅ ∅)
     (quietWorld (feedOf []) 0) [] = (Panic (PanicStr "invalid place id"), []).
Proof.
  split.
  - refine (proj1 (invalid_piece_aborts_startup
                     (mapEnv {[ "FOXPOST_PLACE_IDS" := "1,2," ]} {[ "DRY_RUN" := true ]} ∅)
                     (quietWorld (feedOf []) 0) [] "1,2," eq_refl _)).
    right; right; left. exists ErrSyntax. reflexivity.
  - refine (proj1 (invalid_piece_aborts_startup
                     (mapEnv {[ "FOXPOST_PLACE_IDS" := "7,18446744073709551616" ]} ∅ ∅)
                     (quietWorld (feedOf []) 0) [] "7,18446744073709551616" eq_refl _)).
    right; left. exists ErrRange. reflexivity.
Defined.
